(** * Traffic-assignment feasibility engine: a shallow embedding

    The development follows the Python sources

    - [src/solverUtils.py]   route enumeration, constraint builders,
    - [src/solveStrategy.py] the solving strategies,
    - [src/graphParser.py]   reading and writing the edge-list files.

    Python numbers are modelled by exact rationals ([Q]); the rounding of
    binary floating point is not represented.  Python exceptions are the
    [Raise] results of an error monad.  The two libraries the code calls
    are modelled by what they do on the values the code hands them:
    [networkx.MultiGraph] by an insertion-ordered edge store and [z3] by
    the syntax trees it builds and a solver with a stack of assertion
    frames. *)

From Stdlib Require Import String Ascii Bool Arith ZArith QArith Lia.
From Stdlib Require Import DecimalString DecimalNat.
From Stdlib Require Import List.
Import ListNotations.

Set Warnings "-register-all".

Local Open Scope string_scope.
Local Open Scope list_scope.

(* ================================================================== *)
(** ** Python exceptions *)

Inductive exn : Type :=
| KeyError
| IndexError
| TypeError
| ZeroDivisionError
| AttributeError
| NodeNotFound
| Z3Exception
| LoopBound.   (* no Python exception: the unrolling bound of a modelled
                  [while] loop was reached *)

Inductive result (A : Type) : Type :=
| Ok (a : A)
| Raise (e : exn).

Arguments Ok {A} a.
Arguments Raise {A} e.

Definition bind {A B : Type} (m : result A) (f : A -> result B) : result B :=
  match m with
  | Ok a => f a
  | Raise e => Raise e
  end.

Notation "x <- m ;; k" := (bind m (fun x => k))
  (at level 61, m at next level, right associativity).
Notation "' p <- m ;; k" := (bind m (fun x => match x with p => k end))
  (at level 61, p pattern, m at next level, right associativity).

(* ================================================================== *)
(** ** z3 terms

    [Real(name)] and [Int(name)] declare a constant of the given sort
    whose symbol is the name: a string symbol, or an integer symbol when
    the name is a Python integer (z3's [to_symbol]).  So [Int(500)] is
    the integer constant named 500, an unknown like any other; the
    numeral 500 is [ENum 500]. *)

Inductive symbol : Type :=
| SymStr (name : string)
| SymInt (n : Z).

Inductive sort : Type := RealSort | IntSort.

Inductive expr : Type :=
| EConst (x : symbol) (srt : sort)
| ENum (q : Q)
| EAdd (a b : expr)
| ESub (a b : expr)
| EMul (a b : expr)
| ESum (l : list expr).

Definition Real (name : string) : expr := EConst (SymStr name) RealSort.
Definition Int (n : Z) : expr := EConst (SymInt n) IntSort.

(** ** Python values stored in attribute dictionaries and flow matrices *)

Inductive pyval : Type :=
| VNone
| VNum (q : Q)
| VStr (str : string)
| VExpr (e : expr).

Definition is_expr (v : pyval) : bool :=
  match v with VExpr _ => true | _ => false end.

(** Truthiness of a value that is not a z3 term, as used by
    [not edge_data.get("k")]. *)
Definition truthy (v : pyval) : bool :=
  match v with
  | VNone => false
  | VNum q => negb (Qeq_bool q 0)
  | VStr str => negb (String.eqb str "")
  | VExpr _ => true
  end.

(** ** Attribute dictionaries: insertion-ordered, as Python's [dict] *)

Definition dict : Type := list (string * pyval).

Fixpoint dict_get (dd : dict) (k : string) : option pyval :=
  match dd with
  | [] => None
  | (k', v) :: rest => if String.eqb k' k then Some v else dict_get rest k
  end.

Fixpoint dict_set (dd : dict) (k : string) (v : pyval) : dict :=
  match dd with
  | [] => [(k, v)]
  | (k', v') :: rest =>
      if String.eqb k' k then (k', v) :: rest else (k', v') :: dict_set rest k v
  end.

Definition dict_update (dd : dict) (new : dict) : dict :=
  fold_left (fun acc kv => dict_set acc (fst kv) (snd kv)) new dd.

(** [data[k]]: a missing key raises [KeyError]. *)
Definition dict_getitem (dd : dict) (k : string) : result pyval :=
  match dict_get dd k with
  | Some v => Ok v
  | None => Raise KeyError
  end.

(* ================================================================== *)
(** ** networkx.MultiGraph

    Nodes are strings.  An edge key is the integer networkx allots
    ([new_edge_key]) or the string the caller passes.  The graph keeps
    its nodes and its edges in insertion order; the adjacency views
    networkx exposes are computed from them. *)

Definition node : Type := string.

Inductive ekey : Type :=
| KInt (n : nat)
| KStr (name : string).

Definition ekey_eqb (a b : ekey) : bool :=
  match a, b with
  | KInt n, KInt m => Nat.eqb n m
  | KStr x, KStr y => String.eqb x y
  | _, _ => false
  end.

Record edge : Type := mkEdge {
  e_u : node;
  e_v : node;
  e_key : ekey;
  e_data : dict
}.

Record MultiGraph : Type := mkGraph {
  g_nodes : list node;
  g_edges : list edge
}.

Definition empty_graph : MultiGraph := mkGraph [] [].

Definition mem (n : node) (l : list node) : bool := existsb (String.eqb n) l.

(** [n in graph] *)
Definition has_node (g : MultiGraph) (n : node) : bool := mem n (g_nodes g).

Definition add_node (ns : list node) (n : node) : list node :=
  if mem n ns then ns else ns ++ [n].

(** The edge joins [u] and [v], in either orientation. *)
Definition joins (u v : node) (e : edge) : bool :=
  (String.eqb (e_u e) u && String.eqb (e_v e) v)
  || (String.eqb (e_u e) v && String.eqb (e_v e) u).

(** [graph[u][v]] as an ordered list of (key, data) items; empty when
    [v] is not a neighbour of [u]. *)
Definition keydict (g : MultiGraph) (u v : node) : list (ekey * dict) :=
  map (fun e => (e_key e, e_data e)) (filter (joins u v) (g_edges g)).

(** [graph[u][v]]: raises [KeyError] when there is no such adjacency. *)
Definition adj_getitem (g : MultiGraph) (u v : node)
  : result (list (ekey * dict)) :=
  match keydict g u v with
  | [] => Raise KeyError
  | kd => Ok kd
  end.

Fixpoint kd_get (kd : list (ekey * dict)) (k : ekey) : option dict :=
  match kd with
  | [] => None
  | (k', dd) :: rest => if ekey_eqb k' k then Some dd else kd_get rest k
  end.

(** [graph[u][v][key]] *)
Definition edge_data (g : MultiGraph) (u v : node) (k : ekey) : result dict :=
  kd <- adj_getitem g u v ;;
  match kd_get kd k with
  | Some dd => Ok dd
  | None => Raise KeyError
  end.

(** The first occurrences of a list, in order: the key order of a dict
    filled by successive insertions. *)
Fixpoint uniq_from (seen : list node) (l : list node) : list node :=
  match l with
  | [] => []
  | x :: rest =>
      if mem x seen then uniq_from seen rest
      else x :: uniq_from (x :: seen) rest
  end.

Definition other_end (u : node) (e : edge) : list node :=
  if String.eqb (e_u e) u then [e_v e]
  else if String.eqb (e_v e) u then [e_u e]
  else [].

(** Keys of [graph.adj[u]], in insertion order. *)
Definition neighbors (g : MultiGraph) (u : node) : list node :=
  uniq_from [] (flat_map (other_end u) (g_edges g)).

(** [graph.edges(u, keys=True)] without the source: (neighbour, key). *)
Definition out_edges (g : MultiGraph) (u : node) : list (node * ekey) :=
  flat_map (fun nbr => map (fun kd => (nbr, fst kd)) (keydict g u nbr))
           (neighbors g u).

(** [new_edge_key]: the number of parallel edges, stepped past keys that
    are taken. *)
Fixpoint new_edge_key_from (kd : list (ekey * dict)) (n fuel : nat) : nat :=
  match fuel with
  | O => n
  | S fuel' =>
      match kd_get kd (KInt n) with
      | Some _ => new_edge_key_from kd (S n) fuel'
      | None => n
      end
  end.

Definition new_edge_key (g : MultiGraph) (u v : node) : ekey :=
  let kd := keydict g u v in
  KInt (new_edge_key_from kd (length kd) (S (length kd))).

Definition update_edge (u v : node) (k : ekey) (f : dict -> dict) (e : edge)
  : edge :=
  if joins u v e && ekey_eqb (e_key e) k
  then mkEdge (e_u e) (e_v e) (e_key e) (f (e_data e))
  else e.

(** Mutation of the data dictionary of edge [(u, v, k)]. *)
Definition update_edge_data (g : MultiGraph) (u v : node) (k : ekey)
  (f : dict -> dict) : MultiGraph :=
  mkGraph (g_nodes g) (map (update_edge u v k f) (g_edges g)).

(** [graph.add_edge(u, v, key=k, **attr)] *)
Definition add_edge (g : MultiGraph) (u v : node) (k : option ekey)
  (attr : dict) : MultiGraph :=
  let ns := add_node (add_node (g_nodes g) u) v in
  let key := match k with Some key => key | None => new_edge_key g u v end in
  match kd_get (keydict g u v) key with
  | Some _ =>
      mkGraph ns (map (update_edge u v key (fun dd => dict_update dd attr))
                      (g_edges g))
  | None =>
      mkGraph ns (g_edges g ++ [mkEdge u v key (dict_update [] attr)])
  end.

(** [graph.edges(keys=True, data=True)]: every node in turn reports the
    edges to the neighbours that have not reported yet. *)
Fixpoint edges_from (g : MultiGraph) (seen : list node) (ns : list node)
  : list (node * node * ekey * dict) :=
  match ns with
  | [] => []
  | n :: rest =>
      flat_map (fun nbr =>
                  if mem nbr seen then []
                  else map (fun kd => (n, nbr, fst kd, snd kd))
                           (keydict g n nbr))
               (neighbors g n)
      ++ edges_from g (n :: seen) rest
  end.

Definition edges_view (g : MultiGraph) : list (node * node * ekey * dict) :=
  edges_from g [] (g_nodes g).

(** A loop [for u, v, key, data in graph.edges(keys=True, data=True)]
    whose body rewrites [data] in place. *)
Fixpoint mutate_edges (f : dict -> result dict)
  (view : list (node * node * ekey * dict)) (g : MultiGraph)
  : result MultiGraph :=
  match view with
  | [] => Ok g
  | (u, v, key, data) :: rest =>
      data' <- f data ;;
      mutate_edges f rest (update_edge_data g u v key (fun _ => data'))
  end.

(* ================================================================== *)
(** ** networkx.all_simple_paths on a multigraph

    Depth-first search from the source along [graph.edges(node,
    keys=True)]; a node path is yielded once for every edge path that
    realises it, so parallel edges give repeated node paths.  A node at
    depth [d] is expanded when [d < cutoff] and it is not the target.
    When source and target coincide the one path is the source alone
    (networkx 3.2 and later). *)

Fixpoint paths_from (g : MultiGraph) (tgt : node) (budget : nat)
  (visited : list node) (u : node) : list (list node) :=
  match budget with
  | O => []
  | S budget' =>
      flat_map (fun nk : node * ekey =>
                  let nbr := fst nk in
                  if mem nbr (u :: visited) then []
                  else if String.eqb nbr tgt then [[u; nbr]]
                  else map (cons u)
                           (paths_from g tgt budget' (u :: visited) nbr))
               (out_edges g u)
  end.

Definition all_simple_paths (g : MultiGraph) (src tgt : node) (cutoff : nat)
  : result (list (list node)) :=
  if negb (has_node g src) then Raise NodeNotFound
  else if negb (has_node g tgt) then Raise NodeNotFound
  else if String.eqb src tgt then Ok [[src]]
  else Ok (paths_from g tgt cutoff [] src).

(** [itertools.product] of the lists of [ls]: the rightmost list
    advances fastest. *)
Fixpoint product {A : Type} (ls : list (list A)) : list (list A) :=
  match ls with
  | [] => [[]]
  | l :: rest => flat_map (fun x => map (cons x) (product rest)) l
  end.

(* ================================================================== *)
(** ** solverUtils.getAllPossibleRoutes *)

Record demand : Type := mkDemand {
  dem_s : node;
  dem_t : node;
  dem_d : Q
}.

Definition edge_id : Type := (node * node * ekey)%type.
Definition route : Type := list edge_id.

Definition MAX_ROUTES_PER_DEMAND : nat := 6.
Definition PERSONAL_CAP : Q := 500.
Definition PERSONAL_PRICE : Q := 100.

Definition default_attr : dict :=
  [("k", VNum 1); ("capacity", VNum PERSONAL_CAP);
   ("price", VNum PERSONAL_PRICE); ("color", VStr "personal")].

(** [f"auto_{s}_{t}"] *)
Definition default_key (s t : node) : ekey :=
  KStr ("auto_" ++ s ++ "_" ++ t)%string.

Definition min_length (paths : list (list node)) : nat :=
  match paths with
  | [] => 0
  | p :: rest => fold_left (fun m q => Nat.min m (length q)) rest (length p)
  end.

Definition path_eq_dec : forall p q : list node, {p = q} + {p <> q} :=
  list_eq_dec string_dec.

(** The loop over [range(len(path) - 1)] that fills [temp_list]. *)
Fixpoint edge_options (g : MultiGraph) (path : list node)
  : result (list (list edge_id)) :=
  match path with
  | [] => Ok []
  | u :: rest =>
      match rest with
      | [] => Ok []
      | v :: _ =>
          parallel_edges <- adj_getitem g u v ;;
          temp_list <- edge_options g rest ;;
          Ok (map (fun kd => (u, v, fst kd)) parallel_edges :: temp_list)
      end
  end.

(** The loop [for path in node_paths] that extends
    [all_edge_paths_for_demand]. *)
Fixpoint expand_paths (g : MultiGraph) (node_paths : list (list node))
  : result (list route) :=
  match node_paths with
  | [] => Ok []
  | path :: rest =>
      temp_list <- edge_options g path ;;
      more <- expand_paths g rest ;;
      Ok (product temp_list ++ more)
  end.

Section RouteEnumerator.

(** The order in which Python iterates over the [set] of node-path
    tuples.  It depends on the hashes of the tuples, hence (for string
    nodes) on the hash seed of the interpreter. *)
Variable set_iter : list (list node) -> list (list node).

Variable max_hops : nat.

(** One turn of the loop [for demand in demands]: the routes of the
    demand and the graph it leaves. *)
Definition routes_for_demand (g : MultiGraph) (dem : demand)
  : result (list route * MultiGraph) :=
  let s := dem_s dem in
  let t := dem_t dem in
  node_paths <-
    (if negb (has_node g s) || negb (has_node g t) then Ok []
     else all_simple_paths g s t max_hops) ;;
  match node_paths with
  | [] =>
      let g' := add_edge g s t (Some (default_key s t)) default_attr in
      Ok ([[(s, t, default_key s t)]], g')
  | _ :: _ =>
      let m := min_length node_paths in
      let shortest :=
        set_iter (filter (fun p => Nat.eqb (length p) m) node_paths) in
      all_edge_paths_for_demand <- expand_paths g shortest ;;
      Ok (firstn MAX_ROUTES_PER_DEMAND all_edge_paths_for_demand, g)
  end.

Fixpoint routes_loop (g : MultiGraph) (R_ij : list (list route))
  (demands : list demand) : result (list (list route) * MultiGraph) :=
  match demands with
  | [] => Ok (R_ij, g)
  | dem :: rest =>
      '(routes, g') <- routes_for_demand g dem ;;
      routes_loop g' (R_ij ++ [routes]) rest
  end.

Definition getAllPossibleRoutes (g : MultiGraph) (demands : list demand)
  : result (list (list route) * MultiGraph) :=
  routes_loop g [] demands.

End RouteEnumerator.

(** Two iteration orders a Python process may realise: the order of
    first insertion and its reverse. *)
Fixpoint uniq_paths (seen : list (list node)) (l : list (list node))
  : list (list node) :=
  match l with
  | [] => []
  | p :: rest =>
      if in_dec path_eq_dec p seen then uniq_paths seen rest
      else p :: uniq_paths (p :: seen) rest
  end.

Definition set_iter_first (l : list (list node)) : list (list node) :=
  uniq_paths [] l.


(** What every iteration order satisfies: each element of the set is
    met once. *)
Definition set_order (set_iter : list (list node) -> list (list node)) : Prop :=
  forall l, NoDup (set_iter l) /\ forall p, In p (set_iter l) <-> In p l.

(* ================================================================== *)
(** ** Python arithmetic and comparison on numbers and z3 terms *)

Inductive formula : Type :=
| FBool (b : bool)
| FEq (a b : expr)
| FLe (a b : expr)
| FGe (a b : expr)
| FAnd (fs : list formula)
| FImplies (a b : formula).

(** Coercion of a Python value to a z3 arithmetic term. *)
Definition to_expr (v : pyval) : result expr :=
  match v with
  | VExpr e => Ok e
  | VNum q => Ok (ENum q)
  | VNone | VStr _ => Raise Z3Exception
  end.

Definition py_arith (fq : Q -> Q -> Q) (fe : expr -> expr -> expr)
  (a b : pyval) : result pyval :=
  match a, b with
  | VNum x, VNum y => Ok (VNum (fq x y))
  | VExpr x, VExpr y => Ok (VExpr (fe x y))
  | VExpr x, VNum y => Ok (VExpr (fe x (ENum y)))
  | VNum x, VExpr y => Ok (VExpr (fe (ENum x) y))
  | VExpr _, _ | _, VExpr _ => Raise Z3Exception
  | _, _ => Raise TypeError
  end.

Definition py_add : pyval -> pyval -> result pyval := py_arith Qplus EAdd.
Definition py_sub : pyval -> pyval -> result pyval := py_arith Qminus ESub.
Definition py_mul : pyval -> pyval -> result pyval := py_arith Qmult EMul.

(** [a / b] on Python numbers. *)
Definition py_div (a b : Q) : result Q :=
  if Qeq_bool b 0 then Raise ZeroDivisionError else Ok (a / b)%Q.

(** [a <= b].  A number on the left of a term is compared by the
    reflected operator of the term. *)
Definition py_le (a b : pyval) : result formula :=
  match a, b with
  | VNum x, VNum y => Ok (FBool (Qle_bool x y))
  | VExpr x, VExpr y => Ok (FLe x y)
  | VExpr x, VNum y => Ok (FLe x (ENum y))
  | VNum x, VExpr y => Ok (FGe y (ENum x))
  | VExpr _, _ | _, VExpr _ => Raise Z3Exception
  | _, _ => Raise TypeError
  end.

(** [a >= b] *)
Definition py_ge (a b : pyval) : result formula :=
  match a, b with
  | VNum x, VNum y => Ok (FBool (Qle_bool y x))
  | VExpr x, VExpr y => Ok (FGe x y)
  | VExpr x, VNum y => Ok (FGe x (ENum y))
  | VNum x, VExpr y => Ok (FLe y (ENum x))
  | VExpr _, _ | _, VExpr _ => Raise Z3Exception
  | _, _ => Raise TypeError
  end.

(** [a == b] with a number on the right. *)
Definition py_eq (a b : pyval) : result formula :=
  match a, b with
  | VNum x, VNum y => Ok (FBool (Qeq_bool x y))
  | VExpr x, VExpr y => Ok (FEq x y)
  | VExpr x, VNum y => Ok (FEq x (ENum y))
  | VNum x, VExpr y => Ok (FEq y (ENum x))
  | VExpr _, _ | _, VExpr _ => Raise Z3Exception
  | _, _ => Ok (FBool false)
  end.

Fixpoint mapM {A B : Type} (f : A -> result B) (l : list A) : result (list B) :=
  match l with
  | [] => Ok []
  | x :: rest =>
      y <- f x ;;
      ys <- mapM f rest ;;
      Ok (y :: ys)
  end.

(** Python's builtin [sum]: a left fold of [+] from [0]. *)
Fixpoint py_sum_from (acc : pyval) (l : list pyval) : result pyval :=
  match l with
  | [] => Ok acc
  | x :: rest =>
      acc' <- py_add acc x ;;
      py_sum_from acc' rest
  end.

Definition py_sum (l : list pyval) : result pyval := py_sum_from (VNum 0) l.

(** [z3.Sum]: [0] for no argument, the Python sum when no argument is a
    z3 term, an n-ary sum of the coerced arguments otherwise. *)
Definition z3_Sum (l : list pyval) : result pyval :=
  if existsb is_expr l
  then es <- mapM to_expr l ;; Ok (VExpr (ESum es))
  else py_sum l.

(** [float(x)] on the values a price can take; strings are not read as
    numbers here. *)
Definition py_float (v : pyval) : result pyval :=
  match v with
  | VNum q => Ok (VNum q)
  | _ => Raise TypeError
  end.

(** [l[i]] *)
Definition list_getitem {A : Type} (l : list A) (i : nat) : result A :=
  match nth_error l i with
  | Some x => Ok x
  | None => Raise IndexError
  end.

Definition string_of_nat (n : nat) : string :=
  NilEmpty.string_of_uint (Nat.to_uint n).

(* ================================================================== *)
(** ** The solver: assertions, objectives and the scopes opened by push *)

Record solver : Type := mkSolver {
  can_minimize : bool;           (* an [Optimize], not a plain [Solver] *)
  assertions : list formula;
  objectives : list expr;
  scopes : list (nat * nat)
}.

Definition push (s : solver) : solver :=
  mkSolver (can_minimize s) (assertions s) (objectives s)
           ((length (assertions s), length (objectives s)) :: scopes s).

Definition pop (s : solver) : result solver :=
  match scopes s with
  | [] => Raise Z3Exception
  | (na, no) :: rest =>
      Ok (mkSolver (can_minimize s) (firstn na (assertions s))
                   (firstn no (objectives s)) rest)
  end.

Definition add (s : solver) (f : formula) : solver :=
  mkSolver (can_minimize s) (assertions s ++ [f]) (objectives s) (scopes s).

(** [solver.minimize(objective)]: only an [Optimize] has the method, and
    the objective must be a z3 term. *)
Definition minimize (s : solver) (objective : pyval) : result solver :=
  if can_minimize s then
    match objective with
    | VExpr e =>
        Ok (mkSolver (can_minimize s) (assertions s) (objectives s ++ [e])
                     (scopes s))
    | _ => Raise AttributeError
    end
  else Raise AttributeError.

(* ================================================================== *)
(** ** solverUtils: cost and price of a route *)

Definition edge_attr (g : MultiGraph) (e : edge_id) (name : string)
  : result pyval :=
  let '(u, v, key) := e in
  dd <- edge_data g u v key ;;
  dict_getitem dd name.

Definition cost_term (g : MultiGraph) (e : edge_id) : result pyval :=
  f_e <- edge_attr g e "f_e" ;;
  k <- edge_attr g e "k" ;;
  price <- edge_attr g e "price" ;;
  kf <- py_mul k f_e ;;
  py_add kf price.

Definition compute_route_cost (g : MultiGraph) (route_edges : route)
  : result pyval :=
  cost_terms <- mapM (cost_term g) route_edges ;;
  if existsb is_expr cost_terms then z3_Sum cost_terms
  else py_sum cost_terms.

Definition compute_route_price (g : MultiGraph) (route_edges : route)
  : result pyval :=
  price_terms <- mapM (fun e => edge_attr g e "price") route_edges ;;
  if existsb is_expr price_terms then z3_Sum price_terms
  else floats <- mapM py_float price_terms ;; py_sum floats.

(* ================================================================== *)
(** ** solverUtils.addVarsForSolver *)

Definition edge_color (data : dict) : string :=
  match dict_get data "color" with
  | Some (VStr c) => c
  | _ => "personal"
  end.

Definition alloc_edge (u v : node) (data : dict) : dict :=
  let color := edge_color data in
  let f_e_name := ("f_" ++ u ++ "-" ++ v ++ "-" ++ color)%string in
  let data1 := dict_set data "f_e" (VExpr (Real f_e_name)) in
  match dict_get data1 "price" with
  | None | Some VNone =>
      dict_set data1 "price"
        (VExpr (Real ("p_" ++ u ++ "-" ++ v ++ "-" ++ color)%string))
  | Some _ => data1
  end.

Definition flow_name (i j : nat) : string :=
  ("flow_" ++ string_of_nat i ++ "_" ++ string_of_nat j)%string.

Fixpoint alloc_row (i j : nat) (demand_routes : list route) : list pyval :=
  match demand_routes with
  | [] => []
  | _ :: rest => VExpr (Real (flow_name i j)) :: alloc_row i (S j) rest
  end.

Fixpoint alloc_rows (i : nat) (R_ij : list (list route)) : list (list pyval) :=
  match R_ij with
  | [] => []
  | demand_routes :: rest => alloc_row i 0 demand_routes :: alloc_rows (S i) rest
  end.

Definition addVarsForSolver (g : MultiGraph) (R_ij : list (list route))
  : MultiGraph * list (list pyval) :=
  (fold_left (fun acc e =>
                let '(u, v, key, data) := e in
                update_edge_data acc u v key (fun _ => alloc_edge u v data))
             (edges_view g) g,
   alloc_rows 0 R_ij).

(* ================================================================== *)
(** ** solverUtils.addC1C2Constraints *)

Definition PRICE_MIN : Q := 5.
Definition TOLERANCE_FLOW : Q := 1.
Definition TOLERANCE_COST : Q := 5.

(** [any(edge_u == u and edge_v == v and edge_key == key for ...)] *)
Definition route_uses (u v : node) (key : ekey) (route_edges : route) : bool :=
  existsb (fun e : edge_id =>
             let '(edge_u, edge_v, edge_key) := e in
             String.eqb edge_u u && String.eqb edge_v v && ekey_eqb edge_key key)
          route_edges.

Fixpoint collect_routes (u v : node) (key : ekey) (f_R_i_vars : list pyval)
  (j : nat) (demand_routes : list route) (acc : list pyval)
  : result (list pyval) :=
  match demand_routes with
  | [] => Ok acc
  | route_edges :: rest =>
      if route_uses u v key route_edges then
        f_R <- list_getitem f_R_i_vars j ;;
        collect_routes u v key f_R_i_vars (S j) rest (acc ++ [f_R])
      else collect_routes u v key f_R_i_vars (S j) rest acc
  end.

Fixpoint collect_demands (u v : node) (key : ekey) (f_R_vars : list (list pyval))
  (i : nat) (R_ij : list (list route)) (acc : list pyval)
  : result (list pyval) :=
  match R_ij with
  | [] => Ok acc
  | demand_routes :: rest =>
      f_R_i_vars <- list_getitem f_R_vars i ;;
      acc' <- collect_routes u v key f_R_i_vars 0 demand_routes acc ;;
      collect_demands u v key f_R_vars (S i) rest acc'
  end.

(** The body of the loop over the edges. *)
Definition c1c2_edge (R_ij : list (list route)) (f_R_vars : list (list pyval))
  (e : node * node * ekey * dict) (s : solver) : result solver :=
  let '(u, v, key, data) := e in
  f_e <- dict_getitem data "f_e" ;;
  sum_f_R_on_e <- collect_demands u v key f_R_vars 0 R_ij [] ;;
  s1 <- match sum_f_R_on_e with
        | [] => c <- py_eq f_e (VNum 0) ;; Ok (add s c)
        | _ :: _ =>
            total <- z3_Sum sum_f_R_on_e ;;
            if is_expr total
            then c <- py_eq f_e total ;; Ok (add s c)
            else Ok s
        end ;;
  let capacity := match dict_get data "capacity" with
                  | Some c => c
                  | None => VExpr (Int 500)
                  end in
  lower <- py_le (VNum 0) f_e ;;
  let s2 := add s1 lower in
  upper <- py_le f_e capacity ;;
  let s3 := add s2 upper in
  price <- dict_getitem data "price" ;;
  if is_expr price
  then c <- py_ge price (VNum PRICE_MIN) ;; Ok (add s3 c)
  else Ok s3.

Fixpoint c1c2_loop (R_ij : list (list route)) (f_R_vars : list (list pyval))
  (view : list (node * node * ekey * dict)) (s : solver) : result solver :=
  match view with
  | [] => Ok s
  | e :: rest =>
      s' <- c1c2_edge R_ij f_R_vars e s ;;
      c1c2_loop R_ij f_R_vars rest s'
  end.

Definition addC1C2Constraints (g : MultiGraph) (R_ij : list (list route))
  (f_R_vars : list (list pyval)) (s : solver) : result solver :=
  c1c2_loop R_ij f_R_vars (edges_view g) s.

(* ================================================================== *)
(** ** solverUtils.addC3C4Constraints *)

Definition T_var (i : nat) : pyval :=
  VExpr (Real ("T_" ++ string_of_nat i)%string).

(** The two assertions made for route [j] of a demand. *)
Definition wardrop_route (g : MultiGraph) (T_i f_R : pyval)
  (route_edges : route) (s : solver) : result solver :=
  cost_R <- compute_route_cost g route_edges ;;
  price_R <- compute_route_price g route_edges ;;
  used <- py_ge f_R (VNum TOLERANCE_FLOW) ;;
  hi <- py_add T_i (VNum TOLERANCE_COST) ;;
  below <- py_le cost_R hi ;;
  lo <- py_sub T_i (VNum TOLERANCE_COST) ;;
  above <- py_ge cost_R lo ;;
  let s1 := add s (FImplies used (FAnd [below; above])) in
  unused <- py_le f_R (VNum TOLERANCE_FLOW) ;;
  lo' <- py_sub T_i (VNum TOLERANCE_COST) ;;
  dominated <- py_ge price_R lo' ;;
  Ok (add s1 (FImplies unused (FAnd [dominated]))).

Fixpoint wardrop_routes (g : MultiGraph) (T_i : pyval)
  (f_R_i_vars : list pyval) (j : nat) (demand_routes : list route)
  (s : solver) : result solver :=
  match demand_routes with
  | [] => Ok s
  | route_edges :: rest =>
      f_R <- list_getitem f_R_i_vars j ;;
      s' <- wardrop_route g T_i f_R route_edges s ;;
      wardrop_routes g T_i f_R_i_vars (S j) rest s'
  end.

Fixpoint c3c4_loop (g : MultiGraph) (R_ij : list (list route))
  (f_R_vars : list (list pyval)) (i : nat) (demands : list demand)
  (s : solver) : result solver :=
  match demands with
  | [] => Ok s
  | dem :: rest =>
      if negb (has_node g (dem_s dem)) || negb (has_node g (dem_t dem))
      then c3c4_loop g R_ij f_R_vars (S i) rest s
      else
        f_R_i_vars <- list_getitem f_R_vars i ;;
        f_R_sum <- z3_Sum f_R_i_vars ;;
        conservation <- py_eq f_R_sum (VNum (dem_d dem)) ;;
        let s1 := add s conservation in
        let T_i := T_var i in
        demand_routes <- list_getitem R_ij i ;;
        s2 <- wardrop_routes g T_i f_R_i_vars 0 demand_routes s1 ;;
        c3c4_loop g R_ij f_R_vars (S i) rest s2
  end.

Definition addC3C4Constraints (g : MultiGraph) (R_ij : list (list route))
  (f_R_vars : list (list pyval)) (demands : list demand) (s : solver)
  : result solver :=
  c3c4_loop g R_ij f_R_vars 0 demands s.

(** ** solverUtils.addConstraints *)

Fixpoint nonneg_loop (flows : list pyval) (s : solver) : result solver :=
  match flows with
  | [] => Ok s
  | f_R :: rest =>
      c <- py_ge f_R (VNum 0) ;;
      nonneg_loop rest (add s c)
  end.

Definition addConstraints (g : MultiGraph) (R_ij : list (list route))
  (f_R_vars : list (list pyval)) (demands : list demand) (s : solver)
  : result solver :=
  s1 <- addC1C2Constraints g R_ij f_R_vars s ;;
  s2 <- addC3C4Constraints g R_ij f_R_vars demands s1 ;;
  nonneg_loop (concat f_R_vars) s2.

(** ** solverUtils.getObjectiveExpr *)

Fixpoint objective_routes (g : MultiGraph) (f_R_i_vars : list pyval) (j : nat)
  (demand_routes : list route) (all_terms : list pyval)
  : result (list pyval) :=
  match demand_routes with
  | [] => Ok all_terms
  | route_edges :: rest =>
      f_R <- list_getitem f_R_i_vars j ;;
      cost_R <- compute_route_cost g route_edges ;;
      objective_term <- py_mul f_R cost_R ;;
      objective_routes g f_R_i_vars (S j) rest (all_terms ++ [objective_term])
  end.

Fixpoint objective_demands (g : MultiGraph) (f_R_vars : list (list pyval))
  (i : nat) (R_ij : list (list route)) (all_terms : list pyval)
  : result (list pyval) :=
  match R_ij with
  | [] => Ok all_terms
  | demand_routes :: rest =>
      f_R_i_vars <- list_getitem f_R_vars i ;;
      all_terms' <- objective_routes g f_R_i_vars 0 demand_routes all_terms ;;
      objective_demands g f_R_vars (S i) rest all_terms'
  end.

Definition getObjectiveExpr (g : MultiGraph) (R_ij : list (list route))
  (f_R_vars : list (list pyval)) : result pyval :=
  all_terms <- objective_demands g f_R_vars 0 R_ij [] ;;
  z3_Sum all_terms.

(* ================================================================== *)
(** ** solveStrategy *)

Inductive check_result (M : Type) : Type :=
| sat (m : M)      (* [check() == sat], with the model [solver.model()] *)
| unsat
| unknown.

Arguments sat {M} m.
Arguments unsat {M}.
Arguments unknown {M}.

(** [l[i] = x] *)
Fixpoint list_setitem {A : Type} (l : list A) (i : nat) (x : A)
  : result (list A) :=
  match l, i with
  | [], _ => Raise IndexError
  | _ :: rest, O => Ok (x :: rest)
  | y :: rest, S i' => rest' <- list_setitem rest i' x ;; Ok (y :: rest')
  end.

(** [a / b] on the numbers a fully numeric route price can be. *)
Definition py_truediv (a b : pyval) : result pyval :=
  match a, b with
  | VNum x, VNum y => q <- py_div x y ;; Ok (VNum q)
  | _, _ => Raise TypeError
  end.

Definition P_MIN : Z := 5.
Definition P_MAX : Z := 120.
Definition P_DELTA : Z := 5.

(** The first loop of [setPricesHighToLow]: demands whose route prices
    are all numbers get their flows fixed in proportion to the prices. *)
Fixpoint precommit (g : MultiGraph) (demands : list demand) (i : nat)
  (R_ij : list (list route)) (f_R_vars : list (list pyval))
  : result (list (list pyval)) :=
  match R_ij with
  | [] => Ok f_R_vars
  | routes :: rest =>
      route_prices <- mapM (compute_route_price g) routes ;;
      if existsb is_expr route_prices
      then precommit g demands (S i) rest f_R_vars
      else
        total <- py_sum route_prices ;;
        row <- mapM (fun route_price =>
                       share <- py_truediv route_price total ;;
                       dem <- list_getitem demands i ;;
                       py_mul share (VNum (dem_d dem)))
                    route_prices ;;
        f_R_vars' <- list_setitem f_R_vars i row ;;
        precommit g demands (S i) rest f_R_vars'
  end.

(** [if 'price' in data and is_expr(data['price']): data['price'] = p] *)
Definition fix_price (p : Q) (data : dict) : dict :=
  match dict_get data "price" with
  | Some (VExpr _) => dict_set data "price" (VNum p)
  | _ => data
  end.

Inductive Strategy : Type :=
| OPTIMIZE
| HIGHTOLOW
| HIGHTOLOW_WO
| BSCAPACITY
| INCCAPACITY.

Section Strategies.

(** The models z3 returns, the verdict of [solver.check()] on a solver
    state and [model.evaluate(e).as_decimal(5)]. *)
Variable z3_model : Type.
Variable z3_check : solver -> check_result z3_model.
Variable as_decimal : z3_model -> expr -> string.

Variable R_ij : list (list route).
Variable demands : list demand.

Definition optimizeObjective (g : MultiGraph) (f_R_vars : list (list pyval))
  (s : solver) : result (option z3_model * bool * solver) :=
  let s1 := push s in
  s2 <- addConstraints g R_ij f_R_vars demands s1 ;;
  objective <- getObjectiveExpr g R_ij f_R_vars ;;
  s3 <- minimize s2 objective ;;
  match z3_check s3 with
  | sat m => s4 <- pop s3 ;; Ok (Some m, true, s4)
  | _ => s4 <- pop s3 ;; Ok (None, false, s4)
  end.

(** The [while] loop of [setPricesHighToLow]; it yields the last model,
    the price that gave it and the solver. *)
Fixpoint price_loop (with_obj : bool) (g : MultiGraph)
  (f_R_vars : list (list pyval)) (fuel : nat) (p_current : Z)
  (model : option z3_model) (last_sat_price : option Q) (s : solver)
  : result (option z3_model * option Q * solver) :=
  match fuel with
  | O => Raise LoopBound
  | S fuel' =>
      if (P_MIN <=? p_current)%Z then
        graph_copy <-
          mutate_edges (fun data => Ok (fix_price (inject_Z p_current) data))
                       (edges_view g) g ;;
        let s1 := push s in
        s2 <- addConstraints graph_copy R_ij f_R_vars demands s1 ;;
        s3 <- (if with_obj
               then objective <- getObjectiveExpr graph_copy R_ij f_R_vars ;;
                    minimize s2 objective
               else Ok s2) ;;
        match z3_check s3 with
        | sat m =>
            s4 <- pop s3 ;;
            price_loop with_obj g f_R_vars fuel' (p_current - P_DELTA)%Z
                       (Some m) (Some (inject_Z p_current)) s4
        | _ =>
            s4 <- pop s3 ;;
            Ok (model, last_sat_price, s4)
        end
      else Ok (model, last_sat_price, s)
  end.

(** The write-back of the last successful price and of the flows. *)
Definition write_back (m : z3_model) (last_sat_price : Q) (data : dict)
  : dict :=
  let data1 := fix_price last_sat_price data in
  match dict_get data1 "f_e" with
  | Some (VExpr f_e) => dict_set data1 "f_e" (VStr (as_decimal m f_e))
  | _ => data1
  end.

Definition setPricesHighToLow (with_obj : bool) (g : MultiGraph)
  (f_R_vars : list (list pyval)) (s : solver)
  : result (option z3_model * bool * MultiGraph * list (list pyval) * solver) :=
  f_R_vars' <- precommit g demands 0 R_ij f_R_vars ;;
  '(model, last_sat_price, s') <-
    price_loop with_obj g f_R_vars' 25 P_MAX None None s ;;
  match model, last_sat_price with
  | Some m, Some p =>
      g' <- mutate_edges (fun data => Ok (write_back m p data))
                         (edges_view g) g ;;
      Ok (Some m, true, g', f_R_vars', s')
  | _, _ => Ok (model, false, g, f_R_vars', s')
  end.

Definition setPricesHighToLowWO := setPricesHighToLow true.

Definition set_capacity (c : Z) (data : dict) : result dict :=
  Ok (dict_set data "capacity" (VNum (inject_Z c))).

(** The six turns of [while(count<6)]; [n] counts the turns left. *)
Fixpoint bs_loop (n : nat) (C_MIN C_MAX : Z) (g : MultiGraph)
  (f_R_vars : list (list pyval)) (model : option z3_model) (isSolved : bool)
  (s : solver) : result (option z3_model * bool * MultiGraph * solver) :=
  match n with
  | O => Ok (model, isSolved, g, s)
  | S n' =>
      let c_current := ((C_MIN + C_MAX) / 2)%Z in
      g1 <- mutate_edges (set_capacity c_current) (edges_view g) g ;;
      '(model', isSolved', s') <- optimizeObjective g1 f_R_vars s ;;
      if isSolved'
      then bs_loop n' C_MIN c_current g1 f_R_vars model' isSolved' s'
      else bs_loop n' c_current C_MAX g1 f_R_vars model' isSolved' s'
  end.

Definition binarySearchCapacity (g : MultiGraph)
  (f_R_vars : list (list pyval)) (s : solver)
  : result (option z3_model * bool * MultiGraph * solver) :=
  bs_loop 6 500 5000 g f_R_vars None false s.

Definition C_Delta : Q := 50.

(** [data["capacity"] += C_Delta] *)
Definition bump_capacity (data : dict) : result dict :=
  c <- dict_getitem data "capacity" ;;
  c' <- py_add c (VNum C_Delta) ;;
  Ok (dict_set data "capacity" c').

(** The turns of [while(count<10)], left at the first solved one. *)
Fixpoint inc_loop (n : nat) (g : MultiGraph) (f_R_vars : list (list pyval))
  (model : option z3_model) (isSolved : bool) (s : solver)
  : result (option z3_model * bool * MultiGraph * solver) :=
  match n with
  | O => Ok (model, isSolved, g, s)
  | S n' =>
      g1 <- mutate_edges bump_capacity (edges_view g) g ;;
      '(model', isSolved', s') <- optimizeObjective g1 f_R_vars s ;;
      if isSolved'
      then Ok (model', isSolved', g1, s')
      else inc_loop n' g1 f_R_vars model' isSolved' s'
  end.

Definition increaseCapacity (g : MultiGraph) (f_R_vars : list (list pyval))
  (s : solver) : result (option z3_model * bool * MultiGraph * solver) :=
  inc_loop 10 g f_R_vars None false s.

(** [trySolvingFeasibility]: the chosen strategy, with the graph, the
    flow matrix and the solver it leaves. *)
Definition trySolvingFeasibility (strategy : Strategy) (g : MultiGraph)
  (f_R_vars : list (list pyval)) (s : solver)
  : result (option z3_model * bool * MultiGraph * list (list pyval) * solver) :=
  match strategy with
  | OPTIMIZE =>
      '(model, isSolved, s') <- optimizeObjective g f_R_vars s ;;
      Ok (model, isSolved, g, f_R_vars, s')
  | HIGHTOLOW => setPricesHighToLow false g f_R_vars s
  | HIGHTOLOW_WO => setPricesHighToLowWO g f_R_vars s
  | BSCAPACITY =>
      '(model, isSolved, g', s') <- binarySearchCapacity g f_R_vars s ;;
      Ok (model, isSolved, g', f_R_vars, s')
  | INCCAPACITY =>
      '(model, isSolved, g', s') <- increaseCapacity g f_R_vars s ;;
      Ok (model, isSolved, g', f_R_vars, s')
  end.

End Strategies.

(* ================================================================== *)
(** ** graphParser

    A JSON file is modelled after [json.load]: the three top-level
    entries, each possibly missing.  An edge-list line ["u v {...}"] is
    modelled by its two node tokens and the attribute dictionary that
    [ast.literal_eval] reads from the rest of the line; the text of the
    dictionary, and that Python prints a dictionary back in a form that
    reads as the same dictionary, are not represented.  Attribute names
    are taken to differ from the parameter names of [add_edge]. *)

Record edge_line : Type := mkLine {
  l_u : node;
  l_v : node;
  l_attrs : dict
}.

Record network : Type := mkNetwork {
  net_name : string;
  net_edge_list : option (list edge_line)
}.

Record json_data : Type := mkJson {
  j_k : option dict;
  j_networks : option (list network);
  j_demands : option (list demand)
}.

(** [nx.parse_edgelist(edge_list, create_using=nx.MultiGraph)] *)
Definition parse_edgelist (lines : list edge_line) : MultiGraph :=
  fold_left (fun g l => add_edge g (l_u l) (l_v l) None (l_attrs l))
            lines empty_graph.

(** [edge_list.extend(network.get("edge_list"))] over the networks. *)
Fixpoint collect_edge_list (networks : list network) (edge_list : list edge_line)
  : result (list edge_line) :=
  match networks with
  | [] => Ok edge_list
  | net :: rest =>
      match net_edge_list net with
      | None => Raise TypeError
      | Some lines => collect_edge_list rest (edge_list ++ lines)
      end
  end.

(** [if not edge_data.get("k"):
       edge_data["k"] = data.get("k")[edge_data.get("color")]] *)
Definition resolve_k (k_map : option dict) (data : dict) : result dict :=
  present <- match dict_get data "k" with
             | Some (VExpr _) => Raise Z3Exception   (* no truth value *)
             | Some v => Ok (truthy v)
             | None => Ok false
             end ;;
  if present then Ok data
  else
    match k_map with
    | None => Raise TypeError
    | Some table =>
        match dict_get data "color" with
        | Some (VStr color) =>
            match dict_get table color with
            | Some k => Ok (dict_set data "k" k)
            | None => Raise KeyError
            end
        | _ => Raise KeyError
        end
    end.

Definition parseGraph (f : json_data)
  : result (MultiGraph * option (list demand)) :=
  networks <- match j_networks f with
              | Some nets => Ok nets
              | None => Raise TypeError
              end ;;
  edge_list <- collect_edge_list networks [] ;;
  let graph := parse_edgelist edge_list in
  graph' <- mutate_edges (resolve_k (j_k f)) (edges_view graph) graph ;;
  Ok (graph', j_demands f).

(** [clean_attributes]: every z3 term becomes [None]. *)
Definition clean_attributes (data : dict) : dict :=
  map (fun kv => if is_expr (snd kv) then (fst kv, VNone) else kv) data.

(** [writeGraphToJSON]: the JSON document that is dumped.  The copy of
    the graph reports the same edges in the same order as the graph. *)
Definition writeGraphToJSON (g : MultiGraph) : result json_data :=
  clean_graph <- mutate_edges (fun data => Ok (clean_attributes data))
                              (edges_view g) g ;;
  let edge_list :=
    map (fun e : node * node * ekey * dict =>
           let '(u, v, _, data) := e in mkLine u v data)
        (edges_view clean_graph) in
  Ok (mkJson None (Some [mkNetwork "Combined" (Some edge_list)]) None).

(* ================================================================== *)
(** ** Meaning of terms and formulas under an assignment *)

Definition valuation : Type := symbol -> Q.

Fixpoint eval (rho : valuation) (e : expr) : Q :=
  match e with
  | EConst x _ => rho x
  | ENum q => q
  | EAdd a b => eval rho a + eval rho b
  | ESub a b => eval rho a - eval rho b
  | EMul a b => eval rho a * eval rho b
  | ESum l =>
      (fix sum_all (es : list expr) : Q :=
         match es with
         | [] => 0
         | x :: rest => eval rho x + sum_all rest
         end) l
  end%Q.

Fixpoint holds (rho : valuation) (f : formula) : Prop :=
  match f with
  | FBool b => b = true
  | FEq a b => (eval rho a == eval rho b)%Q
  | FLe a b => (eval rho a <= eval rho b)%Q
  | FGe a b => (eval rho b <= eval rho a)%Q
  | FAnd fs =>
      (fix all_hold (l : list formula) : Prop :=
         match l with
         | [] => True
         | x :: rest => holds rho x /\ all_hold rest
         end) fs
  | FImplies a b => holds rho a -> holds rho b
  end.

(** The value of a number or term. *)
Definition value_of (rho : valuation) (v : pyval) : Q :=
  match v with
  | VNum q => q
  | VExpr e => eval rho e
  | _ => 0%Q
  end.

(* ================================================================== *)
(** ** Vocabulary of the statements *)

(** Consecutive nodes of the path are adjacent. *)
Fixpoint chain (g : MultiGraph) (p : list node) : Prop :=
  match p with
  | [] => True
  | u :: rest =>
      match rest with
      | [] => True
      | v :: _ => keydict g u v <> [] /\ chain g rest
      end
  end.

(** A simple path of the graph from [s] to [t], as a node sequence. *)
Definition simple_path (g : MultiGraph) (s t : node) (p : list node) : Prop :=
  chain g p /\ NoDup p /\ hd_error p = Some s /\ last p s = t /\ p <> [].

(** Some simple path from [s] to [t] has at most [n] nodes. *)
Definition reachable_within (n : nat) (g : MultiGraph) (s t : node) : Prop :=
  exists p, simple_path g s t p /\ (length p <= n)%nat.

(** The node paths the enumerator works from for a demand: none when an
    endpoint is missing, the result of the search otherwise. *)
Definition found_paths (max_hops : nat) (g : MultiGraph) (dem : demand)
  : list (list node) :=
  if negb (has_node g (dem_s dem)) || negb (has_node g (dem_t dem)) then []
  else if String.eqb (dem_s dem) (dem_t dem) then [[dem_s dem]]
  else paths_from g (dem_t dem) max_hops [] (dem_s dem).

(** The consecutive node pairs of a path. *)
Fixpoint hops (p : list node) : list (node * node) :=
  match p with
  | [] => []
  | u :: rest =>
      match rest with
      | [] => []
      | v :: _ => (u, v) :: hops rest
      end
  end.

(** The edge-level routes of a node path in the words of the
    specification: the Cartesian product, over the consecutive node
    pairs, of the parallel edges between the two nodes. *)
Definition routes_along (g : MultiGraph) (p : list node) : list route :=
  product (map (fun uv : node * node =>
                  map (fun kd => (fst uv, snd uv, fst kd))
                      (keydict g (fst uv) (snd uv)))
               (hops p)).

(** The graph the enumerator has reached when it turns to demand [i]. *)
Definition graph_before (set_iter : list (list node) -> list (list node))
  (max_hops : nat) (g : MultiGraph) (demands : list demand) (i : nat)
  : MultiGraph :=
  match getAllPossibleRoutes set_iter max_hops g (firstn i demands) with
  | Ok (_, g') => g'
  | Raise _ => g
  end.

(** The synthetic personal route of a demand. *)
Definition personal_route (dem : demand) : route :=
  [(dem_s dem, dem_t dem, default_key (dem_s dem) (dem_t dem))].

(** The value of an attribute of a route edge (0 when the lookup fails). *)
Definition attr_value (rho : valuation) (g : MultiGraph) (e : edge_id)
  (name : string) : Q :=
  match edge_attr g e name with
  | Ok v => value_of rho v
  | Raise _ => 0%Q
  end.

(** Route cost in the words of the specification: the sum over the
    edges of the route of [k * f_e + price]. *)
Definition route_cost_value (rho : valuation) (g : MultiGraph) (r : route) : Q :=
  fold_right (fun e acc =>
                (attr_value rho g e "k" * attr_value rho g e "f_e"
                 + attr_value rho g e "price" + acc)%Q)
             0%Q r.

(** Route price in the words of the specification: the sum of the edge
    prices. *)
Definition route_price_value (rho : valuation) (g : MultiGraph) (r : route) : Q :=
  fold_right (fun e acc => (attr_value rho g e "price" + acc)%Q) 0%Q r.

Definition sum_values (rho : valuation) (l : list pyval) : Q :=
  fold_right (fun x acc => (value_of rho x + acc)%Q) 0%Q l.

(** [fs] is the pair of Wardrop implications of a route with flow [f_R]
    for the demand whose minimum-cost variable is [T]:
    [f_R >= 1 => T - 5 <= cost_R <= T + 5] and
    [f_R <= 1 => price_R >= T - 5]. *)
Definition wardrop_pair (g : MultiGraph) (T : symbol) (f_R : pyval)
  (r : route) (fs : list formula) : Prop :=
  exists cost price used below above unused dominated,
    compute_route_cost g r = Ok cost
    /\ compute_route_price g r = Ok price
    /\ fs = [FImplies used (FAnd [below; above]);
             FImplies unused (FAnd [dominated])]
    /\ forall rho,
         (holds rho used <-> 1 <= value_of rho f_R)%Q
         /\ (holds rho below <-> value_of rho cost <= rho T + 5)%Q
         /\ (holds rho above <-> rho T - 5 <= value_of rho cost)%Q
         /\ (holds rho unused <-> value_of rho f_R <= 1)%Q
         /\ (holds rho dominated <-> rho T - 5 <= value_of rho price)%Q
         /\ (value_of rho cost == route_cost_value rho g r)%Q
         /\ (value_of rho price == route_price_value rho g r)%Q.

(** [block] is what the builder asserts for demand [i]: the conservation
    equation, then one Wardrop pair per route, in route order. *)
Definition demand_block (g : MultiGraph) (R_ij : list (list route))
  (f_R_vars : list (list pyval)) (i : nat) (dem : demand)
  (block : list formula) : Prop :=
  exists flows routes conservation pairs,
    nth_error f_R_vars i = Some flows
    /\ nth_error R_ij i = Some routes
    /\ block = conservation :: concat pairs
    /\ (forall rho, holds rho conservation
                    <-> (sum_values rho flows == dem_d dem)%Q)
    /\ length pairs = length routes
    /\ forall j r, nth_error routes j = Some r ->
         exists f_R fs,
           nth_error flows j = Some f_R
           /\ nth_error pairs j = Some fs
           /\ wardrop_pair g (SymStr ("T_" ++ string_of_nat i)%string) f_R r fs.

(** The flow entries of the routes that contain the edge [(u, v, key)],
    in the words of the specification: over the demands in order and
    the routes of each demand in order, the entry of every route with a
    triple equal to the edge's. *)
Definition flows_on_edge (u v : node) (key : ekey) (R_ij : list (list route))
  (f_R_vars : list (list pyval)) : list pyval :=
  concat (map (fun rr : list route * list pyval =>
                 map snd (filter (fun rf => route_uses u v key (fst rf))
                                 (combine (fst rr) (snd rr))))
              (combine R_ij f_R_vars)).

(** The solver with further assertions in its current scope. *)
Definition with_assertions (s : solver) (new : list formula) : solver :=
  mkSolver (can_minimize s) (assertions s ++ new) (objectives s) (scopes s).

(** An endpoint of the demand is not a node of the graph. *)
Definition endpoint_missing (g : MultiGraph) (dem : demand) : bool :=
  negb (has_node g (dem_s dem)) || negb (has_node g (dem_t dem)).


(** Example networks.  [two_parallel]: nodes A and C joined by a red and
    a Bus edge.  [diamond]: A-B-D and A-C-D, every hop doubled. *)
Definition two_parallel : MultiGraph :=
  parse_edgelist
    [mkLine "A" "C" [("color", VStr "red"); ("capacity", VNum 100);
                     ("price", VNum 5); ("k", VNum 1)];
     mkLine "A" "C" [("color", VStr "Bus"); ("capacity", VNum 500);
                     ("price", VNum 5); ("k", VNum 2)]].

Definition diamond : MultiGraph :=
  parse_edgelist
    [mkLine "A" "B" [("color", VStr "red")];
     mkLine "A" "B" [("color", VStr "Bus")];
     mkLine "B" "D" [("color", VStr "red")];
     mkLine "B" "D" [("color", VStr "Bus")];
     mkLine "A" "C" [("color", VStr "red")];
     mkLine "A" "C" [("color", VStr "Bus")];
     mkLine "C" "D" [("color", VStr "red")];
     mkLine "C" "D" [("color", VStr "Bus")]].

(** The first scenario of the specification: the two parallel edges, the
    demand A -> C of 120, its two routes, and the variables the
    allocator creates for them. *)
Definition demo_demands : list demand := [mkDemand "A" "C" 120].

Definition demo_routes : list (list route) :=
  [[[("A", "C", KInt 0)]; [("A", "C", KInt 1)]]].

Definition demo_graph : MultiGraph :=
  fst (addVarsForSolver two_parallel demo_routes).

Definition demo_flows : list (list pyval) :=
  snd (addVarsForSolver two_parallel demo_routes).

Definition fresh_optimize : solver := mkSolver true [] [] [].

(** One edge A-B that carries no capacity, with the route of the
    demand A -> B and the allocated variables. *)
Definition uncapped_routes : list (list route) := [[[("A", "B", KInt 0)]]].

Definition uncapped_graph : MultiGraph :=
  fst (addVarsForSolver
         (parse_edgelist
            [mkLine "A" "B" [("color", VStr "red"); ("price", VNum 5);
                             ("k", VNum 1)]])
         uncapped_routes).

Definition uncapped_flows : list (list pyval) :=
  snd (addVarsForSolver empty_graph uncapped_routes).

(** *** Inputs on which the strategies run to completion *)

(** A number or a z3 term. *)
Definition arith (v : pyval) : bool :=
  match v with
  | VNum _ | VExpr _ => true
  | VNone | VStr _ => false
  end.

(** The edge carries a flow variable, a numeric [k], a price that is a
    number or a term, and a capacity that, when present, is one too. *)
Definition edge_ready (data : dict) : bool :=
  match dict_get data "f_e", dict_get data "k", dict_get data "price" with
  | Some (VExpr _), Some (VNum _), Some price =>
      arith price
      && match dict_get data "capacity" with
         | Some c => arith c
         | None => true
         end
  | _, _, _ => false
  end.

Definition graph_ready (g : MultiGraph) : bool :=
  forallb (fun e => edge_ready (e_data e)) (g_edges g).

(** Every edge carries a capacity. *)
Definition edge_capped (data : dict) : bool :=
  match dict_get data "capacity" with
  | Some c => arith c
  | None => false
  end.

Definition graph_capped (g : MultiGraph) : bool :=
  forallb (fun e => edge_capped (e_data e)) (g_edges g).

(** The route edge names an edge of the graph. *)
Definition edge_known (g : MultiGraph) (e : edge_id) : bool :=
  existsb (fun x => joins (fst (fst e)) (snd (fst e)) x
                    && ekey_eqb (e_key x) (snd e))
          (g_edges g).

Definition is_nil {A : Type} (l : list A) : bool :=
  match l with [] => true | _ :: _ => false end.

(** Every route has an edge and all its edges are edges of the graph. *)
Definition routes_ready (g : MultiGraph) (R_ij : list (list route)) : bool :=
  forallb (forallb (fun r => negb (is_nil r) && forallb (edge_known g) r)) R_ij.


(** The shape of the flow matrix, as the builders use it. *)
Definition flows_fit (R_ij : list (list route)) (f_R_vars : list (list pyval))
  : Prop :=
  forall n routes, nth_error R_ij n = Some routes ->
    exists row, nth_error f_R_vars n = Some row
                /\ (length row = length routes)%nat
                /\ forallb arith row = true.








(** *** Vocabulary of the round trip *)

(** The graph with [h] applied to the data of every edge. *)
Definition map_data (h : dict -> dict) (g : MultiGraph) : MultiGraph :=
  mkGraph (g_nodes g)
          (map (fun e => mkEdge (e_u e) (e_v e) (e_key e) (h (e_data e)))
               (g_edges g)).

(** The key dictionary networkx builds for successive parallel edges:
    keys 0, 1, 2, ... in order. *)
Definition numbered (ds : list dict) : list (ekey * dict) :=
  combine (map KInt (seq 0 (length ds))) ds.

(** The line joins [a] and [b], in either orientation. *)
Definition line_joins (a b : node) (l : edge_line) : bool :=
  (String.eqb (l_u l) a && String.eqb (l_v l) b)
  || (String.eqb (l_u l) b && String.eqb (l_v l) a).

(** The edge has a [k] that is truthy and not a z3 term. *)
Definition k_resolved (data : dict) : bool :=
  match dict_get data "k" with
  | Some v => truthy v && negb (is_expr v)
  | None => false
  end.

(** The keys of a dictionary are pairwise distinct. *)
Definition keys_distinct (data : dict) : Prop := NoDup (map fst data).

(** A graph as [parse_edgelist] builds it and data rewriting keeps it:
    distinct nodes that include all edge endpoints, parallel edges keyed
    0, 1, 2, ... in order, dictionaries with distinct keys. *)
Record parsed_shape (g : MultiGraph) : Prop := mkShape {
  shape_nodes : NoDup (g_nodes g);
  shape_ends : forall e, In e (g_edges g) ->
                 In (e_u e) (g_nodes g) /\ In (e_v e) (g_nodes g);
  shape_keys : forall a b, keydict g a b = numbered (map snd (keydict g a b));
  shape_data : forall e, In e (g_edges g) -> keys_distinct (e_data e)
}.

(** The reported edge joins [a] and [b], in either orientation. *)
Definition entry_joins (a b : node) (x : node * node * ekey * dict) : bool :=
  let '(u, v, _, _) := x in
  (String.eqb u a && String.eqb v b) || (String.eqb u b && String.eqb v a).

Definition entry_item (x : node * node * ekey * dict) : ekey * dict :=
  let '(_, _, k, d) := x in (k, d).

(** The result of [f] on a dictionary, the dictionary itself if [f]
    raises. *)
Definition result_or_self (f : dict -> result dict) (d : dict) : dict :=
  match f d with
  | Ok d' => d'
  | Raise _ => d
  end.

(** What a loop over reported edges does to one edge of the graph. *)
Definition apply_all (h : dict -> dict) (view : list (node * node * ekey * dict))
  (e : edge) : edge :=
  fold_left (fun acc x =>
               let '(u, v, k, d) := x in update_edge u v k (fun _ => h d) acc)
            view e.


(** The example file of the tests. *)
Definition example_file : json_data :=
  mkJson (Some [("red", VNum 1); ("Bus", VNum 2)])
         (Some [mkNetwork "n"
                  (Some [mkLine "A" "C" [("color", VStr "red");
                                         ("capacity", VNum 100);
                                         ("price", VNum 5)];
                         mkLine "A" "C" [("color", VStr "Bus");
                                         ("capacity", VNum 500);
                                         ("price", VNum 5)]])])
         (Some [mkDemand "A" "C" 120]).

(* ================================================================== *)
(** ** solverUtils.addSimpleC3C4

    The fallback builder: the conservation equation of every demand
    whose endpoints are nodes, and for every route the cost window
    around [T_i], asserted outright.  No flow variable of a route is
    read. *)





(* ================================================================== *)
(** ** solverUtils.UpdateGraphAndGetSolution *)

Section Solution.

(** The models z3 returns and [model.evaluate(e).as_decimal(5)]. *)
Variable z3_model : Type.
Variable as_decimal : z3_model -> expr -> string.

(** [model.evaluate(x).as_decimal(5) if is_expr(x) else x] *)
Definition solved (m : z3_model) (x : pyval) : pyval :=
  match x with
  | VExpr e => VStr (as_decimal m e)
  | _ => x
  end.

(** The body of the loop over the edges: [f_e], then [price]. *)
Definition store_solved (m : z3_model) (data : dict) : result dict :=
  f_e_var <- dict_getitem data "f_e" ;;
  let data1 := if is_expr f_e_var
               then dict_set data "f_e" (solved m f_e_var)
               else data in
  price_var <- dict_getitem data1 "price" ;;
  Ok (if is_expr price_var
      then dict_set data1 "price" (solved m price_var)
      else data1).

(** The solution dictionary (its one entry, ["f_R_vals"]) and the graph
    the call leaves. *)
Definition UpdateGraphAndGetSolution (g : MultiGraph) (m : z3_model)
  (f_R_vars : list (list pyval))
  : result (list (string * list (list pyval)) * MultiGraph) :=
  let f_R_vals := map (map (solved m)) f_R_vars in
  let solution := [("f_R_vals", f_R_vals)] in
  g' <- mutate_edges (store_solved m) (edges_view g) g ;;
  Ok (solution, g').

End Solution.

(* ================================================================== *)
(** ** graphParser.parseRoutes

    The file of an extension: one top-level ["edge_list"]. *)

Record routes_file : Type := mkRoutes {
  r_edge_list : option (list edge_line)
}.

Definition parseRoutes (f : routes_file) : result MultiGraph :=
  match r_edge_list f with
  | Some lines => Ok (parse_edgelist lines)
  | None => Raise TypeError    (* iteration over [None] *)
  end.

(* ================================================================== *)
(** ** The graphs networkx keeps

    What [add_edge] maintains of a [MultiGraph]: a node is listed once,
    the endpoints of every edge are nodes, and two edges between the
    same two nodes have different keys. *)

Fixpoint distinct (l : list node) : bool :=
  match l with
  | [] => true
  | x :: rest => negb (mem x rest) && distinct rest
  end.

Fixpoint keys_unique (edges : list edge) : bool :=
  match edges with
  | [] => true
  | e :: rest =>
      negb (existsb (fun x => joins (e_u e) (e_v e) x
                              && ekey_eqb (e_key x) (e_key e)) rest)
      && keys_unique rest
  end.

Definition well_keyed (g : MultiGraph) : bool :=
  distinct (g_nodes g)
  && forallb (fun e => has_node g (e_u e) && has_node g (e_v e)) (g_edges g)
  && keys_unique (g_edges g).


(** What the first loop of [addVarsForSolver] does to one edge of the
    graph, over the reported edges in turn. *)
Definition alloc_all (view : list (node * node * ekey * dict)) (e : edge)
  : edge :=
  fold_left (fun acc x =>
               let '(u, v, k, d) := x in
               update_edge u v k (fun _ => alloc_edge u v d) acc)
            view e.

(** The reported entry names the edge [e]. *)
Definition names_edge (e : edge) (x : node * node * ekey * dict) : bool :=
  let '(u, v, k, _) := x in joins u v e && ekey_eqb (e_key e) k.


(** What the assertions made for the reported edge [(u, v, key, data)]
    say of an assignment [rho]: the edge flow is not negative and not
    above the capacity the edge carries; it is zero when no route names
    the edge and the sum of the flows of the routes that name it when
    one of these flows is a z3 term; a price that is a z3 term is at
    least 5. *)
Definition edge_bounded (rho : valuation) (R_ij : list (list route))
  (f_R_vars : list (list pyval)) (x : node * node * ekey * dict) : Prop :=
  let '(u, v, key, data) := x in
  exists f_e,
    dict_get data "f_e" = Some f_e
    /\ (0 <= value_of rho f_e)%Q
    /\ (forall c, dict_get data "capacity" = Some c ->
          (value_of rho f_e <= value_of rho c)%Q)
    /\ (flows_on_edge u v key R_ij f_R_vars = [] ->
          (value_of rho f_e == 0)%Q)
    /\ (existsb is_expr (flows_on_edge u v key R_ij f_R_vars) = true ->
          (value_of rho f_e
           == sum_values rho (flows_on_edge u v key R_ij f_R_vars))%Q)
    /\ (forall p, dict_get data "price" = Some (VExpr p) ->
          (5 <= eval rho p)%Q).

(** The objective in the words of the docstring, the total system cost:
    the sum over the demands and their routes of flow times route
    cost. *)
Definition total_cost (rho : valuation) (g : MultiGraph)
  (R_ij : list (list route)) (f_R_vars : list (list pyval)) : Q :=
  fold_right Qplus 0%Q
    (concat (map (fun rr : list route * list pyval =>
                    map (fun rf : route * pyval =>
                           (value_of rho (snd rf)
                            * route_cost_value rho g (fst rf))%Q)
                        (combine (fst rr) (snd rr)))
                 (combine R_ij f_R_vars))).


(** The solver state that one turn of the [while] loop of
    [setPricesHighToLow] hands to [check()] when the price on trial is
    [p]: the constraints over the copy of the graph whose symbolic
    prices are set to [p], within a fresh scope, and the objective when
    [with_obj] is set. *)
Definition price_probe (R_ij : list (list route)) (demands : list demand)
  (with_obj : bool) (g : MultiGraph) (f_R_vars : list (list pyval))
  (s : solver) (p : Z) : result solver :=
  graph_copy <-
    mutate_edges (fun data => Ok (fix_price (inject_Z p) data))
                 (edges_view g) g ;;
  s2 <- addConstraints graph_copy R_ij f_R_vars demands (push s) ;;
  if with_obj
  then objective <- getObjectiveExpr graph_copy R_ij f_R_vars ;;
       minimize s2 objective
  else Ok s2.



(* ================================================================== *)
(** * Properties *)

Local Open Scope nat_scope.

(** ** Lists, membership, the error monad *)

Lemma mem_In (n : node) (l : list node) : mem n l = true <-> In n l.
Proof.
  unfold mem. rewrite existsb_exists. split.
  - intros [x [Hx Heq]]. apply String.eqb_eq in Heq. now subst.
  - intros H. exists n. split; [assumption | apply String.eqb_refl].
Qed.

Lemma mem_not_In (n : node) (l : list node) : mem n l = false <-> ~ In n l.
Proof.
  rewrite <- mem_In. destruct (mem n l); split; congruence.
Qed.

Lemma bind_Ok {A B : Type} (m : result A) (f : A -> result B) (b : B) :
  bind m f = Ok b -> exists a, m = Ok a /\ f a = Ok b.
Proof.
  destruct m as [a | e]; simpl; intros H; [eauto | discriminate].
Qed.

Tactic Notation "inv_bind" hyp(H) "as" ident(a) ident(Ha) :=
  apply bind_Ok in H; destruct H as [a [Ha H]].

Lemma ekey_eqb_refl (k : ekey) : ekey_eqb k k = true.
Proof. destruct k; simpl; [apply Nat.eqb_refl | apply String.eqb_refl]. Qed.

Lemma ekey_eqb_eq (a b : ekey) : ekey_eqb a b = true <-> a = b.
Proof.
  destruct a, b; simpl; split; intros H; try discriminate.
  - apply Nat.eqb_eq in H. now subst.
  - inversion H. apply Nat.eqb_refl.
  - apply String.eqb_eq in H. now subst.
  - inversion H. apply String.eqb_refl.
Qed.

Lemma product_nonempty {A : Type} (ls : list (list A)) :
  Forall (fun l => l <> []) ls -> product ls <> [].
Proof.
  induction 1 as [| l rest Hl _ IH]; simpl; [discriminate |].
  destruct l as [| x l']; [congruence |]. simpl.
  destruct (product rest) as [| c cs]; [congruence | discriminate].
Qed.

Lemma firstn_nonempty {A : Type} (n : nat) (l : list A) :
  l <> [] -> firstn (S n) l <> [].
Proof. destruct l; simpl; [congruence | discriminate]. Qed.

(** ** Node paths found by the search follow edges of the graph *)

Lemma out_edges_adjacent (g : MultiGraph) (u nbr : node) (k : ekey) :
  In (nbr, k) (out_edges g u) -> keydict g u nbr <> [].
Proof.
  unfold out_edges. rewrite in_flat_map. intros [n [_ Hin]].
  rewrite in_map_iff in Hin. destruct Hin as [kd [Heq Hkd]].
  inversion Heq; subst. intros Hnil. rewrite Hnil in Hkd. contradiction.
Qed.

Lemma paths_from_shape (g : MultiGraph) (tgt : node) (budget : nat) :
  forall visited u p,
    In p (paths_from g tgt budget visited u) ->
    chain g p /\ exists q, p = u :: q /\ q <> [].
Proof.
  induction budget as [| b IH]; intros visited u p Hin;
    cbn [paths_from] in Hin; [contradiction |].
  rewrite in_flat_map in Hin. destruct Hin as [[nbr k] [Hout Hin]].
  cbn [fst] in Hin. pose proof (out_edges_adjacent _ _ _ _ Hout) as Hadj.
  destruct (mem nbr (u :: visited)); [contradiction |].
  destruct (String.eqb nbr tgt).
  - destruct Hin as [<- | []]. split.
    + simpl. tauto.
    + exists [nbr]. split; [reflexivity | discriminate].
  - rewrite in_map_iff in Hin. destruct Hin as [q [<- Hq]].
    apply IH in Hq. destruct Hq as [Hchain [q' [-> Hne]]]. split.
    + simpl. split; [assumption |]. exact Hchain.
    + exists (nbr :: q'). split; [reflexivity | discriminate].
Qed.

Lemma all_simple_paths_chain (g : MultiGraph) (s t : node) (cutoff : nat)
  (paths : list (list node)) :
  all_simple_paths g s t cutoff = Ok paths -> Forall (chain g) paths.
Proof.
  unfold all_simple_paths.
  destruct (negb (has_node g s)); [discriminate |].
  destruct (negb (has_node g t)); [discriminate |].
  destruct (String.eqb s t); intros H; inversion H; subst.
  - repeat constructor.
  - apply Forall_forall. intros p Hp.
    now apply paths_from_shape in Hp.
Qed.

Lemma edge_options_cons (g : MultiGraph) (u v : node) (rest : list node) :
  edge_options g (u :: v :: rest)
  = (parallel_edges <- adj_getitem g u v ;;
     temp_list <- edge_options g (v :: rest) ;;
     Ok (map (fun kd => (u, v, fst kd)) parallel_edges :: temp_list)).
Proof. reflexivity. Qed.

Lemma edge_options_chain (g : MultiGraph) (p : list node) :
  chain g p ->
  exists opts, edge_options g p = Ok opts /\ Forall (fun l => l <> []) opts.
Proof.
  induction p as [| u rest IH]; intros Hc.
  - exists []. split; [reflexivity | constructor].
  - destruct rest as [| v rest'].
    + exists []. split; [reflexivity | constructor].
    + destruct Hc as [Hadj Hc]. destruct (IH Hc) as [opts [Ho Hne]].
      rewrite edge_options_cons. unfold adj_getitem.
      destruct (keydict g u v) as [| kd kds] eqn:Hkd; [congruence |].
      cbn [bind]. rewrite Ho. cbn [bind].
      eexists. split; [reflexivity |].
      constructor; [simpl; discriminate | assumption].
Qed.

Lemma expand_paths_chain (g : MultiGraph) (paths : list (list node)) :
  Forall (chain g) paths ->
  exists routes, expand_paths g paths = Ok routes
                 /\ (paths <> [] -> routes <> []).
Proof.
  induction 1 as [| p rest Hp _ IH].
  - exists []. split; [reflexivity | congruence].
  - destruct (edge_options_chain g p Hp) as [opts [Ho Hne]].
    destruct IH as [more [Hm _]].
    cbn [expand_paths]. rewrite Ho. cbn [bind]. rewrite Hm. cbn [bind].
    eexists. split; [reflexivity |]. intros _.
    pose proof (product_nonempty opts Hne) as Hprod.
    destruct (product opts); [congruence | discriminate].
Qed.

(** ** The shortest node paths *)

Lemma fold_min_le (rest : list (list node)) :
  forall m, fold_left (fun m q => Nat.min m (length q)) rest m <= m.
Proof.
  induction rest as [| q rest IH]; intros m; simpl; [lia |].
  specialize (IH (Nat.min m (length q))). lia.
Qed.

Lemma fold_min_lower (rest : list (list node)) :
  forall m q, In q rest ->
    fold_left (fun m q => Nat.min m (length q)) rest m <= length q.
Proof.
  induction rest as [| x rest IH]; intros m q Hin; simpl; [contradiction |].
  destruct Hin as [<- | Hin].
  - pose proof (fold_min_le rest (Nat.min m (length x))). lia.
  - now apply IH.
Qed.

Lemma fold_min_attained (rest : list (list node)) :
  forall m,
    fold_left (fun m q => Nat.min m (length q)) rest m = m
    \/ exists q, In q rest
         /\ length q = fold_left (fun m q => Nat.min m (length q)) rest m.
Proof.
  induction rest as [| x rest IH]; intros m; simpl; [now left |].
  destruct (IH (Nat.min m (length x))) as [Heq | [q [Hin Hq]]].
  - rewrite Heq. destruct (Nat.min_spec m (length x)) as [[_ ->] | [_ ->]].
    + now left.
    + right. exists x. split; [now left | reflexivity].
  - right. exists q. split; [now right | assumption].
Qed.

Lemma min_length_lower (paths : list (list node)) (p : list node) :
  In p paths -> min_length paths <= length p.
Proof.
  destruct paths as [| x rest]; [contradiction |]. simpl.
  intros [<- | Hin]; [apply fold_min_le | now apply fold_min_lower].
Qed.

Lemma min_length_attained (paths : list (list node)) :
  paths <> [] -> exists p, In p paths /\ length p = min_length paths.
Proof.
  destruct paths as [| x rest]; [congruence |]. intros _. simpl.
  destruct (fold_min_attained rest (length x)) as [Heq | [q [Hin Hq]]].
  - exists x. split; [now left | now rewrite Heq].
  - exists q. split; [now right | assumption].
Qed.

Lemma shortest_nonempty (paths : list (list node)) :
  paths <> [] ->
  filter (fun p => Nat.eqb (length p) (min_length paths)) paths <> [].
Proof.
  intros Hne. destruct (min_length_attained paths Hne) as [p [Hin Hlen]].
  intros Hnil.
  assert (Hp : In p (filter (fun p => Nat.eqb (length p) (min_length paths))
                            paths)).
  { apply filter_In. split; [assumption | now apply Nat.eqb_eq]. }
  rewrite Hnil in Hp. contradiction.
Qed.

(** ** The two iteration orders are set orders *)

Lemma uniq_paths_In (l : list (list node)) :
  forall seen p, In p (uniq_paths seen l) <-> In p l /\ ~ In p seen.
Proof.
  induction l as [| x rest IH]; intros seen p; simpl; [tauto |].
  destruct (in_dec path_eq_dec x seen) as [Hs | Hs].
  - rewrite IH. split.
    + intros [H1 H2]. tauto.
    + intros [[<- | H1] H2]; [contradiction | tauto].
  - simpl. rewrite IH. simpl. split.
    + intros [<- | [H1 H2]]; [tauto |]. split; [tauto |]. tauto.
    + intros [[<- | H1] H2]; [now left |].
      destruct (path_eq_dec x p) as [-> | Hne]; [now left |]. right.
      split; [assumption |]. intros [H | H]; [congruence | contradiction].
Qed.

Lemma uniq_paths_NoDup (l : list (list node)) :
  forall seen, NoDup (uniq_paths seen l).
Proof.
  induction l as [| x rest IH]; intros seen; simpl; [constructor |].
  destruct (in_dec path_eq_dec x seen); [apply IH |].
  constructor; [| apply IH].
  rewrite uniq_paths_In. simpl. tauto.
Qed.

Lemma set_iter_first_order : set_order set_iter_first.
Proof.
  intros l. unfold set_iter_first. split; [apply uniq_paths_NoDup |].
  intros p. rewrite uniq_paths_In. simpl. tauto.
Qed.


(** ** The search is complete for simple paths *)

Lemma uniq_from_In (l : list node) :
  forall seen x, In x l -> ~ In x seen -> In x (uniq_from seen l).
Proof.
  induction l as [| y rest IH]; intros seen x Hin Hs; simpl; [contradiction |].
  destruct (mem y seen) eqn:Hm.
  - apply mem_In in Hm. destruct Hin as [-> | Hin]; [contradiction |].
    now apply IH.
  - destruct Hin as [-> | Hin]; [now left |].
    destruct (string_dec y x) as [-> | Hne]; [now left |]. right.
    apply IH; [assumption |]. intros [H | H]; [congruence | contradiction].
Qed.

Lemma joins_other_end (u v : node) (e : edge) :
  joins u v e = true -> In v (other_end u e).
Proof.
  unfold joins, other_end. intros H.
  apply orb_true_iff in H. destruct H as [H | H];
    apply andb_true_iff in H; destruct H as [H1 H2];
    apply String.eqb_eq in H1; apply String.eqb_eq in H2.
  - rewrite H1, String.eqb_refl. left. assumption.
  - destruct (String.eqb (e_u e) u) eqn:Hu.
    + apply String.eqb_eq in Hu. left. congruence.
    + rewrite H2, String.eqb_refl. left. assumption.
Qed.

Lemma adjacent_neighbor (g : MultiGraph) (u v : node) :
  keydict g u v <> [] -> In v (neighbors g u).
Proof.
  unfold keydict, neighbors. intros Hne.
  destruct (filter (joins u v) (g_edges g)) as [| e es] eqn:Hf;
    [simpl in Hne; congruence |].
  assert (He : In e (filter (joins u v) (g_edges g))) by (rewrite Hf; now left).
  apply filter_In in He. destruct He as [Hin Hj].
  apply uniq_from_In; [| intros []].
  apply in_flat_map. exists e. split; [assumption |].
  now apply joins_other_end.
Qed.

Lemma adjacent_out_edge (g : MultiGraph) (u v : node) :
  keydict g u v <> [] -> exists k, In (v, k) (out_edges g u).
Proof.
  intros Hne. pose proof (adjacent_neighbor g u v Hne) as Hn.
  destruct (keydict g u v) as [| kd kds] eqn:Hkd; [congruence |].
  exists (fst kd). unfold out_edges. apply in_flat_map.
  exists v. split; [assumption |]. rewrite Hkd. now left.
Qed.

Lemma last_default {A : Type} (l : list A) :
  forall x d d', last (x :: l) d = last (x :: l) d'.
Proof.
  induction l as [| y r IH]; intros x d d'; [reflexivity |].
  change (last (y :: r) d = last (y :: r) d'). apply IH.
Qed.

Lemma paths_from_complete (g : MultiGraph) (tgt : node) (budget : nat) :
  forall visited u q,
    u <> tgt -> q <> [] ->
    chain g (u :: q) -> NoDup (u :: q) -> last q u = tgt ->
    (forall x, In x (u :: q) -> ~ In x visited) ->
    length q <= budget ->
    In (u :: q) (paths_from g tgt budget visited u).
Proof.
  induction budget as [| b IH]; intros visited u q Hut Hq Hc Hnd Hlast Hvis Hlen.
  - destruct q; [congruence | simpl in Hlen; lia].
  - destruct q as [| v q']; [congruence |].
    destruct Hc as [Hadj Hc].
    destruct (adjacent_out_edge g u v Hadj) as [k Hk].
    cbn [paths_from]. apply in_flat_map. exists (v, k).
    split; [assumption |]. cbn [fst].
    assert (Hv : mem v (u :: visited) = false).
    { apply mem_not_In. intros [Huv | Hin].
      - subst. inversion Hnd; subst. apply H1. now left.
      - apply (Hvis v); [right; now left | assumption]. }
    rewrite Hv.
    destruct (String.eqb v tgt) eqn:Hvt.
    + apply String.eqb_eq in Hvt. subst v.
      destruct q' as [| w q'']; [now left |]. exfalso.
      inversion Hnd as [| ? ? _ Hnd']; subst.
      inversion Hnd' as [| ? ? Hnotin _]; subst.
      apply Hnotin. rewrite <- Hlast at 1.
      change (last (tgt :: w :: q'') u) with (last (w :: q'') u).
      clear. generalize w. induction q'' as [| z r IHr]; intros w0.
      * now left.
      * right. apply (IHr z).
    + apply String.eqb_neq in Hvt. apply in_map.
      destruct q' as [| w q''].
      * simpl in Hlast. congruence.
      * apply IH.
        -- assumption.
        -- discriminate.
        -- exact Hc.
        -- now inversion Hnd.
        -- rewrite (last_default q'' w v u). exact Hlast.
        -- intros x Hx [Hxu | Hxv].
           ++ subst x. inversion Hnd; subst. apply H1. exact Hx.
           ++ apply (Hvis x); [now right | assumption].
        -- simpl in Hlen |- *. lia.
Qed.

Lemma paths_from_sound (g : MultiGraph) (tgt : node) (budget : nat) :
  forall visited u p,
    In p (paths_from g tgt budget visited u) ->
    exists q, p = u :: q /\ q <> [] /\ chain g p /\ NoDup p
              /\ last q u = tgt
              /\ (forall x, In x q -> ~ In x (u :: visited))
              /\ length q <= budget.
Proof.
  induction budget as [| b IH]; intros visited u p Hin;
    cbn [paths_from] in Hin; [contradiction |].
  rewrite in_flat_map in Hin. destruct Hin as [[nbr k] [Hout Hin]].
  cbn [fst] in Hin. pose proof (out_edges_adjacent _ _ _ _ Hout) as Hadj.
  destruct (mem nbr (u :: visited)) eqn:Hmem; [contradiction |].
  apply mem_not_In in Hmem.
  destruct (String.eqb nbr tgt) eqn:Hnt.
  - destruct Hin as [<- | []]. apply String.eqb_eq in Hnt.
    exists [nbr]. repeat split; try discriminate; try assumption.
    + constructor; [| repeat constructor; intros []].
      intros [H | []]. apply Hmem. left. congruence.
    + intros x [<- | []]. assumption.
    + simpl. lia.
  - rewrite in_map_iff in Hin. destruct Hin as [p' [<- Hp']].
    apply IH in Hp'.
    destruct Hp' as [q' [-> [Hne [Hc [Hnd [Hlast [Hfresh Hlen]]]]]]].
    exists (nbr :: q'). repeat split; try discriminate; try assumption.
    + constructor; [| assumption].
      intros [H | H].
      * apply Hmem. left. congruence.
      * apply (Hfresh u H). right. now left.
    + destruct q' as [| w r]; [congruence |].
      change (last (w :: r) u = tgt).
      rewrite (last_default r w u nbr). exact Hlast.
    + intros x [<- | Hx]; [assumption |].
      intros [H | H].
      * apply (Hfresh x Hx). right. left. congruence.
      * apply (Hfresh x Hx). right. right. assumption.
    + simpl. lia.
Qed.

(** The node paths found for a demand whose endpoints are nodes are
    exactly the simple paths within the cutoff. *)
Lemma found_paths_spec (max_hops : nat) (g : MultiGraph) (dem : demand)
  (p : list node) :
  has_node g (dem_s dem) = true -> has_node g (dem_t dem) = true ->
  (In p (found_paths max_hops g dem)
   <-> simple_path g (dem_s dem) (dem_t dem) p /\ length p <= S max_hops).
Proof.
  intros Hs Ht. unfold found_paths. rewrite Hs, Ht. cbn [negb orb].
  destruct (String.eqb (dem_s dem) (dem_t dem)) eqn:Hst.
  - apply String.eqb_eq in Hst. split.
    + intros [<- | []]. unfold simple_path. simpl.
      repeat split; try assumption; try discriminate; try lia.
      repeat constructor. intros [].
    + intros [[Hc [Hnd [Hhd [Hlast Hne]]]] _].
      destruct p as [| x r]; [congruence |]. simpl in Hhd.
      inversion Hhd; subst x. destruct r as [| y r']; [now left |]. exfalso.
      inversion Hnd as [| ? ? Hnotin _]; subst. apply Hnotin.
      rewrite Hst at 1. rewrite <- Hlast.
      change (last (dem_s dem :: y :: r') (dem_s dem))
        with (last (y :: r') (dem_s dem)).
      clear. generalize y. induction r' as [| z r IHr]; intros w.
      * now left.
      * right. apply (IHr z).
  - apply String.eqb_neq in Hst. split.
    + intros Hin. apply paths_from_sound in Hin.
      destruct Hin as [q [-> [Hne [Hc [Hnd [Hlast [_ Hlen]]]]]]].
      unfold simple_path. repeat split; try assumption; try discriminate.
      * destruct q as [| w r]; [congruence |]. exact Hlast.
      * simpl. lia.
    + intros [[Hc [Hnd [Hhd [Hlast Hne]]]] Hlen].
      destruct p as [| x q]; [congruence |]. simpl in Hhd.
      inversion Hhd; subst x.
      assert (Hq : q <> []).
      { intros ->. simpl in Hlast. congruence. }
      apply paths_from_complete; try assumption.
      * destruct q as [| w r]; [congruence |]. exact Hlast.
      * intros x _ [].
      * simpl in Hlen. lia.
Qed.

Lemma found_paths_reachable (max_hops : nat) (g : MultiGraph) (dem : demand) :
  has_node g (dem_s dem) = true -> has_node g (dem_t dem) = true ->
  (found_paths max_hops g dem <> []
   <-> reachable_within (S max_hops) g (dem_s dem) (dem_t dem)).
Proof.
  intros Hs Ht. split.
  - intros Hne. destruct (found_paths max_hops g dem) as [| p ps] eqn:Hf;
      [congruence |].
    exists p. apply (found_paths_spec max_hops g dem p Hs Ht).
    rewrite Hf. now left.
  - intros [p Hp] Hnil.
    apply (found_paths_spec max_hops g dem p Hs Ht) in Hp.
    rewrite Hnil in Hp. contradiction.
Qed.

(** ** The loop body of the route enumerator *)

Lemma node_paths_found (max_hops : nat) (g : MultiGraph) (dem : demand) :
  (if negb (has_node g (dem_s dem)) || negb (has_node g (dem_t dem))
   then Ok []
   else all_simple_paths g (dem_s dem) (dem_t dem) max_hops)
  = Ok (found_paths max_hops g dem).
Proof.
  unfold found_paths, all_simple_paths.
  destruct (negb (has_node g (dem_s dem))); simpl; [reflexivity |].
  destruct (negb (has_node g (dem_t dem))); simpl; [reflexivity |].
  now destruct (String.eqb (dem_s dem) (dem_t dem)).
Qed.

Lemma found_paths_chain (max_hops : nat) (g : MultiGraph) (dem : demand) :
  Forall (chain g) (found_paths max_hops g dem).
Proof.
  unfold found_paths.
  destruct (negb (has_node g (dem_s dem)) || negb (has_node g (dem_t dem)));
    [constructor |].
  destruct (String.eqb (dem_s dem) (dem_t dem)).
  - repeat constructor.
  - apply Forall_forall. intros p Hp. now apply paths_from_shape in Hp.
Qed.

Lemma edge_options_hops (g : MultiGraph) (p : list node) :
  chain g p ->
  edge_options g p
  = Ok (map (fun uv : node * node =>
               map (fun kd => (fst uv, snd uv, fst kd))
                   (keydict g (fst uv) (snd uv)))
            (hops p)).
Proof.
  induction p as [| u rest IH]; intros Hc; [reflexivity |].
  destruct rest as [| v rest']; [reflexivity |].
  destruct Hc as [Hadj Hc]. rewrite edge_options_cons.
  unfold adj_getitem.
  destruct (keydict g u v) as [| kd kds] eqn:Hkd; [congruence |].
  cbn [bind]. rewrite (IH Hc). cbn [bind].
  change (hops (u :: v :: rest')) with ((u, v) :: hops (v :: rest')).
  cbn [map fst snd]. now rewrite Hkd.
Qed.

Lemma expand_paths_routes_along (g : MultiGraph) (paths : list (list node)) :
  Forall (chain g) paths ->
  expand_paths g paths = Ok (flat_map (routes_along g) paths).
Proof.
  induction 1 as [| p rest Hp _ IH]; [reflexivity |].
  cbn [expand_paths flat_map]. rewrite (edge_options_hops g p Hp).
  cbn [bind]. rewrite IH. reflexivity.
Qed.

Lemma routes_along_nonempty (g : MultiGraph) (p : list node) :
  chain g p -> routes_along g p <> [].
Proof.
  intros Hc. destruct (edge_options_chain g p Hc) as [opts [Ho Hne]].
  rewrite (edge_options_hops g p Hc) in Ho. inversion Ho as [Heq].
  unfold routes_along. rewrite Heq. now apply product_nonempty.
Qed.

Section EnumeratorFacts.

Variable set_iter : list (list node) -> list (list node).
Variable max_hops : nat.
Hypothesis set_iter_order : set_order set_iter.

Let shortest (paths : list (list node)) : list (list node) :=
  set_iter (filter (fun p => Nat.eqb (length p) (min_length paths)) paths).

Lemma shortest_In (paths : list (list node)) (p : list node) :
  In p (shortest paths)
  <-> In p paths /\ forall q, In q paths -> length p <= length q.
Proof.
  unfold shortest. destruct (set_iter_order
    (filter (fun p => Nat.eqb (length p) (min_length paths)) paths))
    as [_ Hin].
  rewrite Hin, filter_In, Nat.eqb_eq. split.
  - intros [Hp Hlen]. split; [assumption |]. intros q Hq.
    rewrite Hlen. now apply min_length_lower.
  - intros [Hp Hmin]. split; [assumption |].
    assert (Hne : paths <> []) by (intros ->; contradiction).
    destruct (min_length_attained paths Hne) as [q [Hq Hlen]].
    pose proof (min_length_lower paths p Hp). specialize (Hmin q Hq). lia.
Qed.

Lemma shortest_chain (g : MultiGraph) (paths : list (list node)) :
  Forall (chain g) paths -> Forall (chain g) (shortest paths).
Proof.
  intros H. apply Forall_forall. intros p Hp.
  apply shortest_In in Hp. destruct Hp as [Hp _].
  rewrite Forall_forall in H. now apply H.
Qed.

Lemma shortest_not_nil (paths : list (list node)) :
  paths <> [] -> shortest paths <> [].
Proof.
  intros Hne Hnil. destruct (min_length_attained paths Hne) as [p [Hp Hlen]].
  assert (Hin : In p (shortest paths)).
  { apply shortest_In. split; [assumption |]. intros q Hq.
    rewrite Hlen. now apply min_length_lower. }
  rewrite Hnil in Hin. contradiction.
Qed.

Lemma routes_for_demand_none (g : MultiGraph) (dem : demand) :
  found_paths max_hops g dem = [] ->
  routes_for_demand set_iter max_hops g dem
  = Ok ([personal_route dem],
        add_edge g (dem_s dem) (dem_t dem)
                 (Some (default_key (dem_s dem) (dem_t dem))) default_attr).
Proof.
  intros Hnone. unfold routes_for_demand.
  rewrite node_paths_found, Hnone. reflexivity.
Qed.

Lemma routes_for_demand_some (g : MultiGraph) (dem : demand) :
  found_paths max_hops g dem <> [] ->
  routes_for_demand set_iter max_hops g dem
  = Ok (firstn MAX_ROUTES_PER_DEMAND
          (flat_map (routes_along g) (shortest (found_paths max_hops g dem))),
        g).
Proof.
  intros Hsome. unfold routes_for_demand.
  rewrite node_paths_found. cbn [bind].
  destruct (found_paths max_hops g dem) as [| p ps] eqn:Hf; [congruence |].
  rewrite <- Hf.
  rewrite (expand_paths_routes_along g).
  - reflexivity.
  - apply shortest_chain. apply found_paths_chain.
Qed.

Lemma flat_routes_nonempty (g : MultiGraph) (paths : list (list node)) :
  Forall (chain g) paths -> paths <> [] ->
  flat_map (routes_along g) paths <> [].
Proof.
  intros Hc Hne. destruct paths as [| p ps]; [congruence |].
  inversion Hc; subst. simpl.
  pose proof (routes_along_nonempty g p H1).
  destruct (routes_along g p); [congruence | discriminate].
Qed.

(** Every turn of the loop succeeds and yields between one and six
    routes. *)
Lemma routes_for_demand_total (g : MultiGraph) (dem : demand) :
  exists routes g',
    routes_for_demand set_iter max_hops g dem = Ok (routes, g')
    /\ routes <> [] /\ length routes <= MAX_ROUTES_PER_DEMAND.
Proof.
  destruct (found_paths max_hops g dem) as [| p ps] eqn:Hf.
  - rewrite (routes_for_demand_none g dem Hf).
    do 2 eexists. split; [reflexivity |].
    split; [discriminate | unfold MAX_ROUTES_PER_DEMAND; simpl; lia].
  - assert (Hsome : found_paths max_hops g dem <> []) by congruence.
    rewrite (routes_for_demand_some g dem Hsome).
    do 2 eexists. split; [reflexivity |]. split.
    + apply firstn_nonempty. apply flat_routes_nonempty.
      * apply shortest_chain, found_paths_chain.
      * now apply shortest_not_nil.
    + apply firstn_le_length.
Qed.

Lemma routes_loop_acc (demands : list demand) :
  forall g acc,
  exists R g',
    routes_loop set_iter max_hops g acc demands = Ok (acc ++ R, g')
    /\ length R = length demands
    /\ Forall (fun routes =>
                 routes <> [] /\ length routes <= MAX_ROUTES_PER_DEMAND) R.
Proof.
  induction demands as [| dem rest IH]; intros g acc.
  - exists [], g. rewrite app_nil_r. repeat split. constructor.
  - destruct (routes_for_demand_total g dem) as [routes [g1 [Hr [Hne Hlen]]]].
    destruct (IH g1 (acc ++ [routes])) as [R [g' [Hloop [HlenR Hall]]]].
    exists (routes :: R), g'. cbn [routes_loop]. rewrite Hr. cbn [bind].
    rewrite Hloop, <- app_assoc. repeat split.
    + simpl. now rewrite HlenR.
    + constructor; [split |]; assumption.
Qed.

Lemma routes_loop_app (pre post : list demand) :
  forall g acc,
    routes_loop set_iter max_hops g acc (pre ++ post)
    = ('(R, g') <- routes_loop set_iter max_hops g acc pre ;;
       routes_loop set_iter max_hops g' R post).
Proof.
  induction pre as [| dem rest IH]; intros g acc; [reflexivity |].
  cbn [app routes_loop].
  destruct (routes_for_demand set_iter max_hops g dem) as [[routes g1] | e];
    [| reflexivity].
  cbn [bind]. apply IH.
Qed.

(** The route list of demand [i] is computed in the graph reached
    after the demands before it. *)
Lemma routes_at_index (demands : list demand) (g : MultiGraph) (i : nat)
  (dem : demand) (R : list (list route)) (g' : MultiGraph) :
  getAllPossibleRoutes set_iter max_hops g demands = Ok (R, g') ->
  nth_error demands i = Some dem ->
  exists routes g1,
    routes_for_demand set_iter max_hops
      (graph_before set_iter max_hops g demands i) dem = Ok (routes, g1)
    /\ nth_error R i = Some routes.
Proof.
  intros Hrun Hnth.
  destruct (nth_error_split demands i Hnth) as [pre [post [-> <-]]].
  unfold graph_before, getAllPossibleRoutes in *.
  assert (Hfirst : firstn (length pre) (pre ++ dem :: post) = pre).
  { rewrite firstn_app, firstn_all.
    rewrite Nat.sub_diag. simpl. apply app_nil_r. }
  rewrite Hfirst.
  rewrite routes_loop_app in Hrun.
  destruct (routes_loop_acc pre g []) as [Rpre [gpre [Hpre [Hlpre _]]]].
  rewrite Hpre in Hrun |- *. cbn [bind app] in Hrun.
  cbn [routes_loop] in Hrun.
  destruct (routes_for_demand set_iter max_hops gpre dem)
    as [[routes g1] | e] eqn:Hdem; [| discriminate].
  cbn [bind] in Hrun.
  destruct (routes_loop_acc post g1 (Rpre ++ [routes]))
    as [Rpost [g2 [Hpost _]]].
  rewrite Hpost in Hrun. inversion Hrun; subst.
  exists routes, g1. split; [reflexivity |].
  rewrite <- app_assoc. simpl. rewrite nth_error_app2; [| lia].
  rewrite Hlpre, Nat.sub_diag. reflexivity.
Qed.

End EnumeratorFacts.

(** ** Claims about the route enumerator *)

Lemma found_paths_absent (max_hops : nat) (g : MultiGraph) (dem : demand) :
  has_node g (dem_s dem) = false \/ has_node g (dem_t dem) = false ->
  found_paths max_hops g dem = [].
Proof.
  unfold found_paths. intros [-> | ->]; simpl; [reflexivity |].
  now rewrite orb_true_r.
Qed.

Lemma graph_before_succ (set_iter : list (list node) -> list (list node))
  (max_hops : nat) (g : MultiGraph) (demands : list demand) (i : nat)
  (dem : demand) (routes : list route) (g1 : MultiGraph) :
  set_order set_iter ->
  nth_error demands i = Some dem ->
  routes_for_demand set_iter max_hops
    (graph_before set_iter max_hops g demands i) dem = Ok (routes, g1) ->
  graph_before set_iter max_hops g demands (S i) = g1.
Proof.
  intros Hset Hnth Hdem.
  destruct (nth_error_split demands i Hnth) as [pre [post [-> <-]]].
  unfold graph_before, getAllPossibleRoutes in *.
  assert (H1 : firstn (length pre) (pre ++ dem :: post) = pre).
  { rewrite firstn_app, firstn_all, Nat.sub_diag. simpl. apply app_nil_r. }
  assert (H2 : firstn (S (length pre)) (pre ++ dem :: post) = pre ++ [dem]).
  { rewrite firstn_app, firstn_all2 by lia.
    replace (S (length pre) - length pre) with 1 by lia. reflexivity. }
  rewrite H1 in Hdem. rewrite H2, routes_loop_app.
  destruct (routes_loop_acc set_iter max_hops Hset pre g [])
    as [Rpre [gpre [Hpre _]]].
  rewrite Hpre in Hdem |- *. cbn [bind routes_loop].
  rewrite Hdem. reflexivity.
Qed.

(** C2, as the code has it.  For every demand with an endpoint that is
    not a node of the graph reached when the enumerator turns to it, the
    enumerator adds the synthetic personal edge (s, t, "auto_<s>_<t>")
    with k = 1, capacity 500, price 100 and colour "personal" to the
    graph, and the route list of the demand is the single route made of
    that edge. *)
Theorem C2_absent_endpoint_personal_edge
  (set_iter : list (list node) -> list (list node)) (max_hops : nat)
  (g : MultiGraph) (demands : list demand) (i : nat) (dem : demand) :
  set_order set_iter ->
  nth_error demands i = Some dem ->
  has_node (graph_before set_iter max_hops g demands i) (dem_s dem) = false
  \/ has_node (graph_before set_iter max_hops g demands i) (dem_t dem) = false ->
  exists R g',
    getAllPossibleRoutes set_iter max_hops g demands = Ok (R, g')
    /\ nth_error R i
       = Some [[(dem_s dem, dem_t dem,
                 KStr ("auto_" ++ dem_s dem ++ "_" ++ dem_t dem)%string)]]
    /\ graph_before set_iter max_hops g demands (S i)
       = add_edge (graph_before set_iter max_hops g demands i)
           (dem_s dem) (dem_t dem)
           (Some (KStr ("auto_" ++ dem_s dem ++ "_" ++ dem_t dem)%string))
           [("k", VNum 1); ("capacity", VNum 500); ("price", VNum 100);
            ("color", VStr "personal")].
Proof.
  intros Hset Hnth Habsent.
  destruct (routes_loop_acc set_iter max_hops Hset demands g [])
    as [R [g' [Hrun _]]].
  exists R, g'. split; [exact Hrun |].
  destruct (routes_at_index set_iter max_hops Hset demands g i dem R g'
              Hrun Hnth) as [routes [g1 [Hdem HR]]].
  pose proof (routes_for_demand_none set_iter max_hops _ dem
                (found_paths_absent max_hops _ dem Habsent)) as Hnone.
  rewrite Hnone in Hdem. inversion Hdem; subst routes g1. split.
  - exact HR.
  - apply (graph_before_succ set_iter max_hops g demands i dem _ _
             Hset Hnth Hnone).
Qed.

Lemma C2_absent_endpoint_personal_edge_witness :
  set_order set_iter_first
  /\ nth_error [mkDemand "X" "Y" 10] 0 = Some (mkDemand "X" "Y" 10)
  /\ (has_node (graph_before set_iter_first 4 empty_graph
                             [mkDemand "X" "Y" 10] 0) "X" = false
      \/ has_node (graph_before set_iter_first 4 empty_graph
                                [mkDemand "X" "Y" 10] 0) "Y" = false)
  /\ exists R g',
       getAllPossibleRoutes set_iter_first 4 empty_graph [mkDemand "X" "Y" 10]
       = Ok (R, g')
       /\ nth_error R 0 = Some [[("X", "Y", KStr "auto_X_Y")]]
       /\ graph_before set_iter_first 4 empty_graph [mkDemand "X" "Y" 10] 1
          = add_edge (graph_before set_iter_first 4 empty_graph
                                   [mkDemand "X" "Y" 10] 0)
              "X" "Y" (Some (KStr "auto_X_Y"))
              [("k", VNum 1); ("capacity", VNum 500); ("price", VNum 100);
               ("color", VStr "personal")].
Proof.
  split; [exact set_iter_first_order |].
  split; [reflexivity |].
  split; [left; reflexivity |].
  exact (C2_absent_endpoint_personal_edge set_iter_first 4 empty_graph
           [mkDemand "X" "Y" 10] 0 (mkDemand "X" "Y" 10)
           set_iter_first_order eq_refl (or_introl eq_refl)).
Defined.

(** C2 as stated fails: on the empty graph the demand X -> Y, whose
    endpoints are both missing, is not skipped; the enumerator adds the
    personal edge and emits one route. *)
Lemma C2_absent_endpoint_not_skipped :
  has_node empty_graph "X" = false
  /\ getAllPossibleRoutes set_iter_first 4 empty_graph [mkDemand "X" "Y" 10]
     = Ok ([[[("X", "Y", KStr "auto_X_Y")]]],
           mkGraph ["X"; "Y"]
                   [mkEdge "X" "Y" (KStr "auto_X_Y")
                      [("k", VNum 1); ("capacity", VNum 500);
                       ("price", VNum 100); ("color", VStr "personal")]])
  /\ ~ (exists g', getAllPossibleRoutes set_iter_first 4 empty_graph
                     [mkDemand "X" "Y" 10] = Ok ([[]], g')
                   /\ g_edges g' = g_edges empty_graph).
Proof.
  split; [reflexivity |]. split; [reflexivity |].
  intros [g' [H _]]. vm_compute in H. discriminate.
Qed.

(** C9.  For every graph and demand list the enumerator returns one
    route list per demand; every route list is non-empty and has at most
    6 routes; a demand with an endpoint missing from the graph, or with no
    simple path within the cutoff, gets exactly the one-edge synthetic
    route. *)
Theorem C9_one_nonempty_route_list_per_demand
  (set_iter : list (list node) -> list (list node)) (max_hops : nat)
  (g : MultiGraph) (demands : list demand) :
  set_order set_iter ->
  exists R g',
    getAllPossibleRoutes set_iter max_hops g demands = Ok (R, g')
    /\ length R = length demands
    /\ Forall (fun routes => routes <> [] /\ length routes <= 6) R
    /\ forall i dem,
         nth_error demands i = Some dem ->
         has_node (graph_before set_iter max_hops g demands i) (dem_s dem)
           = false
         \/ has_node (graph_before set_iter max_hops g demands i) (dem_t dem)
            = false
         \/ ~ reachable_within (S max_hops)
                (graph_before set_iter max_hops g demands i)
                (dem_s dem) (dem_t dem) ->
         nth_error R i
         = Some [[(dem_s dem, dem_t dem, default_key (dem_s dem) (dem_t dem))]].
Proof.
  intros Hset.
  destruct (routes_loop_acc set_iter max_hops Hset demands g [])
    as [R [g' [Hrun [Hlen Hall]]]].
  exists R, g'. split; [exact Hrun |]. split; [exact Hlen |].
  split; [exact Hall |].
  intros i dem Hnth Hcase.
  destruct (routes_at_index set_iter max_hops Hset demands g i dem R g'
              Hrun Hnth) as [routes [g1 [Hdem HR]]].
  assert (Hnone : found_paths max_hops
                    (graph_before set_iter max_hops g demands i) dem = []).
  { destruct (has_node (graph_before set_iter max_hops g demands i)
                       (dem_s dem)) eqn:Hs;
      [| apply found_paths_absent; now left].
    destruct (has_node (graph_before set_iter max_hops g demands i)
                       (dem_t dem)) eqn:Ht;
      [| apply found_paths_absent; now right].
    destruct Hcase as [H | [H | Hno]]; try discriminate.
    destruct (found_paths max_hops
                (graph_before set_iter max_hops g demands i) dem) eqn:Hf;
      [reflexivity |].
    exfalso. apply Hno. apply (found_paths_reachable max_hops _ dem Hs Ht).
    rewrite Hf. discriminate. }
  rewrite (routes_for_demand_none set_iter max_hops _ dem Hnone) in Hdem.
  inversion Hdem; subst. exact HR.
Qed.

Lemma C9_one_nonempty_route_list_per_demand_witness :
  set_order set_iter_first
  /\ exists R g',
       getAllPossibleRoutes set_iter_first 4 empty_graph
         [mkDemand "X" "Y" 10; mkDemand "Y" "X" 3] = Ok (R, g')
       /\ length R = 2
       /\ Forall (fun routes => routes <> [] /\ length routes <= 6) R
       /\ forall i dem,
            nth_error [mkDemand "X" "Y" 10; mkDemand "Y" "X" 3] i = Some dem ->
            has_node (graph_before set_iter_first 4 empty_graph
                        [mkDemand "X" "Y" 10; mkDemand "Y" "X" 3] i) (dem_s dem)
              = false
            \/ has_node (graph_before set_iter_first 4 empty_graph
                           [mkDemand "X" "Y" 10; mkDemand "Y" "X" 3] i)
                        (dem_t dem) = false
            \/ ~ reachable_within 5
                   (graph_before set_iter_first 4 empty_graph
                      [mkDemand "X" "Y" 10; mkDemand "Y" "X" 3] i)
                   (dem_s dem) (dem_t dem) ->
            nth_error R i
            = Some [[(dem_s dem, dem_t dem,
                      default_key (dem_s dem) (dem_t dem))]].
Proof.
  split; [exact set_iter_first_order |].
  exact (C9_one_nonempty_route_list_per_demand set_iter_first 4 empty_graph
           [mkDemand "X" "Y" 10; mkDemand "Y" "X" 3] set_iter_first_order).
Defined.

(** C6.  For a demand whose endpoints are nodes of the graph and that
    has a simple path of at most [max_hops] nodes, the search returns a
    non-empty list of node paths; the enumerator keeps exactly those of
    minimum node length, each once, expands every kept node path into
    the Cartesian product of the parallel edges of its consecutive node
    pairs, returns the first 6 routes at most, and leaves the graph as
    it was. *)
Theorem C6_shortest_deduplicated_expanded_truncated
  (set_iter : list (list node) -> list (list node)) (max_hops : nat)
  (g : MultiGraph) (dem : demand) :
  set_order set_iter ->
  has_node g (dem_s dem) = true ->
  has_node g (dem_t dem) = true ->
  reachable_within max_hops g (dem_s dem) (dem_t dem) ->
  exists paths kept,
    all_simple_paths g (dem_s dem) (dem_t dem) max_hops = Ok paths
    /\ paths <> []
    /\ kept = set_iter (filter (fun p => Nat.eqb (length p) (min_length paths))
                               paths)
    /\ (forall p, In p kept
                  <-> In p paths /\ forall q, In q paths -> length p <= length q)
    /\ NoDup kept
    /\ routes_for_demand set_iter max_hops g dem
       = Ok (firstn 6 (flat_map (routes_along g) kept), g)
    /\ length (firstn 6 (flat_map (routes_along g) kept)) <= 6.
Proof.
  intros Hset Hs Ht [p [Hp Hlen]].
  assert (Hfound : found_paths max_hops g dem <> []).
  { apply (found_paths_reachable max_hops g dem Hs Ht).
    exists p. split; [assumption | lia]. }
  exists (found_paths max_hops g dem).
  eexists. split; [| split; [exact Hfound | split; [reflexivity |]]].
  - pose proof (node_paths_found max_hops g dem) as H.
    rewrite Hs, Ht in H. exact H.
  - split; [apply (shortest_In set_iter Hset) |].
    split; [apply Hset |].
    split; [apply (routes_for_demand_some set_iter max_hops Hset g dem Hfound) |].
    apply firstn_le_length.
Qed.

Lemma C6_shortest_deduplicated_expanded_truncated_witness :
  set_order set_iter_first
  /\ has_node diamond "A" = true
  /\ has_node diamond "D" = true
  /\ reachable_within 4 diamond "A" "D"
  /\ exists paths kept,
       all_simple_paths diamond "A" "D" 4 = Ok paths
       /\ paths <> []
       /\ kept = set_iter_first
                   (filter (fun p => Nat.eqb (length p) (min_length paths))
                           paths)
       /\ (forall p, In p kept
              <-> In p paths /\ forall q, In q paths -> length p <= length q)
       /\ NoDup kept
       /\ routes_for_demand set_iter_first 4 diamond (mkDemand "A" "D" 10)
          = Ok (firstn 6 (flat_map (routes_along diamond) kept), diamond)
       /\ length (firstn 6 (flat_map (routes_along diamond) kept)) <= 6.
Proof.
  assert (Hreach : reachable_within 4 diamond "A" "D").
  { exists ["A"; "B"; "D"]. split; [| simpl; lia].
    unfold simple_path. repeat split; try (vm_compute; discriminate).
    repeat constructor; simpl; intuition discriminate. }
  split; [exact set_iter_first_order |].
  split; [reflexivity |]. split; [reflexivity |].
  split; [exact Hreach |].
  exact (C6_shortest_deduplicated_expanded_truncated set_iter_first 4 diamond
           (mkDemand "A" "D" 10) set_iter_first_order eq_refl eq_refl Hreach).
Defined.

(** ** Determinism of the enumeration *)






(* ================================================================== *)
(** ** Meaning of the Python operators *)

Lemma Qle_bool_true (x y : Q) : Qle_bool x y = true <-> (x <= y)%Q.
Proof. apply Qle_bool_iff. Qed.

Lemma py_add_value (rho : valuation) (a b c : pyval) :
  py_add a b = Ok c ->
  (value_of rho c == value_of rho a + value_of rho b)%Q.
Proof.
  destruct a, b; simpl; intros H; inversion H; subst; simpl; reflexivity.
Qed.

Lemma py_sub_value (rho : valuation) (a b c : pyval) :
  py_sub a b = Ok c ->
  (value_of rho c == value_of rho a - value_of rho b)%Q.
Proof.
  destruct a, b; simpl; intros H; inversion H; subst; simpl; reflexivity.
Qed.

Lemma py_mul_value (rho : valuation) (a b c : pyval) :
  py_mul a b = Ok c ->
  (value_of rho c == value_of rho a * value_of rho b)%Q.
Proof.
  destruct a, b; simpl; intros H; inversion H; subst; simpl; reflexivity.
Qed.

Lemma py_le_holds (rho : valuation) (a b : pyval) (f : formula) :
  py_le a b = Ok f ->
  (holds rho f <-> (value_of rho a <= value_of rho b)%Q).
Proof.
  destruct a, b; simpl; intros H; inversion H; subst; simpl;
    try reflexivity. apply Qle_bool_true.
Qed.

Lemma py_ge_holds (rho : valuation) (a b : pyval) (f : formula) :
  py_ge a b = Ok f ->
  (holds rho f <-> (value_of rho b <= value_of rho a)%Q).
Proof.
  destruct a, b; simpl; intros H; inversion H; subst; simpl;
    try reflexivity. apply Qle_bool_true.
Qed.

Lemma py_eq_holds (rho : valuation) (a b : pyval) (f : formula) :
  is_expr a = true \/ (exists q, a = VNum q) ->
  is_expr b = true \/ (exists q, b = VNum q) ->
  py_eq a b = Ok f ->
  (holds rho f <-> (value_of rho a == value_of rho b)%Q).
Proof.
  intros Ha Hb.
  destruct a, b; simpl; intros H; inversion H; subst; simpl;
    try reflexivity;
    try (destruct Ha as [Ha | [qa Ha]]; discriminate);
    try (destruct Hb as [Hb | [qb Hb]]; discriminate).
  - apply Qeq_bool_iff.
  - split; intros E; symmetry; exact E.
Qed.

Lemma py_sum_from_value (rho : valuation) (l : list pyval) :
  forall acc v,
    py_sum_from acc l = Ok v ->
    (value_of rho v == value_of rho acc + sum_values rho l)%Q.
Proof.
  induction l as [| x rest IH]; intros acc v H; simpl in H.
  - inversion H; subst. simpl. ring.
  - inv_bind H as acc' Hacc. apply IH in H. rewrite H.
    rewrite (py_add_value rho _ _ _ Hacc). simpl. ring.
Qed.

Lemma py_sum_value (rho : valuation) (l : list pyval) (v : pyval) :
  py_sum l = Ok v -> (value_of rho v == sum_values rho l)%Q.
Proof.
  intros H. apply (py_sum_from_value rho) in H. rewrite H. simpl. ring.
Qed.

Lemma eval_ESum (rho : valuation) (es : list expr) :
  eval rho (ESum es) = fold_right (fun e acc => (eval rho e + acc)%Q) 0%Q es.
Proof.
  simpl. induction es as [| e rest IH]; [reflexivity |].
  simpl. now rewrite IH.
Qed.

Lemma mapM_to_expr_value (rho : valuation) (l : list pyval) :
  forall es, mapM to_expr l = Ok es ->
    (fold_right (fun e acc => eval rho e + acc) 0 es == sum_values rho l)%Q.
Proof.
  induction l as [| x rest IH]; intros es H; simpl in H.
  - inversion H; subst. simpl. reflexivity.
  - inv_bind H as e He. inv_bind H as es' Hes. inversion H; subst. simpl.
    rewrite (IH _ Hes).
    destruct x; simpl in He; inversion He; subst; simpl; reflexivity.
Qed.

Lemma z3_Sum_value (rho : valuation) (l : list pyval) (v : pyval) :
  z3_Sum l = Ok v -> (value_of rho v == sum_values rho l)%Q.
Proof.
  unfold z3_Sum. destruct (existsb is_expr l).
  - intros H. inv_bind H as es Hes. inversion H; subst.
    cbn [value_of]. rewrite eval_ESum. now apply mapM_to_expr_value.
  - apply py_sum_value.
Qed.

Lemma z3_Sum_numeric_or_expr (l : list pyval) (v : pyval) :
  z3_Sum l = Ok v -> is_expr v = true \/ exists q, v = VNum q.
Proof.
  unfold z3_Sum. destruct (existsb is_expr l).
  - intros H. inv_bind H as es Hes. inversion H. now left.
  - unfold py_sum. assert (Hgen : forall l acc,
      (is_expr acc = true \/ exists q, acc = VNum q) ->
      py_sum_from acc l = Ok v -> is_expr v = true \/ exists q, v = VNum q).
    { clear. induction l as [| x rest IH]; intros acc Hacc H; simpl in H.
      - inversion H; subst. exact Hacc.
      - inv_bind H as acc' Hacc'. apply (IH acc'); [| assumption].
        destruct acc, x; simpl in Hacc'; inversion Hacc'; subst; simpl; eauto. }
    apply Hgen. right. now exists 0%Q.
Qed.

(** ** The builders only add assertions *)

Lemma with_assertions_nil (s : solver) : with_assertions s [] = s.
Proof. destruct s. unfold with_assertions. simpl. now rewrite app_nil_r. Qed.

Lemma with_assertions_app (s : solver) (a b : list formula) :
  with_assertions (with_assertions s a) b = with_assertions s (a ++ b).
Proof. unfold with_assertions. simpl. now rewrite app_assoc. Qed.

Lemma add_with_assertions (s : solver) (f : formula) :
  add s f = with_assertions s [f].
Proof. reflexivity. Qed.

(** ** Cost and price of a route *)

Lemma cost_term_value (rho : valuation) (g : MultiGraph) (e : edge_id)
  (c : pyval) :
  cost_term g e = Ok c ->
  (value_of rho c
   == attr_value rho g e "k" * attr_value rho g e "f_e"
      + attr_value rho g e "price")%Q.
Proof.
  unfold cost_term, attr_value. intros H.
  inv_bind H as f_e Hf. inv_bind H as k Hk. inv_bind H as price Hp.
  inv_bind H as kf Hkf. rewrite Hf, Hk, Hp.
  rewrite (py_add_value rho _ _ _ H), (py_mul_value rho _ _ _ Hkf).
  reflexivity.
Qed.

Lemma cost_terms_value (rho : valuation) (g : MultiGraph) (r : route) :
  forall terms, mapM (cost_term g) r = Ok terms ->
    (sum_values rho terms == route_cost_value rho g r)%Q.
Proof.
  induction r as [| e rest IH]; intros terms H; simpl in H.
  - inversion H. reflexivity.
  - inv_bind H as c Hc. inv_bind H as cs Hcs. inversion H; subst. simpl.
    rewrite (IH _ Hcs), (cost_term_value rho g e c Hc). ring.
Qed.

Lemma compute_route_cost_value (rho : valuation) (g : MultiGraph) (r : route)
  (cost : pyval) :
  compute_route_cost g r = Ok cost ->
  (value_of rho cost == route_cost_value rho g r)%Q.
Proof.
  unfold compute_route_cost. intros H. inv_bind H as terms Hterms.
  rewrite <- (cost_terms_value rho g r terms Hterms).
  destruct (existsb is_expr terms);
    [now apply z3_Sum_value | now apply py_sum_value].
Qed.

Lemma price_terms_value (rho : valuation) (g : MultiGraph) (r : route) :
  forall terms, mapM (fun e => edge_attr g e "price") r = Ok terms ->
    (sum_values rho terms == route_price_value rho g r)%Q.
Proof.
  induction r as [| e rest IH]; intros terms H; simpl in H.
  - inversion H. reflexivity.
  - inv_bind H as c Hc. inv_bind H as cs Hcs. inversion H; subst. simpl.
    rewrite (IH _ Hcs). unfold attr_value. rewrite Hc. reflexivity.
Qed.

Lemma mapM_py_float (l : list pyval) :
  forall floats, mapM py_float l = Ok floats -> floats = l.
Proof.
  induction l as [| x rest IH]; intros floats H; simpl in H.
  - now inversion H.
  - inv_bind H as y Hy. inv_bind H as ys Hys. inversion H; subst.
    rewrite (IH _ Hys). destruct x; simpl in Hy; inversion Hy. reflexivity.
Qed.

Lemma compute_route_price_value (rho : valuation) (g : MultiGraph) (r : route)
  (price : pyval) :
  compute_route_price g r = Ok price ->
  (value_of rho price == route_price_value rho g r)%Q.
Proof.
  unfold compute_route_price. intros H. inv_bind H as terms Hterms.
  rewrite <- (price_terms_value rho g r terms Hterms).
  destruct (existsb is_expr terms); [now apply z3_Sum_value |].
  inv_bind H as floats Hfloats. apply mapM_py_float in Hfloats. subst.
  now apply py_sum_value.
Qed.

(** ** The Wardrop assertions *)

Lemma wardrop_route_spec (g : MultiGraph) (i : nat) (f_R : pyval) (r : route)
  (s s' : solver) :
  wardrop_route g (T_var i) f_R r s = Ok s' ->
  exists fs,
    s' = with_assertions s fs
    /\ wardrop_pair g (SymStr ("T_" ++ string_of_nat i)%string) f_R r fs.
Proof.
  unfold wardrop_route. intros H.
  inv_bind H as cost Hcost. inv_bind H as price Hprice.
  inv_bind H as used Hused. inv_bind H as hi Hhi.
  inv_bind H as below Hbelow. inv_bind H as lo Hlo.
  inv_bind H as above Habove. inv_bind H as unused Hunused.
  inv_bind H as lo' Hlo'. inv_bind H as dominated Hdom.
  inversion H; subst s'; clear H.
  exists [FImplies used (FAnd [below; above]);
          FImplies unused (FAnd [dominated])].
  split.
  - rewrite !add_with_assertions, with_assertions_app. reflexivity.
  - exists cost, price, used, below, above, unused, dominated.
    repeat (split; [first [assumption | reflexivity] |]).
    intros rho.
    pose proof (py_add_value rho _ _ _ Hhi) as Vhi.
    pose proof (py_sub_value rho _ _ _ Hlo) as Vlo.
    pose proof (py_sub_value rho _ _ _ Hlo') as Vlo'.
    unfold T_var, Real in Vhi, Vlo, Vlo'.
    cbn [value_of eval] in Vhi, Vlo, Vlo'.
    repeat split.
    + apply (py_ge_holds rho _ _ _ Hused).
    + intros Hh. apply (py_ge_holds rho _ _ _ Hused). exact Hh.
    + intros Hh. apply (py_le_holds rho _ _ _ Hbelow) in Hh.
      rewrite Vhi in Hh. exact Hh.
    + intros Hh. apply (py_le_holds rho _ _ _ Hbelow). rewrite Vhi. exact Hh.
    + intros Hh. apply (py_ge_holds rho _ _ _ Habove) in Hh.
      rewrite Vlo in Hh. exact Hh.
    + intros Hh. apply (py_ge_holds rho _ _ _ Habove). rewrite Vlo. exact Hh.
    + apply (py_le_holds rho _ _ _ Hunused).
    + intros Hh. apply (py_le_holds rho _ _ _ Hunused). exact Hh.
    + intros Hh. apply (py_ge_holds rho _ _ _ Hdom) in Hh.
      rewrite Vlo' in Hh. exact Hh.
    + intros Hh. apply (py_ge_holds rho _ _ _ Hdom). rewrite Vlo'. exact Hh.
    + now apply compute_route_cost_value.
    + now apply compute_route_price_value.
Qed.

Lemma wardrop_routes_spec (g : MultiGraph) (i : nat) (flows : list pyval)
  (routes : list route) :
  forall j s s',
    wardrop_routes g (T_var i) flows j routes s = Ok s' ->
    exists pairs,
      s' = with_assertions s (concat pairs)
      /\ length pairs = length routes
      /\ forall n r, nth_error routes n = Some r ->
           exists f_R fs,
             nth_error flows (j + n) = Some f_R
             /\ nth_error pairs n = Some fs
             /\ wardrop_pair g (SymStr ("T_" ++ string_of_nat i)%string)
                             f_R r fs.
Proof.
  induction routes as [| r rest IH]; intros j s s' H; cbn [wardrop_routes] in H.
  - inversion H; subst. exists []. rewrite with_assertions_nil.
    repeat split. intros [| n] r0 Hn; discriminate.
  - inv_bind H as f_R Hf. inv_bind H as s1 Hs1.
    apply wardrop_route_spec in Hs1. destruct Hs1 as [fs [-> Hpair]].
    apply IH in H. destruct H as [pairs [-> [Hlen Hall]]].
    exists (fs :: pairs). rewrite with_assertions_app. repeat split.
    + simpl. now rewrite Hlen.
    + intros [| n] r0 Hn.
      * simpl in Hn. inversion Hn; subst r0. exists f_R, fs.
        rewrite Nat.add_0_r. unfold list_getitem in Hf.
        destruct (nth_error flows j); inversion Hf; subst. auto.
      * simpl in Hn. destruct (Hall n r0 Hn) as [f [fs' [H1 [H2 H3]]]].
        exists f, fs'. rewrite <- Nat.add_succ_comm. auto.
Qed.

Lemma c3c4_loop_spec (g : MultiGraph) (R_ij : list (list route))
  (f_R_vars : list (list pyval)) (demands : list demand) :
  forall i s s',
    c3c4_loop g R_ij f_R_vars i demands s = Ok s' ->
    exists blocks,
      s' = with_assertions s (concat blocks)
      /\ length blocks = length demands
      /\ forall n dem, nth_error demands n = Some dem ->
           exists block,
             nth_error blocks n = Some block
             /\ (endpoint_missing g dem = true -> block = [])
             /\ (endpoint_missing g dem = false ->
                 demand_block g R_ij f_R_vars (i + n) dem block).
Proof.
  induction demands as [| dem rest IH]; intros i s s' H; cbn [c3c4_loop] in H.
  - inversion H; subst. exists []. rewrite with_assertions_nil.
    repeat split. intros [| n] d Hn; discriminate.
  - fold (endpoint_missing g dem) in H.
    destruct (endpoint_missing g dem) eqn:Hmiss.
    + apply IH in H. destruct H as [blocks [-> [Hlen Hall]]].
      exists ([] :: blocks). repeat split.
      * simpl. now rewrite Hlen.
      * intros [| n] d Hn; simpl in Hn.
        -- inversion Hn; subst d. exists []. rewrite Hmiss.
           repeat split; [discriminate].
        -- destruct (Hall n d Hn) as [block [H1 [H2 H3]]].
           exists block. rewrite <- Nat.add_succ_comm. auto.
    + inv_bind H as flows Hflows. inv_bind H as f_R_sum Hsum.
      inv_bind H as conservation Hcons. inv_bind H as routes Hroutes.
      inv_bind H as s2 Hs2.
      apply wardrop_routes_spec in Hs2.
      destruct Hs2 as [pairs [-> [Hlenp Hpairs]]].
      apply IH in H. destruct H as [blocks [-> [Hlen Hall]]].
      exists ((conservation :: concat pairs) :: blocks).
      rewrite add_with_assertions, !with_assertions_app. repeat split.
      * simpl. now rewrite Hlen.
      * intros [| n] d Hn; simpl in Hn.
        -- inversion Hn; subst d. eexists. split; [reflexivity |].
           rewrite Hmiss. split; [discriminate |]. intros _.
           rewrite Nat.add_0_r.
           unfold list_getitem in Hflows, Hroutes.
           destruct (nth_error f_R_vars i) as [fl |] eqn:Efl;
             inversion Hflows; subst fl.
           destruct (nth_error R_ij i) as [ro |] eqn:Ero;
             inversion Hroutes; subst ro.
           exists flows, routes, conservation, pairs.
           repeat split; try assumption.
           ++ intros Hh.
              apply (py_eq_holds rho _ _ _
                       (z3_Sum_numeric_or_expr _ _ Hsum)
                       (or_intror (ex_intro _ (dem_d dem) eq_refl)) Hcons) in Hh.
              rewrite <- (z3_Sum_value rho _ _ Hsum). exact Hh.
           ++ intros Hh.
              apply (py_eq_holds rho _ _ _
                       (z3_Sum_numeric_or_expr _ _ Hsum)
                       (or_intror (ex_intro _ (dem_d dem) eq_refl)) Hcons).
              rewrite (z3_Sum_value rho _ _ Hsum). exact Hh.
        -- destruct (Hall n d Hn) as [block [H1 [H2 H3]]].
           exists block. rewrite <- Nat.add_succ_comm. auto.
Qed.


(** ** The edge constraints *)

Lemma c1c2_edge_extends (R_ij : list (list route))
  (f_R_vars : list (list pyval)) (e : node * node * ekey * dict)
  (s s' : solver) :
  c1c2_edge R_ij f_R_vars e s = Ok s' -> exists new, s' = with_assertions s new.
Proof.
  destruct e as [[[u v] key] data]. unfold c1c2_edge. intros H.
  inv_bind H as f_e Hf. inv_bind H as flows Hflows. inv_bind H as s1 Hs1.
  inv_bind H as lower Hlower. inv_bind H as upper Hupper.
  inv_bind H as price Hprice.
  assert (H1 : exists new1, s1 = with_assertions s new1).
  { destruct flows as [| x xs].
    - inv_bind Hs1 as c Hc. inversion Hs1. now exists [c].
    - inv_bind Hs1 as total Htotal. destruct (is_expr total).
      + inv_bind Hs1 as c Hc. inversion Hs1. now exists [c].
      + inversion Hs1. exists []. now rewrite with_assertions_nil. }
  destruct H1 as [new1 ->].
  destruct (is_expr price).
  - inv_bind H as c Hc. inversion H. eexists.
    rewrite !add_with_assertions, !with_assertions_app. reflexivity.
  - inversion H. eexists.
    rewrite !add_with_assertions, !with_assertions_app. reflexivity.
Qed.

Lemma addC1C2Constraints_extends (g : MultiGraph) (R_ij : list (list route))
  (f_R_vars : list (list pyval)) (s s' : solver) :
  addC1C2Constraints g R_ij f_R_vars s = Ok s' ->
  exists new, s' = with_assertions s new.
Proof.
  unfold addC1C2Constraints. generalize (edges_view g) as view.
  intros view. revert s. induction view as [| e rest IH]; intros s H;
    cbn [c1c2_loop] in H.
  - inversion H. exists []. now rewrite with_assertions_nil.
  - inv_bind H as s1 Hs1. apply c1c2_edge_extends in Hs1.
    destruct Hs1 as [new1 ->]. apply IH in H. destruct H as [new2 ->].
    eexists. rewrite with_assertions_app. reflexivity.
Qed.

Lemma skipn_S_tl {A : Type} (j : nat) :
  forall l : list A, skipn (S j) l = tl (skipn j l).
Proof.
  induction j as [| j IH]; intros [| y l]; try reflexivity.
  change (skipn (S j) l = tl (skipn j l)). apply IH.
Qed.

Lemma nth_error_skipn {A : Type} (l : list A) :
  forall j x, nth_error l j = Some x -> skipn j l = x :: skipn (S j) l.
Proof.
  induction l as [| y rest IH]; intros [| j] x H; try discriminate.
  - now inversion H.
  - simpl in H. simpl. now apply IH.
Qed.

Lemma collect_routes_spec (u v : node) (key : ekey) (row : list pyval)
  (routes : list route) :
  forall j acc acc',
    collect_routes u v key row j routes acc = Ok acc' ->
    acc' = acc ++ map snd (filter (fun rf => route_uses u v key (fst rf))
                                  (combine routes (skipn j row))).
Proof.
  induction routes as [| r rest IH]; intros j acc acc' H;
    cbn [collect_routes] in H.
  - inversion H. simpl. now rewrite app_nil_r.
  - destruct (route_uses u v key r) eqn:Huse.
    + inv_bind H as f_R Hf. unfold list_getitem in Hf.
      destruct (nth_error row j) as [x |] eqn:Hj; inversion Hf; subst x.
      apply IH in H. rewrite (nth_error_skipn row j f_R Hj).
      cbn [combine filter fst]. rewrite Huse. cbn [map snd].
      now rewrite H, <- app_assoc.
    + apply IH in H. rewrite skipn_S_tl in H.
      destruct (skipn j row) as [| x xs].
      * simpl in H. destruct rest; exact H.
      * cbn [combine filter fst]. rewrite Huse. exact H.
Qed.

Lemma collect_demands_spec (u v : node) (key : ekey)
  (f_R_vars : list (list pyval)) (R_ij : list (list route)) :
  forall i acc acc',
    collect_demands u v key f_R_vars i R_ij acc = Ok acc' ->
    acc' = acc ++ flows_on_edge u v key R_ij (skipn i f_R_vars).
Proof.
  unfold flows_on_edge.
  induction R_ij as [| routes rest IH]; intros i acc acc' H;
    cbn [collect_demands] in H.
  - inversion H. simpl. now rewrite app_nil_r.
  - inv_bind H as row Hrow. inv_bind H as acc1 Hacc1.
    unfold list_getitem in Hrow.
    destruct (nth_error f_R_vars i) as [x |] eqn:Hi; inversion Hrow; subst x.
    apply collect_routes_spec in Hacc1. apply IH in H.
    rewrite (nth_error_skipn f_R_vars i row Hi).
    cbn [combine map concat fst snd]. rewrite H, Hacc1.
    now rewrite <- app_assoc.
Qed.

Lemma py_sum_from_plain (l : list pyval) :
  forall q v,
    existsb is_expr l = false -> py_sum_from (VNum q) l = Ok v ->
    is_expr v = false.
Proof.
  induction l as [| x rest IH]; intros q v Hl H; simpl in H.
  - now inversion H.
  - simpl in Hl. apply orb_false_iff in Hl. destruct Hl as [Hx Hrest].
    inv_bind H as acc Hacc.
    destruct x; try discriminate; simpl in Hacc; inversion Hacc; subst.
    now apply IH in H.
Qed.

(** [is_expr(Sum(l))] tells whether some argument is a z3 term. *)
Lemma z3_Sum_is_expr (l : list pyval) (v : pyval) :
  z3_Sum l = Ok v -> is_expr v = existsb is_expr l.
Proof.
  unfold z3_Sum. destruct (existsb is_expr l) eqn:Hex.
  - intros H. inv_bind H as es Hes. now inversion H.
  - intros H. now apply (py_sum_from_plain l 0%Q v Hex).
Qed.

(** What the builder asserts for one edge, in order: the definition of
    the edge flow ([f_e == 0] without routes, [f_e == Sum] of the flows
    of the routes on the edge when the sum is a z3 term, nothing when it
    is a number), [0 <= f_e], [f_e <= capacity] with [Int(500)] for a
    missing capacity, and [price >= 5] when the price is a z3 term. *)
Lemma c1c2_edge_spec (R_ij : list (list route)) (f_R_vars : list (list pyval))
  (u v : node) (key : ekey) (data : dict) (s s' : solver) :
  c1c2_edge R_ij f_R_vars (u, v, key, data) s = Ok s' ->
  exists f_e price definition lower upper floor,
    dict_get data "f_e" = Some f_e
    /\ dict_get data "price" = Some price
    /\ s' = with_assertions s (definition ++ lower :: upper :: floor)
    /\ match flows_on_edge u v key R_ij f_R_vars with
       | [] => exists c, py_eq f_e (VNum 0) = Ok c /\ definition = [c]
       | flows =>
           if existsb is_expr flows
           then exists total c,
                  z3_Sum flows = Ok total /\ py_eq f_e total = Ok c
                  /\ definition = [c]
           else definition = []
       end
    /\ py_le (VNum 0) f_e = Ok lower
    /\ py_le f_e match dict_get data "capacity" with
                 | Some c => c
                 | None => VExpr (Int 500)
                 end = Ok upper
    /\ if is_expr price
       then exists c, py_ge price (VNum PRICE_MIN) = Ok c /\ floor = [c]
       else floor = [].
Proof.
  unfold c1c2_edge, dict_getitem. intros H.
  destruct (dict_get data "f_e") as [f_e |] eqn:Hf; [| discriminate].
  cbn [bind] in H. inv_bind H as flows Hflows. inv_bind H as s1 Hs1.
  inv_bind H as lower Hlower. inv_bind H as upper Hupper.
  destruct (dict_get data "price") as [price |] eqn:Hp; [| discriminate].
  cbn [bind] in H.
  apply collect_demands_spec in Hflows. cbn [skipn app] in Hflows.
  subst flows.
  assert (Hdef : exists definition,
             s1 = with_assertions s definition
             /\ match flows_on_edge u v key R_ij f_R_vars with
                | [] => exists c, py_eq f_e (VNum 0) = Ok c /\ definition = [c]
                | flows =>
                    if existsb is_expr flows
                    then exists total c,
                           z3_Sum flows = Ok total /\ py_eq f_e total = Ok c
                           /\ definition = [c]
                    else definition = []
                end).
  { destruct (flows_on_edge u v key R_ij f_R_vars) as [| x xs].
    - inv_bind Hs1 as c Hc. inversion Hs1. exists [c]. eauto.
    - inv_bind Hs1 as total Htotal. cbv beta match zeta.
      rewrite <- (z3_Sum_is_expr _ _ Htotal).
      destruct (is_expr total).
      + inv_bind Hs1 as c Hc. inversion Hs1. exists [c]. eauto 6.
      + inversion Hs1. exists []. now rewrite with_assertions_nil. }
  destruct Hdef as [definition [-> Hdefinition]].
  assert (Hfloor : exists floor,
             s' = with_assertions s (definition ++ lower :: upper :: floor)
             /\ if is_expr price
                then exists c, py_ge price (VNum PRICE_MIN) = Ok c
                               /\ floor = [c]
                else floor = []).
  { destruct (is_expr price).
    - inv_bind H as c Hc. inversion H. exists [c].
      rewrite !add_with_assertions, !with_assertions_app. eauto.
    - inversion H. exists [].
      rewrite !add_with_assertions, !with_assertions_app. eauto. }
  destruct Hfloor as [floor [-> Hfloor]].
  exists f_e, price, definition, lower, upper, floor. auto 10.
Qed.

(** C3 at an edge without a capacity.  The upper bound the builder
    asserts for the flow of the edge is not the number 500 but the z3
    integer constant that [Int(500)] declares; the assertions made for
    the edge are satisfied with a flow of 1000. *)
Theorem C3_missing_capacity_leaves_flow_unbounded :
  dict_get [("color", VStr "red"); ("price", VNum 5); ("k", VNum 1)] "capacity"
  = None
  /\ addC1C2Constraints uncapped_graph uncapped_routes uncapped_flows
                        fresh_optimize
     = Ok (with_assertions fresh_optimize
             [FEq (Real "f_A-B-red") (ESum [Real "flow_0_0"]);
              FGe (Real "f_A-B-red") (ENum 0);
              FLe (Real "f_A-B-red") (EConst (SymInt 500) IntSort)])
  /\ FLe (Real "f_A-B-red") (EConst (SymInt 500) IntSort)
     <> FLe (Real "f_A-B-red") (ENum 500)
  /\ exists rho : valuation,
       Forall (holds rho)
              [FEq (Real "f_A-B-red") (ESum [Real "flow_0_0"]);
               FGe (Real "f_A-B-red") (ENum 0);
               FLe (Real "f_A-B-red") (EConst (SymInt 500) IntSort)]
       /\ (eval rho (Real "f_A-B-red") == 1000)%Q
       /\ ~ holds rho (FLe (Real "f_A-B-red") (ENum 500)).
Proof.
  split; [reflexivity |]. split; [vm_compute; reflexivity |].
  split; [discriminate |].
  exists (fun _ => 1000%Q). split; [| split].
  - repeat constructor; simpl; try reflexivity; discriminate.
  - reflexivity.
  - simpl. intros H. apply Qle_bool_iff in H. discriminate.
Qed.

(** The comparison of a route edge with a graph edge is oriented: a
    route that runs an edge from its second node to its first is not
    counted on it, and the flow of the edge is set to zero. *)
Lemma c1c2_reversed_route_not_counted :
  getAllPossibleRoutes set_iter_first 4 two_parallel [mkDemand "C" "A" 120]
  = Ok ([[[("C", "A", KInt 0)]; [("C", "A", KInt 1)]]], two_parallel)
  /\ exists rest,
       addC1C2Constraints demo_graph
         [[[("C", "A", KInt 0)]; [("C", "A", KInt 1)]]] demo_flows
         fresh_optimize
       = Ok (with_assertions fresh_optimize
               (FEq (Real "f_A-C-red") (ENum 0) :: rest)).
Proof.
  split; [vm_compute; reflexivity |].
  eexists. vm_compute. reflexivity.
Qed.

Lemma addC3C4Constraints_extends (g : MultiGraph) (R_ij : list (list route))
  (f_R_vars : list (list pyval)) (demands : list demand) (s s' : solver) :
  addC3C4Constraints g R_ij f_R_vars demands s = Ok s' ->
  exists new, s' = with_assertions s new.
Proof.
  intros H. apply c3c4_loop_spec in H. destruct H as [blocks [-> _]].
  now exists (concat blocks).
Qed.

Lemma nonneg_loop_extends (flows : list pyval) :
  forall s s', nonneg_loop flows s = Ok s' ->
    exists new, s' = with_assertions s new.
Proof.
  induction flows as [| f rest IH]; intros s s' H; cbn [nonneg_loop] in H.
  - inversion H. exists []. now rewrite with_assertions_nil.
  - inv_bind H as c Hc. apply IH in H. destruct H as [new ->].
    eexists. rewrite add_with_assertions, with_assertions_app. reflexivity.
Qed.

Lemma addConstraints_extends (g : MultiGraph) (R_ij : list (list route))
  (f_R_vars : list (list pyval)) (demands : list demand) (s s' : solver) :
  addConstraints g R_ij f_R_vars demands s = Ok s' ->
  exists new, s' = with_assertions s new.
Proof.
  unfold addConstraints. intros H.
  inv_bind H as s1 H1. inv_bind H as s2 H2.
  apply addC1C2Constraints_extends in H1. destruct H1 as [n1 ->].
  apply addC3C4Constraints_extends in H2. destruct H2 as [n2 ->].
  apply nonneg_loop_extends in H. destruct H as [n3 ->].
  eexists. rewrite !with_assertions_app. reflexivity.
Qed.

(** ** Scoped use of the solver *)

Lemma firstn_length_app {A : Type} (a b : list A) :
  firstn (length a) (a ++ b) = a.
Proof.
  induction a as [| x a IH]; simpl; [reflexivity | now rewrite IH].
Qed.

(** Whatever is asserted and whatever objective is added after a push
    is gone after the matching pop. *)
Lemma pop_after_push (s : solver) (new : list formula) (objs : list expr) :
  pop (mkSolver (can_minimize s) (assertions s ++ new) (objectives s ++ objs)
                ((length (assertions s), length (objectives s)) :: scopes s))
  = Ok s.
Proof.
  unfold pop. cbn [scopes assertions objectives can_minimize].
  rewrite !firstn_length_app. now destruct s.
Qed.

Lemma pop_push_assertions (s : solver) (new : list formula) :
  pop (with_assertions (push s) new) = Ok s.
Proof.
  pose proof (pop_after_push s new []) as H. rewrite app_nil_r in H. exact H.
Qed.

Lemma minimize_shape (s s' : solver) (objective : pyval) :
  minimize s objective = Ok s' ->
  exists e, objective = VExpr e
            /\ s' = mkSolver (can_minimize s) (assertions s)
                             (objectives s ++ [e]) (scopes s).
Proof.
  unfold minimize. destruct (can_minimize s); [| discriminate].
  destruct objective; try discriminate. intros H. inversion H. eauto.
Qed.

Section StrategyFacts.

Variable z3_model : Type.
Variable z3_check : solver -> check_result z3_model.
Variable as_decimal : z3_model -> expr -> string.
Variable R_ij : list (list route).
Variable demands : list demand.

Lemma optimizeObjective_scoped (g : MultiGraph)
  (f_R_vars : list (list pyval)) (s s' : solver)
  (model : option z3_model) (isSolved : bool) :
  optimizeObjective z3_model z3_check R_ij demands g f_R_vars s
  = Ok (model, isSolved, s') ->
  s' = s /\ (isSolved = false -> model = None)
  /\ (isSolved = true -> model <> None).
Proof.
  unfold optimizeObjective. intros H.
  inv_bind H as s2 H2. inv_bind H as objective Hobj. inv_bind H as s3 H3.
  apply addConstraints_extends in H2. destruct H2 as [new ->].
  apply minimize_shape in H3. destruct H3 as [e [-> ->]].
  change (mkSolver (can_minimize (with_assertions (push s) new))
            (assertions (with_assertions (push s) new))
            (objectives (with_assertions (push s) new) ++ [e])
            (scopes (with_assertions (push s) new)))
    with (mkSolver (can_minimize s) (assertions s ++ new)
            (objectives s ++ [e])
            ((length (assertions s), length (objectives s)) :: scopes s))
    in H.
  rewrite pop_after_push in H.
  destruct (z3_check _); cbn [bind] in H; inversion H; subst;
    repeat split; congruence.
Qed.





End StrategyFacts.



(** ** The pre-assignment of S2 *)












(* ================================================================== *)
(** ** The strategies return on ready inputs *)

Lemma edges_from_data (g : MultiGraph) (ns : list node) :
  forall seen u v k data,
    In (u, v, k, data) (edges_from g seen ns) ->
    exists e, In e (g_edges g) /\ e_data e = data.
Proof.
  induction ns as [| n rest IH]; intros seen u v k data Hin;
    cbn [edges_from] in Hin; [contradiction |].
  apply in_app_or in Hin. destruct Hin as [Hin | Hin]; [| now apply IH in Hin].
  apply in_flat_map in Hin. destruct Hin as [nbr [_ Hin]].
  destruct (mem nbr seen); [contradiction |].
  apply in_map_iff in Hin. destruct Hin as [[k' d'] [Heq Hkd]].
  inversion Heq; subst. unfold keydict in Hkd.
  apply in_map_iff in Hkd. destruct Hkd as [e [He Hin]].
  inversion He; subst. apply filter_In in Hin. exists e. tauto.
Qed.

Lemma edges_view_all (P : dict -> bool) (g : MultiGraph) :
  forallb (fun e => P (e_data e)) (g_edges g) = true ->
  Forall (fun x : node * node * ekey * dict => P (snd x) = true) (edges_view g).
Proof.
  intros Hall. rewrite forallb_forall in Hall.
  apply Forall_forall. intros [[[u v] k] data] Hin.
  apply edges_from_data in Hin. destruct Hin as [e [He <-]].
  now apply Hall.
Qed.

Lemma kd_get_keydict (edges : list edge) (u v : node) (k : ekey) :
  match kd_get (map (fun e => (e_key e, e_data e)) (filter (joins u v) edges)) k
  with
  | Some dd => exists e, In e edges /\ e_data e = dd
  | None => existsb (fun x => joins u v x && ekey_eqb (e_key x) k) edges = false
  end.
Proof.
  induction edges as [| e rest IH]; simpl; [reflexivity |].
  destruct (joins u v e) eqn:Hj; simpl.
  - destruct (ekey_eqb (e_key e) k) eqn:Hk.
    + exists e. split; [now left | reflexivity].
    + destruct (kd_get _ k).
      * destruct IH as [e' [Hin Hd]]. exists e'. split; [now right | assumption].
      * exact IH.
  - destruct (kd_get _ k).
    + destruct IH as [e' [Hin Hd]]. exists e'. split; [now right | assumption].
    + exact IH.
Qed.

Lemma edge_known_data (g : MultiGraph) (u v : node) (k : ekey) :
  edge_known g (u, v, k) = true ->
  exists dd e, edge_data g u v k = Ok dd /\ In e (g_edges g) /\ e_data e = dd.
Proof.
  unfold edge_known, edge_data, adj_getitem, keydict. cbn [fst snd].
  intros Hknown.
  pose proof (kd_get_keydict (g_edges g) u v k) as Hget.
  destruct (map (fun e => (e_key e, e_data e)) (filter (joins u v) (g_edges g)))
    as [| kd kds] eqn:Hkd.
  - simpl in Hget. congruence.
  - cbn [bind]. destruct (kd_get (kd :: kds) k) as [dd |].
    + destruct Hget as [e [Hin Hd]]. now exists dd, e.
    + congruence.
Qed.

Lemma edge_ready_attrs (data : dict) :
  edge_ready data = true ->
  exists f k price,
    dict_get data "f_e" = Some (VExpr f)
    /\ dict_get data "k" = Some (VNum k)
    /\ dict_get data "price" = Some price /\ arith price = true
    /\ forall c, dict_get data "capacity" = Some c -> arith c = true.
Proof.
  unfold edge_ready. intros H.
  destruct (dict_get data "f_e") as [[| | | f] |]; try discriminate.
  destruct (dict_get data "k") as [[| k | |] |]; try discriminate.
  destruct (dict_get data "price") as [price |]; try discriminate.
  apply andb_true_iff in H. destruct H as [Hp Hc].
  exists f, k, price. repeat split; try assumption.
  intros c Hcap. now rewrite Hcap in Hc.
Qed.

Lemma known_edge_attrs (g : MultiGraph) (e : edge_id) :
  graph_ready g = true -> edge_known g e = true ->
  exists f k price,
    edge_attr g e "f_e" = Ok (VExpr f)
    /\ edge_attr g e "k" = Ok (VNum k)
    /\ edge_attr g e "price" = Ok price /\ arith price = true.
Proof.
  intros Hg Hk. destruct e as [[u v] key].
  destruct (edge_known_data g u v key Hk) as [dd [x [Hdd [Hin Hx]]]].
  unfold graph_ready in Hg. rewrite forallb_forall in Hg.
  specialize (Hg x Hin). rewrite Hx in Hg.
  destruct (edge_ready_attrs dd Hg) as [f [k [price [H1 [H2 [H3 [H4 _]]]]]]].
  exists f, k, price. unfold edge_attr, dict_getitem. rewrite Hdd. cbn [bind].
  rewrite H1, H2, H3. auto.
Qed.

Lemma arith_cases (v : pyval) :
  arith v = true -> (exists q, v = VNum q) \/ (exists e, v = VExpr e).
Proof. destruct v; try discriminate; eauto. Qed.

Lemma mapM_to_expr_total (l : list pyval) :
  forallb arith l = true -> exists es, mapM to_expr l = Ok es.
Proof.
  induction l as [| x rest IH]; intros H; simpl; [eauto |].
  simpl in H. apply andb_true_iff in H. destruct H as [Hx Hrest].
  destruct (IH Hrest) as [es ->].
  destruct x; try discriminate; simpl; eauto.
Qed.

Lemma py_sum_from_total (l : list pyval) :
  forall acc, arith acc = true -> forallb arith l = true ->
    exists v, py_sum_from acc l = Ok v /\ arith v = true.
Proof.
  induction l as [| x rest IH]; intros acc Hacc H; simpl; [eauto |].
  simpl in H. apply andb_true_iff in H. destruct H as [Hx Hrest].
  destruct acc, x; try discriminate; simpl; apply IH; auto.
Qed.

Lemma z3_Sum_total (l : list pyval) :
  forallb arith l = true ->
  exists v, z3_Sum l = Ok v /\ arith v = true
            /\ (existsb is_expr l = true -> is_expr v = true).
Proof.
  intros H. unfold z3_Sum. destruct (existsb is_expr l).
  - destruct (mapM_to_expr_total l H) as [es ->]. simpl. eauto.
  - destruct (py_sum_from_total l (VNum 0) eq_refl H) as [v [Hv Ha]].
    exists v. unfold py_sum. repeat split; try assumption. discriminate.
Qed.

Lemma cost_terms_total (g : MultiGraph) (r : route) :
  graph_ready g = true -> forallb (edge_known g) r = true ->
  exists terms,
    mapM (cost_term g) r = Ok terms
    /\ forallb is_expr terms = true /\ length terms = length r.
Proof.
  intros Hg. induction r as [| e rest IH]; intros Hk; simpl; [eauto |].
  simpl in Hk. apply andb_true_iff in Hk. destruct Hk as [He Hrest].
  destruct (IH Hrest) as [terms [-> [Hall Hlen]]].
  destruct (known_edge_attrs g e Hg He) as [f [k [price [H1 [H2 [H3 H4]]]]]].
  unfold cost_term. rewrite H1, H2, H3. cbn [bind py_mul py_arith].
  destruct (arith_cases price H4) as [[q ->] | [x ->]]; cbn;
    eexists; (split; [reflexivity |]); simpl; rewrite Hall, Hlen; auto.
Qed.

Lemma is_expr_arith (l : list pyval) :
  forallb is_expr l = true -> forallb arith l = true.
Proof.
  induction l as [| x rest IH]; simpl; [reflexivity |].
  intros H. apply andb_true_iff in H. destruct H as [Hx Hr].
  rewrite (IH Hr). now destruct x.
Qed.

Lemma all_expr_exists (l : list pyval) :
  forallb is_expr l = true -> l <> [] -> existsb is_expr l = true.
Proof.
  destruct l as [| x rest]; [congruence |]. simpl. intros H _.
  apply andb_true_iff in H. destruct H as [-> _]. reflexivity.
Qed.

(** The cost of a ready route with at least one edge is a z3 term. *)
Lemma compute_route_cost_total (g : MultiGraph) (r : route) :
  graph_ready g = true -> forallb (edge_known g) r = true -> r <> [] ->
  exists c, compute_route_cost g r = Ok (VExpr c).
Proof.
  intros Hg Hk Hne.
  destruct (cost_terms_total g r Hg Hk) as [terms [Ht [Hall Hlen]]].
  unfold compute_route_cost. rewrite Ht. cbn [bind].
  assert (Hterms : terms <> []).
  { destruct terms; [| discriminate]. destruct r; [congruence | discriminate]. }
  pose proof (all_expr_exists terms Hall Hterms) as Hex. rewrite Hex.
  unfold z3_Sum. rewrite Hex.
  destruct (mapM_to_expr_total terms (is_expr_arith terms Hall)) as [es ->].
  simpl. eauto.
Qed.

Lemma price_terms_total (g : MultiGraph) (r : route) :
  graph_ready g = true -> forallb (edge_known g) r = true ->
  exists terms,
    mapM (fun e => edge_attr g e "price") r = Ok terms
    /\ forallb arith terms = true.
Proof.
  intros Hg. induction r as [| e rest IH]; intros Hk; simpl; [eauto |].
  simpl in Hk. apply andb_true_iff in Hk. destruct Hk as [He Hrest].
  destruct (IH Hrest) as [terms [-> Hall]].
  destruct (known_edge_attrs g e Hg He) as [f [k [price [_ [_ [H3 H4]]]]]].
  rewrite H3. cbn [bind]. eexists. split; [reflexivity |].
  simpl. now rewrite H4, Hall.
Qed.

Lemma mapM_py_float_total (l : list pyval) :
  forallb arith l = true -> existsb is_expr l = false ->
  mapM py_float l = Ok l.
Proof.
  induction l as [| x rest IH]; intros Ha He; simpl; [reflexivity |].
  simpl in Ha, He. apply andb_true_iff in Ha. destruct Ha as [Hx Hr].
  apply orb_false_iff in He. destruct He as [Hxe Hre].
  rewrite (IH Hr Hre). destruct x; try discriminate. reflexivity.
Qed.

Lemma compute_route_price_total (g : MultiGraph) (r : route) :
  graph_ready g = true -> forallb (edge_known g) r = true ->
  exists p, compute_route_price g r = Ok p /\ arith p = true.
Proof.
  intros Hg Hk.
  destruct (price_terms_total g r Hg Hk) as [terms [Ht Hall]].
  unfold compute_route_price. rewrite Ht. cbn [bind].
  destruct (existsb is_expr terms) eqn:Hex.
  - destruct (z3_Sum_total terms Hall) as [v [Hv [Ha _]]]. eauto.
  - rewrite (mapM_py_float_total terms Hall Hex). cbn [bind].
    apply (py_sum_from_total terms (VNum 0) eq_refl Hall).
Qed.

(** ** The builders succeed on ready inputs *)


Lemma collect_routes_total (u v : node) (key : ekey) (row : list pyval)
  (routes : list route) :
  forall j acc,
    j + length routes <= length row ->
    forallb arith row = true -> forallb arith acc = true ->
    exists acc', collect_routes u v key row j routes acc = Ok acc'
                 /\ forallb arith acc' = true.
Proof.
  induction routes as [| r rest IH]; intros j acc Hlen Hrow Hacc;
    cbn [collect_routes]; [eauto |].
  simpl in Hlen. destruct (route_uses u v key r).
  - unfold list_getitem.
    destruct (nth_error row j) as [x |] eqn:Hx.
    + cbn [bind]. apply IH; [lia | assumption |].
      rewrite forallb_app, Hacc. simpl. rewrite andb_true_r.
      rewrite forallb_forall in Hrow. apply Hrow.
      now apply nth_error_In in Hx.
    + apply nth_error_None in Hx. lia.
  - apply IH; [lia | assumption | assumption].
Qed.

Lemma collect_demands_total (u v : node) (key : ekey)
  (f_R_vars : list (list pyval)) (R_all : list (list route))
  (R_ij : list (list route)) :
  forall i acc,
    flows_fit R_all f_R_vars ->
    (forall n routes, nth_error R_ij n = Some routes ->
                      nth_error R_all (i + n) = Some routes) ->
    forallb arith acc = true ->
    exists acc', collect_demands u v key f_R_vars i R_ij acc = Ok acc'
                 /\ forallb arith acc' = true.
Proof.
  induction R_ij as [| routes rest IH]; intros i acc Hfit Hsub Hacc;
    cbn [collect_demands]; [eauto |].
  pose proof (Hsub 0 routes eq_refl) as H0. rewrite Nat.add_0_r in H0.
  destruct (Hfit i routes H0) as [row [Hrow [Hlen Harith]]].
  unfold list_getitem. rewrite Hrow. cbn [bind].
  destruct (collect_routes_total u v key row routes 0 acc) as [acc1 [-> Ha1]];
    [simpl; lia | assumption | assumption |].
  cbn [bind]. apply IH; [assumption | | assumption].
  intros n r Hn. replace (S i + n) with (i + S n) by lia.
  now apply (Hsub (S n)).
Qed.

Lemma c1c2_edge_total (R_ij : list (list route)) (f_R_vars : list (list pyval))
  (u v : node) (key : ekey) (data : dict) (s : solver) :
  edge_ready data = true -> flows_fit R_ij f_R_vars ->
  exists s', c1c2_edge R_ij f_R_vars (u, v, key, data) s = Ok s'.
Proof.
  intros Hready Hfit.
  destruct (edge_ready_attrs data Hready)
    as [f [k [price [Hf [Hk [Hp [Hparith Hcap]]]]]]].
  unfold c1c2_edge, dict_getitem. rewrite Hf, Hp. cbn [bind].
  destruct (collect_demands_total u v key f_R_vars R_ij R_ij 0 [] Hfit
              (fun n routes H => H) eq_refl) as [flows [-> Hflows]].
  cbn [bind].
  assert (H1 : exists s1,
             match flows with
             | [] => c <- py_eq (VExpr f) (VNum 0) ;; Ok (add s c)
             | _ :: _ =>
                 total <- z3_Sum flows ;;
                 if is_expr total
                 then c <- py_eq (VExpr f) total ;; Ok (add s c)
                 else Ok s
             end = Ok s1).
  { destruct flows as [| x xs]; [simpl; eauto |].
    destruct (z3_Sum_total (x :: xs) Hflows) as [total [-> [Ha _]]].
    cbn [bind]. destruct total; try discriminate; simpl; eauto. }
  destruct H1 as [s1 ->]. cbn [bind].
  change (py_le (VNum 0) (VExpr f)) with (Ok (FGe f (ENum 0))). cbn [bind].
  assert (H2 : exists upper,
             py_le (VExpr f)
                   match dict_get data "capacity" with
                   | Some c => c
                   | None => VExpr (Int 500)
                   end = Ok upper).
  { destruct (dict_get data "capacity") as [c |] eqn:Hc; [| simpl; eauto].
    specialize (Hcap c eq_refl). destruct c; try discriminate; simpl; eauto. }
  destruct H2 as [upper ->]. cbn [bind].
  destruct price; try discriminate; simpl; eauto.
Qed.

Lemma addC1C2Constraints_total (g : MultiGraph) (R_ij : list (list route))
  (f_R_vars : list (list pyval)) (s : solver) :
  graph_ready g = true -> flows_fit R_ij f_R_vars ->
  exists new,
    addC1C2Constraints g R_ij f_R_vars s = Ok (with_assertions s new).
Proof.
  intros Hg Hfit.
  assert (H : exists s', addC1C2Constraints g R_ij f_R_vars s = Ok s').
  { unfold addC1C2Constraints.
    pose proof (edges_view_all edge_ready g Hg) as Hview.
    revert s. induction Hview as [| [[[u v] k] data] rest Hx _ IH]; intros s;
      cbn [c1c2_loop]; [eauto |].
    destruct (c1c2_edge_total R_ij f_R_vars u v k data s Hx Hfit) as [s1 ->].
    cbn [bind]. apply IH. }
  destruct H as [s' H]. destruct (addC1C2Constraints_extends _ _ _ _ _ H)
    as [new ->]. now exists new.
Qed.

Lemma wardrop_route_total (g : MultiGraph) (i : nat) (f_R : pyval) (r : route)
  (s : solver) :
  graph_ready g = true -> forallb (edge_known g) r = true -> r <> [] ->
  arith f_R = true ->
  exists s', wardrop_route g (T_var i) f_R r s = Ok s'.
Proof.
  intros Hg Hk Hne Hf.
  destruct (compute_route_cost_total g r Hg Hk Hne) as [c Hc].
  destruct (compute_route_price_total g r Hg Hk) as [p [Hp Hpa]].
  unfold wardrop_route. rewrite Hc, Hp. cbn [bind].
  destruct f_R; try discriminate; destruct p; try discriminate;
    simpl; eauto.
Qed.

Lemma wardrop_routes_total (g : MultiGraph) (i : nat) (row : list pyval)
  (routes : list route) :
  graph_ready g = true ->
  forallb (fun r => negb (is_nil r) && forallb (edge_known g) r) routes = true ->
  forallb arith row = true ->
  forall j s,
    j + length routes <= length row ->
    exists s', wardrop_routes g (T_var i) row j routes s = Ok s'.
Proof.
  intros Hg Hroutes Hrow.
  induction routes as [| r rest IH]; intros j s Hlen; cbn [wardrop_routes];
    [eauto |].
  simpl in Hroutes, Hlen. apply andb_true_iff in Hroutes.
  destruct Hroutes as [Hr Hrest]. apply andb_true_iff in Hr.
  destruct Hr as [Hnil Hknown].
  unfold list_getitem. destruct (nth_error row j) as [f_R |] eqn:Hj.
  - cbn [bind].
    assert (Hf : arith f_R = true).
    { rewrite forallb_forall in Hrow. apply Hrow.
      now apply nth_error_In in Hj. }
    assert (Hne : r <> []) by (destruct r; [discriminate | discriminate]).
    destruct (wardrop_route_total g i f_R r s Hg Hknown Hne Hf) as [s1 ->].
    cbn [bind]. apply IH; [assumption | lia].
  - apply nth_error_None in Hj. lia.
Qed.

Lemma py_eq_sum_total (row : list pyval) (d : Q) :
  forallb arith row = true ->
  exists f_R_sum c, z3_Sum row = Ok f_R_sum /\ py_eq f_R_sum (VNum d) = Ok c.
Proof.
  intros H. destruct (z3_Sum_total row H) as [v [Hv [Ha _]]].
  exists v. destruct v; try discriminate; simpl; eauto.
Qed.

Lemma c3c4_loop_total (g : MultiGraph) (R_ij : list (list route))
  (f_R_vars : list (list pyval)) (demands : list demand) :
  graph_ready g = true -> routes_ready g R_ij = true ->
  flows_fit R_ij f_R_vars ->
  forall i s,
    i + length demands <= length R_ij ->
    exists s', c3c4_loop g R_ij f_R_vars i demands s = Ok s'.
Proof.
  intros Hg Hroutes Hfit.
  induction demands as [| dem rest IH]; intros i s Hlen; cbn [c3c4_loop];
    [eauto |].
  simpl in Hlen.
  destruct (negb (has_node g (dem_s dem)) || negb (has_node g (dem_t dem)));
    [apply IH; lia |].
  destruct (nth_error R_ij i) as [routes |] eqn:Hi;
    [| apply nth_error_None in Hi; lia].
  destruct (Hfit i routes Hi) as [row [Hrow [Hlenrow Harith]]].
  unfold list_getitem. rewrite Hrow, Hi. cbn [bind].
  destruct (py_eq_sum_total row (dem_d dem) Harith) as [sum [c [Hsum Hc]]].
  rewrite Hsum. cbn [bind]. rewrite Hc. cbn [bind].
  assert (Hr : forallb (fun r => negb (is_nil r) && forallb (edge_known g) r)
                       routes = true).
  { unfold routes_ready in Hroutes. rewrite forallb_forall in Hroutes.
    apply Hroutes. now apply nth_error_In in Hi. }
  destruct (wardrop_routes_total g i row routes Hg Hr Harith 0 (add s c))
    as [s2 ->]; [simpl; lia |].
  cbn [bind]. apply IH. lia.
Qed.

Lemma nonneg_loop_total (flows : list pyval) :
  forallb arith flows = true ->
  forall s, exists s', nonneg_loop flows s = Ok s'.
Proof.
  induction flows as [| f rest IH]; intros H s; cbn [nonneg_loop]; [eauto |].
  simpl in H. apply andb_true_iff in H. destruct H as [Hf Hrest].
  destruct f; try discriminate; simpl; apply IH; assumption.
Qed.


(** What the builders need of the flow matrix: its shape, and that all
    its entries are numbers or terms. *)
Lemma addConstraints_total (g : MultiGraph) (R_ij : list (list route))
  (f_R_vars : list (list pyval)) (demands : list demand) (s : solver) :
  graph_ready g = true -> routes_ready g R_ij = true ->
  flows_fit R_ij f_R_vars -> forallb arith (concat f_R_vars) = true ->
  length demands = length R_ij ->
  exists new,
    addConstraints g R_ij f_R_vars demands s = Ok (with_assertions s new).
Proof.
  intros Hg Hroutes Hfit Hall Hlen.
  assert (H : exists s', addConstraints g R_ij f_R_vars demands s = Ok s').
  { unfold addConstraints.
    destruct (addC1C2Constraints_total g R_ij f_R_vars s Hg Hfit) as [n1 ->].
    cbn [bind]. unfold addC3C4Constraints.
    destruct (c3c4_loop_total g R_ij f_R_vars demands Hg Hroutes Hfit 0
                (with_assertions s n1)) as [s2 ->]; [simpl; lia |].
    cbn [bind]. now apply nonneg_loop_total. }
  destruct H as [s' H]. destruct (addConstraints_extends _ _ _ _ _ _ H)
    as [new ->]. now exists new.
Qed.

(** ** The objective *)




(** ** Rewriting edge data keeps the edges *)

Lemma dict_get_set_same (dd : dict) (k : string) (v : pyval) :
  dict_get (dict_set dd k v) k = Some v.
Proof.
  induction dd as [| [k' v'] rest IH]; simpl.
  - now rewrite String.eqb_refl.
  - destruct (String.eqb k' k) eqn:Hk; simpl; rewrite Hk; [reflexivity | apply IH].
Qed.

Lemma dict_get_set_other (dd : dict) (k k' : string) (v : pyval) :
  k <> k' -> dict_get (dict_set dd k v) k' = dict_get dd k'.
Proof.
  intros Hne. induction dd as [| [k0 v0] rest IH]; simpl.
  - apply String.eqb_neq in Hne. now rewrite Hne.
  - destruct (String.eqb k0 k) eqn:Hk; simpl.
    + apply String.eqb_eq in Hk. subst k0.
      apply String.eqb_neq in Hne. now rewrite Hne.
    + destruct (String.eqb k0 k'); [reflexivity | apply IH].
Qed.

Lemma update_edge_same_edge (u v : node) (k : ekey) (f : dict -> dict)
  (e : edge) :
  e_u (update_edge u v k f e) = e_u e
  /\ e_v (update_edge u v k f e) = e_v e
  /\ e_key (update_edge u v k f e) = e_key e.
Proof.
  unfold update_edge. destruct (joins u v e && ekey_eqb (e_key e) k); auto.
Qed.

Lemma update_edge_data_known (g : MultiGraph) (u v : node) (k : ekey)
  (f : dict -> dict) (e : edge_id) :
  edge_known (update_edge_data g u v k f) e = edge_known g e.
Proof.
  unfold edge_known, update_edge_data. cbn [g_edges].
  induction (g_edges g) as [| x rest IH]; [reflexivity |].
  cbn [map existsb]. rewrite IH. f_equal.
  destruct (update_edge_same_edge u v k f x) as [Hu [Hv Hk]].
  unfold joins. now rewrite Hu, Hv, Hk.
Qed.

Lemma update_edge_data_all (P : dict -> bool) (g : MultiGraph) (u v : node)
  (k : ekey) (d' : dict) :
  forallb (fun e => P (e_data e)) (g_edges g) = true -> P d' = true ->
  forallb (fun e => P (e_data e))
          (g_edges (update_edge_data g u v k (fun _ => d'))) = true.
Proof.
  unfold update_edge_data. cbn [g_edges]. intros Hall Hd.
  induction (g_edges g) as [| x rest IH]; [reflexivity |].
  simpl in Hall. apply andb_true_iff in Hall. destruct Hall as [Hx Hrest].
  cbn [map forallb]. rewrite (IH Hrest), andb_true_r.
  unfold update_edge. destruct (joins u v x && ekey_eqb (e_key x) k);
    [exact Hd | exact Hx].
Qed.

Lemma mutate_edges_total (P : dict -> bool) (f : dict -> result dict) :
  (forall d, P d = true -> exists d', f d = Ok d' /\ P d' = true) ->
  forall view g,
    Forall (fun x : node * node * ekey * dict => P (snd x) = true) view ->
    forallb (fun e => P (e_data e)) (g_edges g) = true ->
    exists g1,
      mutate_edges f view g = Ok g1
      /\ forallb (fun e => P (e_data e)) (g_edges g1) = true
      /\ (forall e, edge_known g1 e = edge_known g e)
      /\ g_nodes g1 = g_nodes g.
Proof.
  intros Hf. induction view as [| [[[u v] k] data] rest IH]; intros g Hview Hg.
  - exists g. repeat split; auto.
  - inversion Hview as [| ? ? Hx Hrest]; subst. cbn [snd] in Hx.
    destruct (Hf data Hx) as [d' [Hd' HP]].
    cbn [mutate_edges]. rewrite Hd'. cbn [bind].
    destruct (IH (update_edge_data g u v k (fun _ => d')) Hrest
                 (update_edge_data_all P g u v k d' Hg HP))
      as [g1 [H1 [H2 [H3 H4]]]].
    exists g1. repeat split; try assumption.
    intros e. rewrite H3. apply update_edge_data_known.
Qed.



Lemma fix_price_ready (p : Q) (d : dict) :
  edge_ready d = true ->
  exists d', Ok (fix_price p d) = Ok d' /\ edge_ready d' = true.
Proof.
  intros H. exists (fix_price p d). split; [reflexivity |].
  unfold fix_price.
  destruct (dict_get d "price") as [[| | | e] |] eqn:Hp; try assumption.
  unfold edge_ready in *.
  rewrite dict_get_set_same.
  rewrite !dict_get_set_other by discriminate.
  destruct (dict_get d "f_e") as [[| | | f] |]; try discriminate.
  destruct (dict_get d "k") as [[| k | |] |]; try discriminate.
  rewrite Hp in H. exact H.
Qed.

Lemma set_capacity_ready (c : Z) (d : dict) :
  edge_ready d = true ->
  exists d', set_capacity c d = Ok d' /\ edge_ready d' = true.
Proof.
  intros H. eexists. split; [reflexivity |].
  unfold edge_ready in *.
  rewrite dict_get_set_same.
  rewrite !dict_get_set_other by discriminate.
  destruct (dict_get d "f_e") as [[| | | f] |]; try discriminate.
  destruct (dict_get d "k") as [[| k | |] |]; try discriminate.
  destruct (dict_get d "price") as [price |]; try discriminate.
  apply andb_true_iff in H. destruct H as [-> _]. reflexivity.
Qed.

Lemma bump_capacity_ready (d : dict) :
  edge_ready d && edge_capped d = true ->
  exists d', bump_capacity d = Ok d'
             /\ edge_ready d' && edge_capped d' = true.
Proof.
  intros H. apply andb_true_iff in H. destruct H as [Hr Hc].
  unfold bump_capacity, dict_getitem. unfold edge_capped in Hc.
  destruct (dict_get d "capacity") as [c |] eqn:Hcap; [| discriminate].
  cbn [bind].
  assert (Hadd : exists c', py_add c (VNum C_Delta) = Ok c' /\ arith c' = true).
  { destruct c; try discriminate; simpl; eauto. }
  destruct Hadd as [c' [-> Hc']]. cbn [bind]. eexists. split; [reflexivity |].
  unfold edge_ready, edge_capped in *.
  rewrite dict_get_set_same.
  rewrite !dict_get_set_other by discriminate.
  destruct (dict_get d "f_e") as [[| | | f] |]; try discriminate.
  destruct (dict_get d "k") as [[| k | |] |]; try discriminate.
  destruct (dict_get d "price") as [price |]; try discriminate.
  apply andb_true_iff in Hr. destruct Hr as [-> _]. now rewrite Hc'.
Qed.

Lemma forallb_weaken {A : Type} (P Q' : A -> bool) (l : list A) :
  (forall x, P x = true -> Q' x = true) ->
  forallb P l = true -> forallb Q' l = true.
Proof.
  intros Himp H. rewrite forallb_forall in *. auto.
Qed.

(** ** The pre-assignment succeeds when no price total is zero *)








Section StrategyTotality.

Variable z3_model : Type.
Variable z3_check : solver -> check_result z3_model.
Variable as_decimal : z3_model -> expr -> string.
Variable R_ij : list (list route).
Variable demands : list demand.

Hypothesis demands_fit : length demands = length R_ij.



Lemma mutate_edges_infallible (f : dict -> dict) :
  forall view g, exists g1, mutate_edges (fun d => Ok (f d)) view g = Ok g1.
Proof.
  induction view as [| [[[u v] k] data] rest IH]; intros g;
    cbn [mutate_edges bind]; eauto.
Qed.




End StrategyTotality.





(* ================================================================== *)
(** ** Reading back a written graph *)

Lemma joins_sym (a b : node) (e : edge) : joins a b e = joins b a e.
Proof. unfold joins. apply orb_comm. Qed.

Lemma keydict_sym (g : MultiGraph) (a b : node) : keydict g a b = keydict g b a.
Proof.
  unfold keydict. f_equal. apply filter_ext. intros e. apply joins_sym.
Qed.

Lemma combine_append {A B : Type} (a b : list A) (c d : list B) :
  length a = length c -> combine (a ++ b) (c ++ d) = combine a c ++ combine b d.
Proof.
  revert c. induction a as [| x a IH]; intros [| y c] H; try discriminate;
    [reflexivity |].
  simpl. f_equal. apply IH. now inversion H.
Qed.

Lemma numbered_snoc (ds : list dict) (d : dict) :
  numbered (ds ++ [d]) = numbered ds ++ [(KInt (length ds), d)].
Proof.
  unfold numbered. rewrite length_app. simpl.
  rewrite Nat.add_1_r, seq_S, map_app. simpl.
  rewrite combine_append; [reflexivity |].
  now rewrite length_map, length_seq.
Qed.

Lemma numbered_length (ds : list dict) : length (numbered ds) = length ds.
Proof.
  unfold numbered. rewrite length_combine, length_map, length_seq.
  apply Nat.min_id.
Qed.

Lemma numbered_snd (ds : list dict) : map snd (numbered ds) = ds.
Proof.
  induction ds as [| d rest IH] using rev_ind; [reflexivity |].
  rewrite numbered_snoc, map_app, IH. reflexivity.
Qed.

Lemma kd_get_app (a b : list (ekey * dict)) (k : ekey) :
  kd_get (a ++ b) k = match kd_get a k with
                      | Some d => Some d
                      | None => kd_get b k
                      end.
Proof.
  induction a as [| [k' d] rest IH]; [reflexivity |].
  simpl. destruct (ekey_eqb k' k); [reflexivity | apply IH].
Qed.

Lemma kd_get_numbered_fresh (ds : list dict) (n : nat) :
  length ds <= n -> kd_get (numbered ds) (KInt n) = None.
Proof.
  induction ds as [| d rest IH] using rev_ind; intros Hn; [reflexivity |].
  rewrite length_app in Hn. simpl in Hn.
  rewrite numbered_snoc, kd_get_app, IH by lia. simpl.
  destruct (Nat.eqb (length rest) n) eqn:E; [| reflexivity].
  apply Nat.eqb_eq in E. lia.
Qed.

Lemma new_edge_key_numbered (g : MultiGraph) (u v : node) :
  keydict g u v = numbered (map snd (keydict g u v)) ->
  new_edge_key g u v = KInt (length (keydict g u v))
  /\ kd_get (keydict g u v) (KInt (length (keydict g u v))) = None.
Proof.
  intros Hnum.
  assert (Hfresh : kd_get (keydict g u v) (KInt (length (keydict g u v)))
                   = None).
  { rewrite Hnum at 1. apply kd_get_numbered_fresh.
    now rewrite length_map. }
  split; [| exact Hfresh].
  unfold new_edge_key. cbn [new_edge_key_from]. now rewrite Hfresh.
Qed.

Lemma add_edge_auto (g : MultiGraph) (u v : node) (attr : dict) :
  keydict g u v = numbered (map snd (keydict g u v)) ->
  add_edge g u v None attr
  = mkGraph (add_node (add_node (g_nodes g) u) v)
            (g_edges g ++ [mkEdge u v (KInt (length (keydict g u v)))
                                  (dict_update [] attr)]).
Proof.
  intros Hnum. destruct (new_edge_key_numbered g u v Hnum) as [Hkey Hfresh].
  unfold add_edge. rewrite Hkey, Hfresh. reflexivity.
Qed.

Lemma parse_edgelist_snoc (lines : list edge_line) (l : edge_line) :
  parse_edgelist (lines ++ [l])
  = add_edge (parse_edgelist lines) (l_u l) (l_v l) None (l_attrs l).
Proof. unfold parse_edgelist. now rewrite fold_left_app. Qed.

Lemma line_joins_edge (a b : node) (l : edge_line) (k : ekey) (d : dict) :
  joins a b (mkEdge (l_u l) (l_v l) k d) = line_joins a b l.
Proof. reflexivity. Qed.

Lemma joins_same_pair (a b u v : node) (k : ekey) (d : dict) (g : MultiGraph) :
  joins a b (mkEdge u v k d) = true -> keydict g a b = keydict g u v.
Proof.
  unfold joins. cbn [e_u e_v]. intros H.
  apply orb_true_iff in H. destruct H as [H | H];
    apply andb_true_iff in H; destruct H as [H1 H2];
    apply String.eqb_eq in H1; apply String.eqb_eq in H2; subst.
  - reflexivity.
  - apply keydict_sym.
Qed.

(** The key dictionaries of a parsed edge list: for every node pair, the
    dictionaries of the lines that join the pair, keyed 0, 1, 2, ... *)
Lemma parse_edgelist_keydict (lines : list edge_line) :
  forall a b,
    keydict (parse_edgelist lines) a b
    = numbered (map (fun l => dict_update [] (l_attrs l))
                    (filter (line_joins a b) lines)).
Proof.
  induction lines as [| l rest IH] using rev_ind; intros a b; [reflexivity |].
  rewrite parse_edgelist_snoc.
  assert (Hnum : forall x y,
             keydict (parse_edgelist rest) x y
             = numbered (map snd (keydict (parse_edgelist rest) x y))).
  { intros x y. rewrite IH at 1. now rewrite IH, numbered_snd. }
  rewrite (add_edge_auto _ _ _ _ (Hnum (l_u l) (l_v l))).
  unfold keydict at 1. cbn [g_edges].
  rewrite filter_app, map_app. fold (keydict (parse_edgelist rest) a b).
  rewrite filter_app. cbn [filter].
  rewrite line_joins_edge.
  destruct (line_joins a b l) eqn:Hj.
  - cbn [map app]. rewrite map_app. cbn [map]. rewrite numbered_snoc.
    rewrite <- IH. f_equal. f_equal. f_equal.
    rewrite length_map.
    rewrite <- (joins_same_pair a b (l_u l) (l_v l) (KInt 0) [] _ Hj).
    rewrite IH, numbered_length, length_map. reflexivity.
  - cbn [map]. rewrite !app_nil_r. apply IH.
Qed.

(** *** Dictionaries keep distinct keys *)

Lemma dict_set_keys (dd : dict) (k : string) (v : pyval) :
  map fst (dict_set dd k v)
  = if existsb (String.eqb k) (map fst dd) then map fst dd
    else map fst dd ++ [k].
Proof.
  induction dd as [| [k' v'] rest IH]; simpl; [reflexivity |].
  rewrite (String.eqb_sym k k').
  destruct (String.eqb k' k) eqn:Hk; simpl; [reflexivity |].
  rewrite IH. now destruct (existsb (String.eqb k) (map fst rest)).
Qed.

Lemma dict_set_distinct (dd : dict) (k : string) (v : pyval) :
  keys_distinct dd -> keys_distinct (dict_set dd k v).
Proof.
  unfold keys_distinct. intros H. rewrite dict_set_keys.
  destruct (existsb (String.eqb k) (map fst dd)) eqn:Hex; [assumption |].
  apply NoDup_app; [assumption | repeat constructor; intros [] |].
  intros x Hx [Heq | []]. subst x.
  assert (Hk : existsb (String.eqb k) (map fst dd) = true).
  { apply existsb_exists. exists k. split; [assumption | apply String.eqb_refl]. }
  congruence.
Qed.

Lemma dict_update_distinct (new dd : dict) :
  keys_distinct dd -> keys_distinct (dict_update dd new).
Proof.
  unfold dict_update. revert dd.
  induction new as [| [k v] rest IH]; intros dd H; [assumption |].
  simpl. apply IH. now apply dict_set_distinct.
Qed.





Lemma clean_attributes_get (dd : dict) (k : string) :
  dict_get (clean_attributes dd) k
  = match dict_get dd k with
    | Some v => Some (if is_expr v then VNone else v)
    | None => None
    end.
Proof.
  induction dd as [| [k' v] rest IH]; [reflexivity |].
  simpl. destruct (is_expr v) eqn:Hv; simpl;
    destruct (String.eqb k' k); try (now rewrite ?Hv); apply IH.
Qed.

(** *** The shape of a parsed edge list *)

Lemma add_node_NoDup (ns : list node) (n : node) :
  NoDup ns -> NoDup (add_node ns n).
Proof.
  unfold add_node. intros H. destruct (mem n ns) eqn:Hm; [assumption |].
  apply mem_not_In in Hm. apply NoDup_app; [assumption | |].
  - repeat constructor. intros [].
  - intros x Hx [<- | []]. contradiction.
Qed.

Lemma add_node_In (ns : list node) (n x : node) :
  In x (add_node ns n) <-> In x ns \/ x = n.
Proof.
  unfold add_node. destruct (mem n ns) eqn:Hm.
  - apply mem_In in Hm. split; [tauto |]. intros [H | ->]; assumption.
  - rewrite in_app_iff. simpl. split; [intros [H | [H | []]] | intros [H | H]];
      auto.
Qed.

Lemma parse_edgelist_shape (lines : list edge_line) :
  parsed_shape (parse_edgelist lines).
Proof.
  assert (Hkeys : forall ls a b,
             keydict (parse_edgelist ls) a b
             = numbered (map snd (keydict (parse_edgelist ls) a b))).
  { intros ls a b. rewrite parse_edgelist_keydict at 1.
    now rewrite parse_edgelist_keydict, numbered_snd. }
  induction lines as [| l rest IH] using rev_ind.
  - constructor; simpl; try (intros; contradiction).
    + constructor.
    + reflexivity.
  - constructor; [| | apply Hkeys |];
      rewrite parse_edgelist_snoc, (add_edge_auto _ _ _ _ (Hkeys rest _ _));
      cbn [g_nodes g_edges].
    + apply add_node_NoDup, add_node_NoDup, (shape_nodes _ IH).
    + intros e He. rewrite !add_node_In. apply in_app_or in He.
      destruct He as [He | [<- | []]].
      * destruct (shape_ends _ IH e He). tauto.
      * simpl. tauto.
    + intros e He. apply in_app_or in He. destruct He as [He | [<- | []]].
      * now apply (shape_data _ IH).
      * simpl. apply dict_update_distinct. constructor.
Qed.

(** *** Rewriting the data of every edge *)

Lemma keydict_map_data (h : dict -> dict) (g : MultiGraph) (a b : node) :
  keydict (map_data h g) a b
  = map (fun kd => (fst kd, h (snd kd))) (keydict g a b).
Proof.
  unfold keydict, map_data. cbn [g_edges].
  induction (g_edges g) as [| e rest IH]; [reflexivity |].
  cbn [map filter].
  change (joins a b (mkEdge (e_u e) (e_v e) (e_key e) (h (e_data e))))
    with (joins a b e).
  destruct (joins a b e); cbn [map]; now rewrite IH.
Qed.

Lemma neighbors_map_data (h : dict -> dict) (g : MultiGraph) (u : node) :
  neighbors (map_data h g) u = neighbors g u.
Proof.
  unfold neighbors, map_data. cbn [g_edges]. f_equal.
  induction (g_edges g) as [| e rest IH]; [reflexivity |].
  cbn [map flat_map]. now rewrite IH.
Qed.

Lemma edges_from_map_data (h : dict -> dict) (g : MultiGraph)
  (ns : list node) :
  forall seen,
    edges_from (map_data h g) seen ns
    = map (fun x : node * node * ekey * dict =>
             let '(u, v, k, d) := x in (u, v, k, h d))
          (edges_from g seen ns).
Proof.
  induction ns as [| n rest IH]; intros seen; [reflexivity |].
  cbn [edges_from]. rewrite map_app, IH. f_equal.
  rewrite neighbors_map_data.
  induction (neighbors g n) as [| nbr nbrs IHn]; [reflexivity |].
  cbn [flat_map]. rewrite map_app, IHn. f_equal.
  destruct (mem nbr seen); [reflexivity |].
  rewrite keydict_map_data, !map_map. reflexivity.
Qed.

Lemma edges_view_map_data (h : dict -> dict) (g : MultiGraph) :
  edges_view (map_data h g)
  = map (fun x : node * node * ekey * dict =>
           let '(u, v, k, d) := x in (u, v, k, h d))
        (edges_view g).
Proof. apply edges_from_map_data. Qed.


(** *** Every edge is reported once *)

Lemma uniq_from_NoDup (l : list node) :
  forall seen, NoDup (uniq_from seen l)
               /\ forall x, In x (uniq_from seen l) -> ~ In x seen.
Proof.
  induction l as [| y rest IH]; intros seen; simpl.
  - split; [constructor | intros x []].
  - destruct (mem y seen) eqn:Hm; [apply IH |].
    apply mem_not_In in Hm. destruct (IH (y :: seen)) as [Hnd Hfresh]. split.
    + constructor; [| assumption]. intros Hin. apply (Hfresh y Hin). now left.
    + intros x [<- | Hx]; [assumption |].
      intros Hs. apply (Hfresh x Hx). now right.
Qed.

Lemma neighbors_NoDup (g : MultiGraph) (u : node) : NoDup (neighbors g u).
Proof. apply uniq_from_NoDup. Qed.

Lemma flat_map_single {B : Type} (w : node) (X : list B) (L : list node) :
  NoDup L ->
  flat_map (fun x => if String.eqb x w then X else []) L
  = if mem w L then X else [].
Proof.
  induction 1 as [| y rest Hy Hnd IH]; [reflexivity |].
  cbn [flat_map mem existsb]. rewrite IH. fold (mem w rest).
  rewrite (String.eqb_sym w y).
  destruct (String.eqb y w) eqn:Hyw; [| reflexivity].
  apply String.eqb_eq in Hyw. subst y.
  apply mem_not_In in Hy. rewrite Hy. simpl. apply app_nil_r.
Qed.

Lemma flat_map_nothing {A B : Type} (F : A -> list B) (L : list A) :
  (forall x, F x = []) -> flat_map F L = [].
Proof.
  intros H. induction L as [| y rest IH]; [reflexivity |].
  simpl. now rewrite H, IH.
Qed.

Lemma filter_entries (a b n nbr : node) (kd : list (ekey * dict)) :
  map entry_item
      (filter (entry_joins a b)
              (map (fun x : ekey * dict => (n, nbr, fst x, snd x)) kd))
  = if (String.eqb n a && String.eqb nbr b) || (String.eqb n b && String.eqb nbr a)
    then kd else [].
Proof.
  induction kd as [| [k d] rest IH]; simpl.
  - now destruct ((String.eqb n a && String.eqb nbr b)
                  || (String.eqb n b && String.eqb nbr a)).
  - destruct ((String.eqb n a && String.eqb nbr b)
              || (String.eqb n b && String.eqb nbr a)); simpl;
      rewrite IH; reflexivity.
Qed.

Lemma map_filter_flat_map {A B C : Type} (p : B -> bool) (q : B -> C)
  (F : A -> list B) (L : list A) :
  map q (filter p (flat_map F L)) = flat_map (fun x => map q (filter p (F x))) L.
Proof.
  induction L as [| y rest IH]; [reflexivity |].
  simpl. now rewrite filter_app, map_app, IH.
Qed.

Lemma not_neighbor_no_edge (g : MultiGraph) (u v : node) :
  mem v (neighbors g u) = false -> keydict g u v = [].
Proof.
  intros Hm. apply mem_not_In in Hm.
  destruct (keydict g u v) eqn:Hkd; [reflexivity |]. exfalso. apply Hm.
  apply adjacent_neighbor. rewrite Hkd. discriminate.
Qed.

(** What one node reports of the edges between [a] and [b]. *)
Lemma report_pair (g : MultiGraph) (a b n : node) (seen : list node) :
  map entry_item
      (filter (entry_joins a b)
         (flat_map (fun nbr =>
                      if mem nbr seen then []
                      else map (fun kd => (n, nbr, fst kd, snd kd))
                               (keydict g n nbr))
                   (neighbors g n)))
  = if String.eqb n a then (if mem b seen then [] else keydict g a b)
    else if String.eqb n b then (if mem a seen then [] else keydict g a b)
    else [].
Proof.
  rewrite map_filter_flat_map.
  destruct (String.eqb n a) eqn:Hna.
  - apply String.eqb_eq in Hna. subst n.
    rewrite (flat_map_ext _
               (fun nbr => if String.eqb nbr b
                           then (if mem b seen then [] else keydict g a b)
                           else [])).
    + rewrite (flat_map_single b _ _ (neighbors_NoDup g a)).
      destruct (mem b (neighbors g a)) eqn:Hm; [reflexivity |].
      rewrite (not_neighbor_no_edge g a b Hm). now destruct (mem b seen).
    + intros nbr. destruct (String.eqb nbr b) eqn:Hb.
      * apply String.eqb_eq in Hb. subst nbr.
        destruct (mem b seen); [reflexivity |].
        rewrite filter_entries, !String.eqb_refl. reflexivity.
      * destruct (mem nbr seen); [reflexivity |].
        rewrite filter_entries, String.eqb_refl, Hb. simpl.
        destruct (String.eqb a b) eqn:Hab; [| reflexivity].
        apply String.eqb_eq in Hab. subst b.
        simpl. now rewrite Hb.
  - destruct (String.eqb n b) eqn:Hnb.
    + apply String.eqb_eq in Hnb. subst n.
      rewrite (flat_map_ext _
                 (fun nbr => if String.eqb nbr a
                             then (if mem a seen then [] else keydict g a b)
                             else [])).
      * rewrite (flat_map_single a _ _ (neighbors_NoDup g b)).
        destruct (mem a (neighbors g b)) eqn:Hm; [reflexivity |].
        rewrite (keydict_sym g a b), (not_neighbor_no_edge g b a Hm).
        now destruct (mem a seen).
      * intros nbr. destruct (String.eqb nbr a) eqn:Ha.
        -- apply String.eqb_eq in Ha. subst nbr.
           destruct (mem a seen); [reflexivity |].
           rewrite filter_entries, Hna, !String.eqb_refl. simpl.
           apply keydict_sym.
        -- destruct (mem nbr seen); [reflexivity |].
           rewrite filter_entries, Hna, String.eqb_refl, Ha. reflexivity.
    + apply flat_map_nothing. intros nbr.
      destruct (mem nbr seen); [reflexivity |].
      rewrite filter_entries, Hna, Hnb. reflexivity.
Qed.

Lemma edges_from_cons (g : MultiGraph) (seen : list node) (n : node)
  (rest : list node) :
  edges_from g seen (n :: rest)
  = flat_map (fun nbr =>
                if mem nbr seen then []
                else map (fun kd => (n, nbr, fst kd, snd kd)) (keydict g n nbr))
             (neighbors g n)
    ++ edges_from g (n :: seen) rest.
Proof. reflexivity. Qed.

Lemma edges_from_pair_none (g : MultiGraph) (a b : node) (ns : list node) :
  forall seen,
    (In a ns -> In b seen) -> (In b ns -> In a seen) ->
    map entry_item (filter (entry_joins a b) (edges_from g seen ns)) = [].
Proof.
  induction ns as [| n rest IH]; intros seen Hab Hba; [reflexivity |].
  rewrite edges_from_cons, filter_app, map_app, report_pair.
  rewrite IH.
  - rewrite app_nil_r.
    destruct (String.eqb n a) eqn:Hna.
    + apply String.eqb_eq in Hna. subst n.
      assert (Hs : mem b seen = true) by (apply mem_In, Hab; now left).
      now rewrite Hs.
    + destruct (String.eqb n b) eqn:Hnb; [| reflexivity].
      apply String.eqb_eq in Hnb. subst n.
      assert (Hs : mem a seen = true) by (apply mem_In, Hba; now left).
      now rewrite Hs.
  - intros H. right. apply Hab. now right.
  - intros H. right. apply Hba. now right.
Qed.

Lemma edges_from_pair_absent (g : MultiGraph) (a b : node) (ns : list node) :
  keydict g a b = [] ->
  forall seen,
    map entry_item (filter (entry_joins a b) (edges_from g seen ns)) = [].
Proof.
  intros Hnone. induction ns as [| n rest IH]; intros seen; [reflexivity |].
  rewrite edges_from_cons, filter_app, map_app, report_pair, IH, Hnone.
  destruct (String.eqb n a), (String.eqb n b), (mem a seen), (mem b seen);
    reflexivity.
Qed.

Lemma edges_from_pair (g : MultiGraph) (a b : node) (ns : list node) :
  NoDup ns ->
  forall seen,
    In a ns -> In b ns -> ~ In a seen -> ~ In b seen ->
    map entry_item (filter (entry_joins a b) (edges_from g seen ns))
    = keydict g a b.
Proof.
  induction 1 as [| n rest Hn Hnd IH]; intros seen Ha Hb Has Hbs;
    [contradiction |].
  rewrite edges_from_cons, filter_app, map_app, report_pair.
  destruct (String.eqb n a) eqn:Hna.
  - apply String.eqb_eq in Hna. subst n.
    apply mem_not_In in Hbs. rewrite Hbs.
    rewrite edges_from_pair_none; [apply app_nil_r | contradiction |].
    intros _. now left.
  - destruct (String.eqb n b) eqn:Hnb.
    + apply String.eqb_eq in Hnb. subst n.
      apply mem_not_In in Has. rewrite Has.
      rewrite edges_from_pair_none; [apply app_nil_r | | contradiction].
      intros _. now left.
    + apply String.eqb_neq in Hna. apply String.eqb_neq in Hnb.
      simpl. apply IH.
      * destruct Ha as [Ha | Ha]; [congruence | assumption].
      * destruct Hb as [Hb | Hb]; [congruence | assumption].
      * intros [H | H]; [congruence | contradiction].
      * intros [H | H]; [congruence | contradiction].
Qed.

Lemma keydict_In_edge (g : MultiGraph) (a b : node) (k : ekey) (d : dict) :
  In (k, d) (keydict g a b) ->
  exists e, In e (g_edges g) /\ joins a b e = true
            /\ e_key e = k /\ e_data e = d.
Proof.
  unfold keydict. intros H. apply in_map_iff in H.
  destruct H as [e [Heq Hin]]. inversion Heq; subst.
  apply filter_In in Hin. exists e. tauto.
Qed.

Lemma joins_ends (a b : node) (e : edge) :
  joins a b e = true ->
  (e_u e = a /\ e_v e = b) \/ (e_u e = b /\ e_v e = a).
Proof.
  unfold joins. intros H. apply orb_true_iff in H.
  destruct H as [H | H]; apply andb_true_iff in H; destruct H as [H1 H2];
    apply String.eqb_eq in H1; apply String.eqb_eq in H2; auto.
Qed.


(** *** A loop over the edge view rewrites every edge once *)

Lemma mutate_edges_apply_all (f : dict -> result dict)
  (view : list (node * node * ekey * dict)) :
  forall g g',
    mutate_edges f view g = Ok g' ->
    g' = mkGraph (g_nodes g)
                 (map (apply_all (result_or_self f) view) (g_edges g)).
Proof.
  induction view as [| [[[u v] k] d] rest IH]; intros g g' H;
    cbn [mutate_edges] in H.
  - inversion H; subst. unfold apply_all. simpl. rewrite map_id.
    now destruct g'.
  - inv_bind H as d' Hd. apply IH in H. subst g'.
    unfold update_edge_data. cbn [g_nodes g_edges]. f_equal.
    rewrite map_map. apply map_ext. intros e.
    assert (Hh : result_or_self f d = d').
    { unfold result_or_self. now rewrite Hd. }
    unfold apply_all. cbn [fold_left]. now rewrite Hh.
Qed.

Lemma mutate_edges_succeeds (f : dict -> result dict)
  (view : list (node * node * ekey * dict)) :
  (forall x, In x view -> exists d', f (snd x) = Ok d') ->
  forall g, exists g', mutate_edges f view g = Ok g'.
Proof.
  induction view as [| [[[u v] k] d] rest IH]; intros Hf g;
    cbn [mutate_edges]; [eauto |].
  destruct (Hf (u, v, k, d) (or_introl eq_refl)) as [d' Hd].
  cbn [snd] in Hd. rewrite Hd. cbn [bind]. apply IH.
  intros x Hx. apply Hf. now right.
Qed.

Lemma apply_all_cons (h : dict -> dict) (u v : node) (k : ekey) (d : dict)
  (rest : list (node * node * ekey * dict)) (e0 : edge) :
  apply_all h ((u, v, k, d) :: rest) e0
  = apply_all h rest (update_edge u v k (fun _ => h d) e0).
Proof. reflexivity. Qed.

Lemma apply_all_fold (h : dict -> dict) (e : edge)
  (view : list (node * node * ekey * dict)) :
  (forall u v k d, In (u, v, k, d) view ->
     joins u v e && ekey_eqb (e_key e) k = true -> d = e_data e) ->
  forall e0,
    e_u e0 = e_u e -> e_v e0 = e_v e -> e_key e0 = e_key e ->
    apply_all h view e0
    = if existsb (fun x : node * node * ekey * dict =>
                    let '(u, v, k, _) := x in
                    joins u v e && ekey_eqb (e_key e) k) view
      then mkEdge (e_u e) (e_v e) (e_key e) (h (e_data e))
      else e0.
Proof.
  induction view as [| [[[u v] k] d] rest IH]; intros Hdata e0 Hu Hv Hk;
    [reflexivity |].
  rewrite apply_all_cons. cbn [existsb].
  assert (Hsame : joins u v e0 && ekey_eqb (e_key e0) k
                  = joins u v e && ekey_eqb (e_key e) k).
  { unfold joins. now rewrite Hu, Hv, Hk. }
  unfold update_edge. rewrite Hsame.
  destruct (joins u v e && ekey_eqb (e_key e) k) eqn:Hm.
  - rewrite (Hdata u v k d (or_introl eq_refl) Hm), Hu, Hv, Hk.
    cbn [orb]. rewrite IH; try reflexivity.
    + now destruct (existsb _ rest).
    + intros u' v' k' d' Hin. apply Hdata. now right.
  - cbn [orb]. apply IH; try assumption.
    intros u' v' k' d' Hin. apply Hdata. now right.
Qed.

Lemma edges_from_item (g : MultiGraph) (ns : list node) :
  forall seen u v k d,
    In (u, v, k, d) (edges_from g seen ns) -> In (k, d) (keydict g u v).
Proof.
  induction ns as [| n rest IH]; intros seen u v k d Hin;
    cbn [edges_from] in Hin; [contradiction |].
  apply in_app_or in Hin. destruct Hin as [Hin | Hin]; [| now apply IH in Hin].
  apply in_flat_map in Hin. destruct Hin as [nbr [_ Hin]].
  destruct (mem nbr seen); [contradiction |].
  apply in_map_iff in Hin. destruct Hin as [[k' d'] [Heq Hkd]].
  inversion Heq; subst. exact Hkd.
Qed.

Lemma assoc_functional {A B : Type} (l : list (A * B)) (k : A) (d1 d2 : B) :
  NoDup (map fst l) -> In (k, d1) l -> In (k, d2) l -> d1 = d2.
Proof.
  induction l as [| [k' d'] rest IH]; intros Hnd H1 H2; [contradiction |].
  simpl in Hnd. inversion Hnd as [| ? ? Hnot Hnd']; subst.
  destruct H1 as [H1 | H1], H2 as [H2 | H2].
  - congruence.
  - inversion H1; subst. exfalso. apply Hnot.
    apply in_map_iff. now exists (k, d2).
  - inversion H2; subst. exfalso. apply Hnot.
    apply in_map_iff. now exists (k, d1).
  - now apply IH.
Qed.

Lemma combine_fst {A B : Type} (a : list A) :
  forall b : list B, length a = length b -> map fst (combine a b) = a.
Proof.
  induction a as [| x a IH]; intros [| y b] H; try discriminate;
    [reflexivity |].
  simpl. f_equal. apply IH. now inversion H.
Qed.

Lemma numbered_keys_NoDup (ds : list dict) : NoDup (map fst (numbered ds)).
Proof.
  unfold numbered. rewrite combine_fst.
  - generalize (seq_NoDup (length ds) 0). generalize (seq 0 (length ds)).
    induction 1 as [| n ns Hn Hnd IH]; simpl; constructor; [| exact IH].
    intros Hin. apply in_map_iff in Hin. destruct Hin as [m [Heq Hm]].
    inversion Heq; subst. contradiction.
  - now rewrite length_map, length_seq.
Qed.

Lemma edge_in_keydict (g : MultiGraph) (u v : node) (e : edge) :
  In e (g_edges g) -> joins u v e = true ->
  In (e_key e, e_data e) (keydict g u v).
Proof.
  intros He Hj. unfold keydict. apply in_map_iff. exists e.
  split; [reflexivity |]. apply filter_In. now split.
Qed.

Lemma joins_own_ends (e : edge) : joins (e_u e) (e_v e) e = true.
Proof. unfold joins. now rewrite !String.eqb_refl. Qed.


Lemma mutate_edges_view_succeeds (f : dict -> result dict) (g : MultiGraph) :
  (forall e, In e (g_edges g) -> exists d', f (e_data e) = Ok d') ->
  exists g', mutate_edges f (edges_view g) g = Ok g'.
Proof.
  intros Hf. apply mutate_edges_succeeds.
  intros [[[u v] k] d] Hin. apply edges_from_data in Hin.
  destruct Hin as [e [He <-]]. now apply Hf.
Qed.

(** *** Parsing, writing, parsing *)











(* ================================================================== *)
(** ** Claims about the constraint builder and the strategies *)







(* ================================================================== *)
(** ** Well-keyed graphs *)

Lemma distinct_NoDup (l : list node) : distinct l = true <-> NoDup l.
Proof.
  induction l as [| x rest IH]; simpl.
  - split; [constructor | reflexivity].
  - rewrite andb_true_iff, negb_true_iff, mem_not_In, IH. split.
    + intros [H1 H2]. now constructor.
    + intros H. inversion H. now split.
Qed.

Lemma joins_shared_ends (a b : node) (e x : edge) :
  joins a b e = true -> joins a b x = joins (e_u e) (e_v e) x.
Proof.
  intros H. destruct (joins_ends a b e H) as [[<- <-] | [<- <-]];
    [reflexivity | apply joins_sym].
Qed.

Lemma keys_unique_NoDup (edges : list edge) :
  keys_unique edges = true ->
  forall a b,
    NoDup (map fst (map (fun e => (e_key e, e_data e))
                        (filter (joins a b) edges))).
Proof.
  induction edges as [| e rest IH]; intros H a b; simpl; [constructor |].
  simpl in H. apply andb_true_iff in H. destruct H as [Hfresh Hrest].
  apply negb_true_iff in Hfresh.
  destruct (joins a b e) eqn:Hj; [| now apply IH].
  simpl. constructor; [| now apply IH].
  intros Hin. rewrite map_map in Hin. apply in_map_iff in Hin.
  destruct Hin as [x [Hk Hx]]. simpl in Hk.
  apply filter_In in Hx. destruct Hx as [Hx Hjx].
  assert (Hex : existsb (fun x => joins (e_u e) (e_v e) x
                                  && ekey_eqb (e_key x) (e_key e)) rest = true).
  { apply existsb_exists. exists x. split; [assumption |].
    rewrite <- (joins_shared_ends a b e x Hj), Hjx, Hk. simpl.
    apply ekey_eqb_refl. }
  congruence.
Qed.

Lemma NoDup_keys_unique (edges : list edge) :
  (forall a b,
     NoDup (map fst (map (fun e => (e_key e, e_data e))
                         (filter (joins a b) edges)))) ->
  keys_unique edges = true.
Proof.
  induction edges as [| e rest IH]; intros H; [reflexivity |].
  simpl. apply andb_true_iff. split.
  - apply negb_true_iff.
    destruct (existsb (fun x => joins (e_u e) (e_v e) x
                                && ekey_eqb (e_key x) (e_key e)) rest) eqn:Hex;
      [| reflexivity].
    apply existsb_exists in Hex. destruct Hex as [x [Hx Hm]].
    apply andb_true_iff in Hm. destruct Hm as [Hj Hk]. apply ekey_eqb_eq in Hk.
    specialize (H (e_u e) (e_v e)). simpl in H. rewrite joins_own_ends in H.
    simpl in H. inversion H as [| ? ? Hnot _]; subst. exfalso. apply Hnot.
    rewrite map_map. apply in_map_iff. exists x. split; [exact Hk |].
    apply filter_In. now split.
  - apply IH. intros a b. specialize (H a b). simpl in H.
    destruct (joins a b e); [| exact H]. simpl in H. now inversion H.
Qed.

Lemma well_keyed_spec (g : MultiGraph) :
  well_keyed g = true
  <-> NoDup (g_nodes g)
      /\ (forall e, In e (g_edges g) ->
            In (e_u e) (g_nodes g) /\ In (e_v e) (g_nodes g))
      /\ forall a b, NoDup (map fst (keydict g a b)).
Proof.
  unfold well_keyed. rewrite !andb_true_iff, distinct_NoDup, forallb_forall.
  split.
  - intros [[Hn He] Hk]. repeat split; try assumption.
    + apply He in H. apply andb_true_iff in H. now apply mem_In.
    + apply He in H. apply andb_true_iff in H. now apply mem_In.
    + intros a b. now apply keys_unique_NoDup.
  - intros [Hn [He Hk]]. repeat split; try assumption.
    + intros e Hin. destruct (He e Hin) as [Hu Hv].
      apply andb_true_iff. split; now apply mem_In.
    + now apply NoDup_keys_unique.
Qed.

Lemma parsed_shape_keyed (g : MultiGraph) : parsed_shape g -> well_keyed g = true.
Proof.
  intros Hg. apply well_keyed_spec. repeat split.
  - exact (shape_nodes _ Hg).
  - now apply (shape_ends _ Hg).
  - now apply (shape_ends _ Hg).
  - intros a b. rewrite (shape_keys _ Hg a b). apply numbered_keys_NoDup.
Qed.

Lemma well_keyed_map_data (h : dict -> dict) (g : MultiGraph) :
  well_keyed g = true -> well_keyed (map_data h g) = true.
Proof.
  intros Hg. apply well_keyed_spec in Hg. destruct Hg as [Hn [He Hk]].
  apply well_keyed_spec. repeat split; try assumption.
  - unfold map_data in H. cbn [g_edges] in H. apply in_map_iff in H.
    destruct H as [e0 [<- Hin]]. exact (proj1 (He e0 Hin)).
  - unfold map_data in H. cbn [g_edges] in H. apply in_map_iff in H.
    destruct H as [e0 [<- Hin]]. exact (proj2 (He e0 Hin)).
  - intros a b. rewrite keydict_map_data, map_map. cbn [fst]. apply Hk.
Qed.

(** The edge view of a well-keyed graph reports, for every node pair,
    the parallel edges between the two nodes. *)
Lemma edges_view_pair_keyed (g : MultiGraph) (a b : node) :
  well_keyed g = true ->
  map entry_item (filter (entry_joins a b) (edges_view g)) = keydict g a b.
Proof.
  intros Hg. apply well_keyed_spec in Hg. destruct Hg as [Hn [He _]].
  unfold edges_view.
  destruct (keydict g a b) as [| [k d] rest] eqn:Hkd.
  - now apply edges_from_pair_absent.
  - rewrite <- Hkd.
    assert (Hin : In (k, d) (keydict g a b)) by (rewrite Hkd; now left).
    destruct (keydict_In_edge g a b k d Hin) as [e [Hin' [Hj _]]].
    destruct (He e Hin') as [Hu Hv].
    apply edges_from_pair; [exact Hn | | | intros [] | intros []];
      destruct (joins_ends a b e Hj) as [[<- <-] | [<- <-]]; assumption.
Qed.

(** Every edge of a well-keyed graph is reported, with its own key and
    data, from one of its two ends. *)
Lemma view_reports_edge (g : MultiGraph) (e : edge) :
  well_keyed g = true -> In e (g_edges g) ->
  exists u v, In (u, v, e_key e, e_data e) (edges_view g)
              /\ joins u v e = true.
Proof.
  intros Hg He.
  pose proof (edge_in_keydict g (e_u e) (e_v e) e He (joins_own_ends e)) as Hin.
  rewrite <- (edges_view_pair_keyed g (e_u e) (e_v e) Hg) in Hin.
  apply in_map_iff in Hin. destruct Hin as [[[[u v] k] d] [Hitem Hin]].
  apply filter_In in Hin. destruct Hin as [Hin Hj].
  simpl in Hitem. inversion Hitem; subst.
  exists u, v. split; [assumption |].
  unfold entry_joins in Hj. unfold joins.
  rewrite (String.eqb_sym (e_u e) u), (String.eqb_sym (e_v e) v),
          (String.eqb_sym (e_u e) v), (String.eqb_sym (e_v e) u).
  rewrite (andb_comm (String.eqb v (e_u e))). exact Hj.
Qed.

(** A reported entry that names an edge of a well-keyed graph carries
    the data of that edge. *)
Lemma view_entry_data (g : MultiGraph) (e : edge) (u v : node) (k : ekey)
  (d : dict) :
  well_keyed g = true -> In e (g_edges g) ->
  In (u, v, k, d) (edges_view g) ->
  joins u v e && ekey_eqb (e_key e) k = true -> d = e_data e.
Proof.
  intros Hg He Hin Hm. apply andb_true_iff in Hm. destruct Hm as [Hj Hk].
  apply ekey_eqb_eq in Hk. subst k.
  apply edges_from_item in Hin.
  pose proof (edge_in_keydict g u v e He Hj) as Hin'.
  apply well_keyed_spec in Hg. destruct Hg as [_ [_ Hkeys]].
  exact (assoc_functional _ _ _ _ (Hkeys u v) Hin Hin').
Qed.

(** In a well-keyed graph a loop over the edge view that rewrites the
    data of the reported edge rewrites every edge, each from its own
    data. *)
Lemma mutate_edges_keyed (f : dict -> result dict) (g g' : MultiGraph) :
  well_keyed g = true ->
  mutate_edges f (edges_view g) g = Ok g' ->
  g' = map_data (result_or_self f) g.
Proof.
  intros Hg H. apply mutate_edges_apply_all in H. subst g'.
  unfold map_data. f_equal. apply map_ext_in. intros e He.
  rewrite (apply_all_fold (result_or_self f) e); try reflexivity.
  - destruct (view_reports_edge g e Hg He) as [u [v [Hin Hj]]].
    assert (Hcover : existsb (fun x : node * node * ekey * dict =>
                                let '(u, v, k, _) := x in
                                joins u v e && ekey_eqb (e_key e) k)
                             (edges_view g) = true).
    { apply existsb_exists. exists (u, v, e_key e, e_data e).
      split; [assumption |]. now rewrite Hj, ekey_eqb_refl. }
    now rewrite Hcover.
  - intros u v k d Hin Hm. exact (view_entry_data g e u v k d Hg He Hin Hm).
Qed.

(* ================================================================== *)
(** ** What the enumerator leaves: routes over edges of the graph *)

Lemma kd_get_known (edges : list edge) (u v : node) (k : ekey) :
  kd_get (map (fun e => (e_key e, e_data e)) (filter (joins u v) edges)) k
  <> None
  <-> existsb (fun x => joins u v x && ekey_eqb (e_key x) k) edges = true.
Proof.
  induction edges as [| e rest IH]; simpl.
  - split; [congruence | discriminate].
  - destruct (joins u v e); simpl; [| exact IH].
    destruct (ekey_eqb (e_key e) k); simpl; [| exact IH].
    split; [reflexivity | discriminate].
Qed.

Lemma edge_known_lookup (g : MultiGraph) (u v : node) (k : ekey) :
  edge_known g (u, v, k) = true <-> exists dd, edge_data g u v k = Ok dd.
Proof.
  split.
  - intros H. destruct (edge_known_data g u v k H) as [dd [_ [Hd _]]]. eauto.
  - intros [dd H]. unfold edge_data, adj_getitem in H.
    apply (kd_get_known (g_edges g) u v k).
    fold (keydict g u v).
    destruct (keydict g u v) as [| kd rest]; [discriminate |].
    cbn [bind] in H. destruct (kd_get (kd :: rest) k); [discriminate | discriminate].
Qed.

Lemma add_edge_nodes (g : MultiGraph) (u v : node) (k : option ekey)
  (attr : dict) :
  g_nodes (add_edge g u v k attr) = add_node (add_node (g_nodes g) u) v.
Proof.
  unfold add_edge.
  destruct (kd_get (keydict g u v)
                   match k with Some key => key | None => new_edge_key g u v end);
    reflexivity.
Qed.

Lemma add_edge_has_node (g : MultiGraph) (u v : node) (k : option ekey)
  (attr : dict) (n : node) :
  has_node (add_edge g u v k attr) n = true
  <-> has_node g n = true \/ n = u \/ n = v.
Proof.
  unfold has_node. rewrite add_edge_nodes, !mem_In, !add_node_In. tauto.
Qed.

Lemma add_edge_known (g : MultiGraph) (u v : node) (key : ekey) (attr : dict)
  (e : edge_id) :
  edge_known g e = true ->
  edge_known (add_edge g u v (Some key) attr) e = true.
Proof.
  intros H. unfold add_edge.
  destruct (kd_get (keydict g u v) key).
  - change (edge_known
              (update_edge_data g u v key (fun dd => dict_update dd attr)) e
            = true).
    now rewrite update_edge_data_known.
  - unfold edge_known. cbn [g_edges]. rewrite existsb_app.
    unfold edge_known in H. now rewrite H.
Qed.

Lemma add_edge_new_known (g : MultiGraph) (u v : node) (key : ekey)
  (attr : dict) :
  edge_known (add_edge g u v (Some key) attr) (u, v, key) = true.
Proof.
  unfold add_edge.
  destruct (kd_get (keydict g u v) key) eqn:Hk.
  - change (edge_known
              (update_edge_data g u v key (fun dd => dict_update dd attr))
              (u, v, key) = true).
    rewrite update_edge_data_known. unfold edge_known. cbn [fst snd].
    apply kd_get_known. fold (keydict g u v). congruence.
  - unfold edge_known. cbn [g_edges fst snd]. rewrite existsb_app.
    cbn [existsb]. unfold joins. cbn [e_u e_v e_key].
    now rewrite !String.eqb_refl, ekey_eqb_refl, orb_true_r.
Qed.

Lemma kd_get_absent (kd : list (ekey * dict)) (k : ekey) :
  kd_get kd k = None -> ~ In k (map fst kd).
Proof.
  induction kd as [| [k' d] rest IH]; simpl; intros H; [tauto |].
  destruct (ekey_eqb k' k) eqn:Hk; [discriminate |].
  intros [Heq | Hin]; [| now apply IH].
  subst k'. now rewrite ekey_eqb_refl in Hk.
Qed.

Lemma NoDup_snoc {A : Type} (l : list A) (x : A) :
  NoDup l -> ~ In x l -> NoDup (l ++ [x]).
Proof.
  induction l as [| y rest IH]; intros Hl Hx; simpl.
  - constructor; [tauto | constructor].
  - inversion Hl as [| ? ? Hy Hrest]; subst. constructor.
    + intros Hin. apply in_app_or in Hin. destruct Hin as [Hin | [Heq | []]].
      * contradiction.
      * subst. apply Hx. now left.
    + apply IH; [assumption |]. intros Hin. apply Hx. now right.
Qed.

Lemma update_edge_item_key (u v : node) (k : ekey) (f : dict -> dict)
  (a b : node) (edges : list edge) :
  map fst (map (fun e => (e_key e, e_data e))
               (filter (joins a b) (map (update_edge u v k f) edges)))
  = map fst (map (fun e => (e_key e, e_data e)) (filter (joins a b) edges)).
Proof.
  induction edges as [| e rest IH]; [reflexivity |].
  cbn [map filter].
  destruct (update_edge_same_edge u v k f e) as [Hu [Hv Hk]].
  assert (Hj : joins a b (update_edge u v k f e) = joins a b e).
  { unfold joins. now rewrite Hu, Hv. }
  rewrite Hj. destruct (joins a b e); [| exact IH].
  cbn [map fst]. now rewrite Hk, IH.
Qed.

(** [add_edge] with a key of the caller's keeps the graph well keyed. *)
Lemma add_edge_keyed (g : MultiGraph) (u v : node) (key : ekey) (attr : dict) :
  well_keyed g = true -> well_keyed (add_edge g u v (Some key) attr) = true.
Proof.
  intros Hg. apply well_keyed_spec in Hg. destruct Hg as [Hn [He Hk]].
  apply well_keyed_spec. rewrite add_edge_nodes. split; [| split].
  - now apply add_node_NoDup, add_node_NoDup.
  - intros e Hin. rewrite !add_node_In. unfold add_edge in Hin.
    destruct (kd_get (keydict g u v) key); cbn [g_edges] in Hin.
    + apply in_map_iff in Hin. destruct Hin as [e0 [<- Hin]].
      destruct (update_edge_same_edge u v key (fun dd => dict_update dd attr) e0)
        as [-> [-> _]].
      destruct (He e0 Hin). tauto.
    + apply in_app_or in Hin. destruct Hin as [Hin | [<- | []]].
      * destruct (He e Hin). tauto.
      * cbn [e_u e_v]. tauto.
  - intros a b. unfold keydict, add_edge.
    destruct (kd_get (keydict g u v) key) eqn:Hkey; cbn [g_edges].
    + rewrite update_edge_item_key. apply Hk.
    + rewrite filter_app, !map_app. cbn [filter].
      destruct (joins a b (mkEdge u v key (dict_update [] attr))) eqn:Hj.
      * cbn [map fst e_key]. apply NoDup_snoc; [apply Hk |].
        fold (keydict g a b).
        rewrite (joins_same_pair a b u v key (dict_update [] attr) g Hj).
        now apply kd_get_absent.
      * cbn [map]. rewrite app_nil_r. apply Hk.
Qed.

Lemma product_In {A : Type} (ls : list (list A)) :
  forall r x, In r (product ls) -> In x r -> exists l, In l ls /\ In x l.
Proof.
  induction ls as [| l rest IH]; intros r x Hr Hx; simpl in Hr.
  - destruct Hr as [<- | []]. contradiction.
  - apply in_flat_map in Hr. destruct Hr as [y [Hy Hr]].
    apply in_map_iff in Hr. destruct Hr as [r' [<- Hr']].
    destruct Hx as [<- | Hx].
    + exists l. split; [now left | assumption].
    + destruct (IH r' x Hr' Hx) as [l' [Hl' Hx']].
      exists l'. split; [now right | assumption].
Qed.

Lemma keydict_item_known (g : MultiGraph) (u v : node) (kd : ekey * dict) :
  In kd (keydict g u v) -> edge_known g (u, v, fst kd) = true.
Proof.
  destruct kd as [k d]. intros Hin.
  destruct (keydict_In_edge g u v k d Hin) as [e [He [Hj [Hk _]]]].
  unfold edge_known. cbn [fst snd]. apply existsb_exists. exists e.
  split; [assumption |]. rewrite Hj, Hk. simpl. apply ekey_eqb_refl.
Qed.

Lemma edge_options_known (g : MultiGraph) (p : list node) :
  forall opts,
    edge_options g p = Ok opts ->
    forall l e, In l opts -> In e l -> edge_known g e = true.
Proof.
  induction p as [| u rest IH]; intros opts H l e Hl He.
  - inversion H; subst. contradiction.
  - destruct rest as [| v rest'].
    + inversion H; subst. contradiction.
    + rewrite edge_options_cons in H.
      inv_bind H as kd Hkd. inv_bind H as more Hmore. inversion H; subst opts.
      destruct Hl as [<- | Hl].
      * apply in_map_iff in He. destruct He as [x [<- Hx]].
        unfold adj_getitem in Hkd.
        destruct (keydict g u v) as [| y ys] eqn:Hkey; [discriminate |].
        inversion Hkd; subst kd. rewrite <- Hkey in Hx.
        now apply keydict_item_known.
      * exact (IH more Hmore l e Hl He).
Qed.

Lemma expand_paths_known (g : MultiGraph) (paths : list (list node)) :
  forall routes,
    expand_paths g paths = Ok routes ->
    forall r e, In r routes -> In e r -> edge_known g e = true.
Proof.
  induction paths as [| p rest IH]; intros routes H r e Hr He;
    cbn [expand_paths] in H.
  - inversion H; subst. contradiction.
  - inv_bind H as opts Hopts. inv_bind H as more Hmore. inversion H; subst.
    apply in_app_or in Hr. destruct Hr as [Hr | Hr].
    + destruct (product_In opts r e Hr He) as [l [Hl Hel]].
      exact (edge_options_known g p opts Hopts l e Hl Hel).
    + exact (IH more Hmore r e Hr He).
Qed.

Lemma firstn_In {A : Type} (n : nat) (l : list A) (x : A) :
  In x (firstn n l) -> In x l.
Proof.
  revert l. induction n as [| n IH]; intros [| y l] H; simpl in H;
    try contradiction.
  destruct H as [<- | H]; [now left | right; now apply IH].
Qed.

Section EnumeratorGraph.

Variable set_iter : list (list node) -> list (list node).
Variable max_hops : nat.

Lemma routes_for_demand_graph (g g' : MultiGraph) (dem : demand)
  (routes : list route) :
  routes_for_demand set_iter max_hops g dem = Ok (routes, g') ->
  (forall r e, In r routes -> In e r -> edge_known g' e = true)
  /\ (forall e, edge_known g e = true -> edge_known g' e = true)
  /\ (forall n, has_node g n = true -> has_node g' n = true)
  /\ has_node g' (dem_s dem) = true /\ has_node g' (dem_t dem) = true
  /\ (well_keyed g = true -> well_keyed g' = true).
Proof.
  unfold routes_for_demand. intros H. inv_bind H as node_paths Hpaths.
  destruct node_paths as [| p ps].
  - inversion H; subst routes g'. repeat split.
    + intros r e [<- | []] [<- | []]. apply add_edge_new_known.
    + intros e. apply add_edge_known.
    + intros n Hn. apply add_edge_has_node. now left.
    + apply add_edge_has_node. right. now left.
    + apply add_edge_has_node. right. now right.
    + apply add_edge_keyed.
  - inv_bind H as all_routes Hall. inversion H; subst routes g'.
    destruct (negb (has_node g (dem_s dem)) || negb (has_node g (dem_t dem)))
      eqn:Hmiss; [discriminate |].
    apply orb_false_iff in Hmiss. destruct Hmiss as [Hs Ht].
    apply negb_false_iff in Hs, Ht. repeat split; try assumption; try tauto.
    intros r e Hr He.
    exact (expand_paths_known g _ all_routes Hall r e
             (firstn_In MAX_ROUTES_PER_DEMAND all_routes r Hr) He).
Qed.

Lemma routes_loop_graph (demands : list demand) :
  forall g acc R g',
    routes_loop set_iter max_hops g acc demands = Ok (R, g') ->
    (forall routes r e, In routes acc -> In r routes -> In e r ->
                        edge_known g e = true) ->
    (forall routes r e, In routes R -> In r routes -> In e r ->
                        edge_known g' e = true)
    /\ (forall e, edge_known g e = true -> edge_known g' e = true)
    /\ (forall n, has_node g n = true -> has_node g' n = true)
    /\ (forall dem, In dem demands ->
          has_node g' (dem_s dem) = true /\ has_node g' (dem_t dem) = true)
    /\ (well_keyed g = true -> well_keyed g' = true).
Proof.
  induction demands as [| dem rest IH]; intros g acc R g' H Hacc;
    cbn [routes_loop] in H.
  - inversion H; subst. repeat split; try tauto; try contradiction.
  - inv_bind H as step Hstep. destruct step as [routes g1].
    destruct (routes_for_demand_graph g g1 dem routes Hstep)
      as [Hnew [Hmono [Hnodes [Hs [Ht Hkeyed]]]]].
    apply IH in H.
    + destruct H as [HR [Hmono' [Hnodes' [Hends Hkeyed']]]].
      split; [exact HR |]. split; [auto |]. split; [auto |].
      split; [| auto].
      intros d [<- | Hd]; [| now apply Hends]. split; now apply Hnodes'.
    + intros routes' r e Hin Hr He. apply in_app_or in Hin.
      destruct Hin as [Hin | [<- | []]].
      * apply Hmono. exact (Hacc routes' r e Hin Hr He).
      * exact (Hnew r e Hr He).
Qed.

End EnumeratorGraph.

(** X1.  Whenever the enumerator returns, every edge triple of every
    route is an edge of the graph it leaves, so that [graph[u][v][key]]
    succeeds on it; the endpoints of every demand are nodes of that
    graph; and the nodes and edges the graph had are still there. *)
Theorem getAllPossibleRoutes_routes_in_graph
  (set_iter : list (list node) -> list (list node)) (max_hops : nat)
  (g g' : MultiGraph) (demands : list demand) (R : list (list route)) :
  getAllPossibleRoutes set_iter max_hops g demands = Ok (R, g') ->
  (forall routes r u v key,
     In routes R -> In r routes -> In (u, v, key) r ->
     exists data, edge_data g' u v key = Ok data)
  /\ (forall dem, In dem demands ->
        has_node g' (dem_s dem) = true /\ has_node g' (dem_t dem) = true)
  /\ (forall n, has_node g n = true -> has_node g' n = true)
  /\ (forall u v key data,
        edge_data g u v key = Ok data ->
        exists data', edge_data g' u v key = Ok data').
Proof.
  unfold getAllPossibleRoutes. intros H.
  apply routes_loop_graph in H; [| intros ? ? ? []].
  destruct H as [HR [Hmono [Hnodes [Hends _]]]]. repeat split.
  - intros routes r u v key Hin Hr He. apply edge_known_lookup.
    exact (HR routes r (u, v, key) Hin Hr He).
  - now apply Hends.
  - now apply Hends.
  - exact Hnodes.
  - intros u v key data Hd. apply edge_known_lookup, Hmono, edge_known_lookup.
    eauto.
Qed.

Lemma getAllPossibleRoutes_routes_in_graph_witness :
  exists R g',
    getAllPossibleRoutes set_iter_first 4 two_parallel
      [mkDemand "A" "C" 120; mkDemand "C" "X" 7] = Ok (R, g')
    /\ (forall routes r u v key,
          In routes R -> In r routes -> In (u, v, key) r ->
          exists data, edge_data g' u v key = Ok data)
    /\ has_node g' "X" = true.
Proof.
  destruct (getAllPossibleRoutes set_iter_first 4 two_parallel
              [mkDemand "A" "C" 120; mkDemand "C" "X" 7])
    as [[R g'] | e] eqn:H; [| vm_compute in H; discriminate].
  exists R, g'. split; [reflexivity |].
  destruct (getAllPossibleRoutes_routes_in_graph set_iter_first 4 two_parallel
              g' [mkDemand "A" "C" 120; mkDemand "C" "X" 7] R H)
    as [Hroutes [Hends _]].
  split; [exact Hroutes |].
  exact (proj2 (Hends (mkDemand "C" "X" 7) (or_intror (or_introl eq_refl)))).
Defined.

(* ================================================================== *)
(** ** The variables addVarsForSolver creates *)

Lemma string_of_nat_inj (n m : nat) : string_of_nat n = string_of_nat m -> n = m.
Proof.
  unfold string_of_nat. intros H. apply Unsigned.to_uint_inj.
  assert (Hsome : Some (Nat.to_uint n) = Some (Nat.to_uint m)).
  { rewrite <- !NilEmpty.usu. now rewrite H. }
  congruence.
Qed.

Lemma digits_split (d1 : Decimal.uint) :
  forall (d2 : Decimal.uint) (t1 t2 : string),
    (NilEmpty.string_of_uint d1 ++ String "_"%char t1)%string
    = (NilEmpty.string_of_uint d2 ++ String "_"%char t2)%string ->
    d1 = d2 /\ t1 = t2.
Proof.
  induction d1 as [| d1 IH | d1 IH | d1 IH | d1 IH | d1 IH | d1 IH | d1 IH
                   | d1 IH | d1 IH | d1 IH];
    intros [| d2 | d2 | d2 | d2 | d2 | d2 | d2 | d2 | d2 | d2] t1 t2 H;
    cbn [NilEmpty.string_of_uint String.append] in H;
    try discriminate;
    try (inversion H; subst; now split);
    inversion H as [Hrest]; destruct (IH d2 t1 t2 Hrest) as [-> ->];
    now split.
Qed.

Lemma flow_name_inj (i j i' j' : nat) :
  flow_name i j = flow_name i' j' -> i = i' /\ j = j'.
Proof.
  unfold flow_name, string_of_nat. intros H.
  cbn [String.append] in H. inversion H as [Hrest].
  change ("_" ++ NilEmpty.string_of_uint (Nat.to_uint j))%string
    with (String "_"%char (NilEmpty.string_of_uint (Nat.to_uint j))) in Hrest.
  change ("_" ++ NilEmpty.string_of_uint (Nat.to_uint j'))%string
    with (String "_"%char (NilEmpty.string_of_uint (Nat.to_uint j'))) in Hrest.
  apply digits_split in Hrest. destruct Hrest as [Hi Hj].
  split.
  - now apply Unsigned.to_uint_inj.
  - now apply string_of_nat_inj.
Qed.

Lemma alloc_row_spec (i : nat) (demand_routes : list route) :
  forall j0,
    length (alloc_row i j0 demand_routes) = length demand_routes
    /\ forall j, j < length demand_routes ->
         nth_error (alloc_row i j0 demand_routes) j
         = Some (VExpr (Real (flow_name i (j0 + j)))).
Proof.
  induction demand_routes as [| r rest IH]; intros j0; cbn [alloc_row length].
  - split; [reflexivity | intros j Hj; lia].
  - destruct (IH (S j0)) as [Hlen Hnth]. split; [now rewrite Hlen |].
    intros [| j] Hj; cbn [nth_error].
    + now rewrite Nat.add_0_r.
    + rewrite Hnth by lia. now replace (S j0 + j) with (j0 + S j) by lia.
Qed.

Lemma alloc_rows_spec (R_ij : list (list route)) :
  forall i0,
    length (alloc_rows i0 R_ij) = length R_ij
    /\ forall i routes, nth_error R_ij i = Some routes ->
         nth_error (alloc_rows i0 R_ij) i = Some (alloc_row (i0 + i) 0 routes).
Proof.
  induction R_ij as [| routes rest IH]; intros i0; cbn [alloc_rows length].
  - split; [reflexivity | intros [| i] routes H; discriminate].
  - destruct (IH (S i0)) as [Hlen Hnth]. split; [now rewrite Hlen |].
    intros [| i] routes' H; cbn [nth_error] in *.
    + inversion H; subst. now rewrite Nat.add_0_r.
    + rewrite (Hnth i routes' H).
      now replace (S i0 + i) with (i0 + S i) by lia.
Qed.

Lemma alloc_rows_entry (R_ij : list (list route)) (i j : nat) (row : list pyval)
  (x : pyval) :
  nth_error (alloc_rows 0 R_ij) i = Some row -> nth_error row j = Some x ->
  x = VExpr (Real (flow_name i j)).
Proof.
  intros Hrow Hx.
  destruct (alloc_rows_spec R_ij 0) as [Hlen Hnth].
  destruct (nth_error R_ij i) as [routes |] eqn:Hroutes.
  - rewrite (Hnth i routes Hroutes) in Hrow. cbn [Nat.add] in Hrow.
    inversion Hrow; subst row.
    destruct (alloc_row_spec i routes 0) as [Hl Hn].
    assert (Hj : j < length routes).
    { rewrite <- Hl. apply nth_error_Some. congruence. }
    rewrite (Hn j Hj) in Hx. cbn [Nat.add] in Hx. congruence.
  - apply nth_error_None in Hroutes.
    assert (Hi : i < length (alloc_rows 0 R_ij)).
    { apply nth_error_Some. congruence. }
    lia.
Qed.

(** X2.  The flow matrix [addVarsForSolver] returns has one row per
    demand and in each row one entry per route; the entry for route [j]
    of demand [i] is the real constant [flow_i_j], and no two places of
    the matrix hold the same constant. *)
Theorem addVarsForSolver_flow_matrix (g : MultiGraph)
  (R_ij : list (list route)) :
  length (snd (addVarsForSolver g R_ij)) = length R_ij
  /\ (forall i routes,
        nth_error R_ij i = Some routes ->
        exists row,
          nth_error (snd (addVarsForSolver g R_ij)) i = Some row
          /\ length row = length routes
          /\ forall j, j < length routes ->
               nth_error row j
               = Some (VExpr (Real ("flow_" ++ string_of_nat i ++ "_"
                                    ++ string_of_nat j)%string)))
  /\ (forall i j i' j' row row' x,
        nth_error (snd (addVarsForSolver g R_ij)) i = Some row ->
        nth_error row j = Some x ->
        nth_error (snd (addVarsForSolver g R_ij)) i' = Some row' ->
        nth_error row' j' = Some x ->
        i = i' /\ j = j').
Proof.
  unfold addVarsForSolver. cbn [snd].
  destruct (alloc_rows_spec R_ij 0) as [Hlen Hnth].
  split; [exact Hlen |]. split.
  - intros i routes Hroutes. exists (alloc_row i 0 routes).
    rewrite (Hnth i routes Hroutes). cbn [Nat.add].
    destruct (alloc_row_spec i routes 0) as [Hl Hn].
    repeat split; [exact Hl |]. intros j Hj. now rewrite (Hn j Hj).
  - intros i j i' j' row row' x Hrow Hx Hrow' Hx'.
    apply (alloc_rows_entry R_ij i j row x Hrow) in Hx.
    apply (alloc_rows_entry R_ij i' j' row' x Hrow') in Hx'.
    subst x. unfold Real in Hx'.
    assert (Hname : flow_name i j = flow_name i' j') by congruence.
    now apply flow_name_inj.
Qed.

(** *** The loop over the edges *)

Lemma alloc_all_cons (u v : node) (k : ekey) (d : dict)
  (rest : list (node * node * ekey * dict)) (e0 : edge) :
  alloc_all ((u, v, k, d) :: rest) e0
  = alloc_all rest (update_edge u v k (fun _ => alloc_edge u v d) e0).
Proof. reflexivity. Qed.

Lemma alloc_fold_edges (view : list (node * node * ekey * dict)) :
  forall g,
    fold_left (fun acc e =>
                 let '(u, v, key, data) := e in
                 update_edge_data acc u v key (fun _ => alloc_edge u v data))
              view g
    = mkGraph (g_nodes g) (map (alloc_all view) (g_edges g)).
Proof.
  induction view as [| [[[u v] k] d] rest IH]; intros g; cbn [fold_left].
  - rewrite (map_ext (alloc_all []) (fun e => e)) by reflexivity.
    rewrite map_id. now destruct g.
  - rewrite IH. unfold update_edge_data. cbn [g_nodes g_edges].
    rewrite map_map. reflexivity.
Qed.

Lemma alloc_all_edge (e : edge) (total : list (node * node * ekey * dict)) :
  (forall u v k d, In (u, v, k, d) total ->
     joins u v e && ekey_eqb (e_key e) k = true -> d = e_data e) ->
  forall view e0,
    incl view total ->
    e_u e0 = e_u e -> e_v e0 = e_v e -> e_key e0 = e_key e ->
    existsb (names_edge e) view = true
    \/ (exists u v, In (u, v, e_key e, e_data e) total /\ joins u v e = true
                    /\ e0 = mkEdge (e_u e) (e_v e) (e_key e)
                                   (alloc_edge u v (e_data e))) ->
    exists u v, In (u, v, e_key e, e_data e) total /\ joins u v e = true
                /\ alloc_all view e0
                   = mkEdge (e_u e) (e_v e) (e_key e)
                            (alloc_edge u v (e_data e)).
Proof.
  intros Hdata.
  induction view as [| [[[u v] k] d] rest IH]; intros e0 Hincl Hu Hv Hk Hcase.
  - destruct Hcase as [Hex | Hdone]; [discriminate | exact Hdone].
  - rewrite alloc_all_cons.
    assert (Hin : In (u, v, k, d) total) by (apply Hincl; now left).
    assert (Hincl' : incl rest total).
    { intros x Hx. apply Hincl. now right. }
    assert (Hsame : joins u v e0 && ekey_eqb (e_key e0) k
                    = joins u v e && ekey_eqb (e_key e) k).
    { unfold joins. now rewrite Hu, Hv, Hk. }
    unfold update_edge. rewrite Hsame.
    destruct (joins u v e && ekey_eqb (e_key e) k) eqn:Hm.
    + pose proof (Hdata u v k d Hin Hm) as Hd. subst d.
      apply andb_true_iff in Hm. destruct Hm as [Hj Hkk].
      apply ekey_eqb_eq in Hkk. subst k.
      apply IH; try assumption; try reflexivity.
      right. exists u, v. rewrite Hu, Hv, Hk. auto.
    + apply IH; try assumption.
      destruct Hcase as [Hex | Hdone]; [| now right].
      left. cbn [existsb names_edge] in Hex. now rewrite Hm in Hex.
Qed.

(** Every edge of a well-keyed graph gets the variables of the entry
    that reports it. *)
Lemma addVarsForSolver_edge (g : MultiGraph) (R_ij : list (list route))
  (e : edge) :
  well_keyed g = true -> In e (g_edges g) ->
  exists u v, In (u, v, e_key e, e_data e) (edges_view g)
              /\ joins u v e = true
              /\ alloc_all (edges_view g) e
                 = mkEdge (e_u e) (e_v e) (e_key e) (alloc_edge u v (e_data e)).
Proof.
  intros Hg He.
  apply (alloc_all_edge e (edges_view g)); try reflexivity.
  - intros u v k d Hin Hm. exact (view_entry_data g e u v k d Hg He Hin Hm).
  - apply incl_refl.
  - left. destruct (view_reports_edge g e Hg He) as [u [v [Hin Hj]]].
    apply existsb_exists. exists (u, v, e_key e, e_data e).
    split; [assumption |]. cbn [names_edge]. now rewrite Hj, ekey_eqb_refl.
Qed.

Lemma addVarsForSolver_graph (g : MultiGraph) (R_ij : list (list route)) :
  fst (addVarsForSolver g R_ij)
  = mkGraph (g_nodes g) (map (alloc_all (edges_view g)) (g_edges g)).
Proof. unfold addVarsForSolver. cbn [fst]. apply alloc_fold_edges. Qed.

Lemma alloc_edge_attrs (u v : node) (data : dict) :
  dict_get (alloc_edge u v data) "f_e"
  = Some (VExpr (Real ("f_" ++ u ++ "-" ++ v ++ "-" ++ edge_color data)%string))
  /\ dict_get (alloc_edge u v data) "price"
     = match dict_get data "price" with
       | None | Some VNone =>
           Some (VExpr (Real ("p_" ++ u ++ "-" ++ v ++ "-"
                              ++ edge_color data)%string))
       | Some price => Some price
       end
  /\ forall name, name <> "f_e" -> name <> "price" ->
       dict_get (alloc_edge u v data) name = dict_get data name.
Proof.
  unfold alloc_edge.
  rewrite (dict_get_set_other data "f_e" "price") by discriminate.
  destruct (dict_get data "price") as [[| q | str | p] |] eqn:Hp.
  - rewrite dict_get_set_same.
    rewrite (dict_get_set_other _ "price" "f_e") by discriminate.
    rewrite dict_get_set_same. repeat split.
    intros name Hf Hpr. rewrite !dict_get_set_other; congruence.
  - rewrite dict_get_set_same.
    rewrite (dict_get_set_other data "f_e" "price") by discriminate.
    repeat split; [assumption |].
    intros name Hf Hpr. rewrite !dict_get_set_other; congruence.
  - rewrite dict_get_set_same.
    rewrite (dict_get_set_other data "f_e" "price") by discriminate.
    repeat split; [assumption |].
    intros name Hf Hpr. rewrite !dict_get_set_other; congruence.
  - rewrite dict_get_set_same.
    rewrite (dict_get_set_other data "f_e" "price") by discriminate.
    repeat split; [assumption |].
    intros name Hf Hpr. rewrite !dict_get_set_other; congruence.
  - rewrite dict_get_set_same.
    rewrite (dict_get_set_other _ "price" "f_e") by discriminate.
    rewrite dict_get_set_same. repeat split.
    intros name Hf Hpr. rewrite !dict_get_set_other; congruence.
Qed.

(** X3.  On a well-keyed graph [addVarsForSolver] keeps the nodes, the
    edges and their keys, and rewrites the data of every edge from the
    entry [(u, v, key, data)] that reports it: [f_e] becomes the real
    constant [f_u-v-color], a price that is missing or [None] becomes
    the real constant [p_u-v-color], any other price and every other
    attribute stay as they were. *)
Theorem addVarsForSolver_edge_variables (g : MultiGraph)
  (R_ij : list (list route)) :
  well_keyed g = true ->
  g_nodes (fst (addVarsForSolver g R_ij)) = g_nodes g
  /\ length (g_edges (fst (addVarsForSolver g R_ij))) = length (g_edges g)
  /\ forall n e,
       nth_error (g_edges g) n = Some e ->
       exists u v data',
         In (u, v, e_key e, e_data e) (edges_view g)
         /\ nth_error (g_edges (fst (addVarsForSolver g R_ij))) n
            = Some (mkEdge (e_u e) (e_v e) (e_key e) data')
         /\ dict_get data' "f_e"
            = Some (VExpr (Real ("f_" ++ u ++ "-" ++ v ++ "-"
                                 ++ edge_color (e_data e))%string))
         /\ dict_get data' "price"
            = match dict_get (e_data e) "price" with
              | None | Some VNone =>
                  Some (VExpr (Real ("p_" ++ u ++ "-" ++ v ++ "-"
                                     ++ edge_color (e_data e))%string))
              | Some price => Some price
              end
         /\ forall name, name <> "f_e" -> name <> "price" ->
              dict_get data' name = dict_get (e_data e) name.
Proof.
  intros Hg. rewrite addVarsForSolver_graph. cbn [g_nodes g_edges].
  split; [reflexivity |]. split; [apply length_map |].
  intros n e Hn.
  destruct (addVarsForSolver_edge g R_ij e Hg (nth_error_In _ _ Hn))
    as [u [v [Hin [_ Hall]]]].
  exists u, v, (alloc_edge u v (e_data e)).
  split; [exact Hin |]. split.
  - rewrite nth_error_map, Hn. cbn [option_map]. now rewrite Hall.
  - apply alloc_edge_attrs.
Qed.

Lemma addVarsForSolver_edge_variables_witness :
  well_keyed two_parallel = true
  /\ exists u v data',
       In (u, v, KInt 1,
           [("color", VStr "Bus"); ("capacity", VNum 500);
            ("price", VNum 5); ("k", VNum 2)])
          (edges_view two_parallel)
       /\ nth_error (g_edges (fst (addVarsForSolver two_parallel demo_routes))) 1
          = Some (mkEdge "A" "C" (KInt 1) data')
       /\ dict_get data' "f_e"
          = Some (VExpr (Real ("f_" ++ u ++ "-" ++ v ++ "-" ++ "Bus")%string))
       /\ dict_get data' "price" = Some (VNum 5)
       /\ dict_get data' "k" = Some (VNum 2).
Proof.
  split; [reflexivity |].
  destruct (addVarsForSolver_edge_variables two_parallel demo_routes eq_refl)
    as [_ [_ Hedges]].
  destruct (Hedges 1 (mkEdge "A" "C" (KInt 1)
                        [("color", VStr "Bus"); ("capacity", VNum 500);
                         ("price", VNum 5); ("k", VNum 2)]) eq_refl)
    as [u [v [data' [Hin [Hnth [Hf [Hp Hother]]]]]]].
  exists u, v, data'. repeat split; try assumption.
  apply (Hother "k"); discriminate.
Defined.

(** *** Parallel edges and the name of the flow variable *)

Lemma edges_from_entry (g : MultiGraph) (ns : list node) :
  forall seen u v k d,
    In (u, v, k, d) (edges_from g seen ns) -> In u ns /\ ~ In v seen.
Proof.
  induction ns as [| n rest IH]; intros seen u v k d Hin;
    cbn [edges_from] in Hin; [contradiction |].
  apply in_app_or in Hin. destruct Hin as [Hin | Hin].
  - apply in_flat_map in Hin. destruct Hin as [nbr [_ Hin]].
    destruct (mem nbr seen) eqn:Hm; [contradiction |].
    apply in_map_iff in Hin. destruct Hin as [kd [Heq _]].
    inversion Heq; subst. split; [now left | now apply mem_not_In].
  - apply IH in Hin. destruct Hin as [Hu Hv].
    split; [now right |]. intros H. apply Hv. now right.
Qed.

Lemma edges_from_head (g : MultiGraph) (n : node) (seen : list node)
  (u v : node) (k : ekey) (d : dict) :
  In (u, v, k, d)
     (flat_map (fun nbr =>
                  if mem nbr seen then []
                  else map (fun kd => (n, nbr, fst kd, snd kd))
                           (keydict g n nbr))
               (neighbors g n)) ->
  u = n.
Proof.
  intros Hin. apply in_flat_map in Hin. destruct Hin as [nbr [_ Hin]].
  destruct (mem nbr seen); [contradiction |].
  apply in_map_iff in Hin. destruct Hin as [kd [Heq _]]. now inversion Heq.
Qed.

(** A node pair is reported in one orientation only. *)
Lemma edges_from_one_way (g : MultiGraph) (ns : list node) :
  NoDup ns ->
  forall seen u v k d k' d',
    u <> v ->
    In (u, v, k, d) (edges_from g seen ns) ->
    In (v, u, k', d') (edges_from g seen ns) -> False.
Proof.
  induction 1 as [| n rest Hn Hnd IH]; intros seen u v k d k' d' Hne H1 H2;
    cbn [edges_from] in H1, H2; [contradiction |].
  apply in_app_or in H1. apply in_app_or in H2.
  destruct H1 as [H1 | H1], H2 as [H2 | H2].
  - apply edges_from_head in H1. apply edges_from_head in H2. congruence.
  - apply edges_from_head in H1. apply edges_from_entry in H2.
    destruct H2 as [_ H2]. apply H2. left. congruence.
  - apply edges_from_head in H2. apply edges_from_entry in H1.
    destruct H1 as [_ H1]. apply H1. left. congruence.
  - exact (IH (n :: seen) u v k d k' d' Hne H1 H2).
Qed.

Lemma append_inj_r (p a b : string) : (p ++ a = p ++ b)%string -> a = b.
Proof.
  induction p as [| c p IH]; cbn [String.append]; intros H; [exact H |].
  inversion H. now apply IH.
Qed.

(** X4.  The name of the flow variable of an edge is made of the two
    nodes and the colour, not of the key: after [addVarsForSolver] two
    edges between the same two nodes of a well-keyed graph carry the
    same [f_e] exactly when they have the same colour. *)
Theorem addVarsForSolver_parallel_edges (g : MultiGraph)
  (R_ij : list (list route)) (n1 n2 : nat) (e1 e2 e1' e2' : edge) :
  well_keyed g = true ->
  nth_error (g_edges g) n1 = Some e1 ->
  nth_error (g_edges g) n2 = Some e2 ->
  joins (e_u e1) (e_v e1) e2 = true ->
  nth_error (g_edges (fst (addVarsForSolver g R_ij))) n1 = Some e1' ->
  nth_error (g_edges (fst (addVarsForSolver g R_ij))) n2 = Some e2' ->
  (dict_get (e_data e1') "f_e" = dict_get (e_data e2') "f_e"
   <-> edge_color (e_data e1) = edge_color (e_data e2)).
Proof.
  intros Hg H1 H2 Hj H1' H2'.
  rewrite addVarsForSolver_graph in H1', H2'. cbn [g_edges] in H1', H2'.
  rewrite nth_error_map, H1 in H1'. rewrite nth_error_map, H2 in H2'.
  cbn [option_map] in H1', H2'.
  destruct (addVarsForSolver_edge g R_ij e1 Hg (nth_error_In _ _ H1))
    as [u1 [v1 [Hin1 [Hj1 Hall1]]]].
  destruct (addVarsForSolver_edge g R_ij e2 Hg (nth_error_In _ _ H2))
    as [u2 [v2 [Hin2 [Hj2 Hall2]]]].
  rewrite Hall1 in H1'. rewrite Hall2 in H2'.
  inversion H1'; subst e1'. inversion H2'; subst e2'. cbn [e_data].
  destruct (alloc_edge_attrs u1 v1 (e_data e1)) as [-> _].
  destruct (alloc_edge_attrs u2 v2 (e_data e2)) as [-> _].
  assert (Hsame : u2 = u1 /\ v2 = v1).
  { apply well_keyed_spec in Hg. destruct Hg as [Hn _].
    destruct (joins_ends _ _ _ Hj) as [[Ha Hb] | [Ha Hb]];
      destruct (joins_ends _ _ _ Hj1) as [[Hc Hd] | [Hc Hd]];
      destruct (joins_ends _ _ _ Hj2) as [[He Hf] | [He Hf]];
      try (split; congruence);
      destruct (string_dec u1 v1) as [Heq | Hne];
      try (split; congruence);
      exfalso;
      assert (Hu : u2 = v1) by congruence;
      assert (Hv : v2 = u1) by congruence;
      rewrite Hu, Hv in Hin2;
      exact (edges_from_one_way g (g_nodes g) Hn [] u1 v1 _ _ _ _ Hne
               Hin1 Hin2). }
  destruct Hsame as [-> ->]. split.
  - intros H. unfold Real in H.
    assert (Hname : ("f_" ++ u1 ++ "-" ++ v1 ++ "-" ++ edge_color (e_data e1)
                     = "f_" ++ u1 ++ "-" ++ v1 ++ "-" ++ edge_color (e_data e2))
                    %string) by congruence.
    apply (append_inj_r "f_"), (append_inj_r u1), (append_inj_r "-"),
          (append_inj_r v1), (append_inj_r "-") in Hname.
    exact Hname.
  - intros ->. reflexivity.
Qed.

Lemma addVarsForSolver_parallel_edges_witness :
  exists e1' e2',
    nth_error (g_edges (fst (addVarsForSolver
                               (parse_edgelist
                                  [mkLine "A" "C" [("color", VStr "red")];
                                   mkLine "C" "A" [("color", VStr "red")]])
                               []))) 0 = Some e1'
    /\ nth_error (g_edges (fst (addVarsForSolver
                                  (parse_edgelist
                                     [mkLine "A" "C" [("color", VStr "red")];
                                      mkLine "C" "A" [("color", VStr "red")]])
                                  []))) 1 = Some e2'
    /\ e_key e1' <> e_key e2'
    /\ dict_get (e_data e1') "f_e" = dict_get (e_data e2') "f_e".
Proof.
  eexists. eexists. split; [reflexivity |]. split; [reflexivity |].
  split; [discriminate |].
  apply (addVarsForSolver_parallel_edges
           (parse_edgelist [mkLine "A" "C" [("color", VStr "red")];
                            mkLine "C" "A" [("color", VStr "red")]])
           [] 0 1
           (mkEdge "A" "C" (KInt 0) [("color", VStr "red")])
           (mkEdge "C" "A" (KInt 1) [("color", VStr "red")]));
    reflexivity.
Defined.

(* ================================================================== *)
(** ** What the assertions of the builders mean *)

Lemma py_le_num_arith (q : Q) (b : pyval) (f : formula) :
  py_le (VNum q) b = Ok f -> is_expr b = true \/ exists q', b = VNum q'.
Proof. destruct b; simpl; intros H; try discriminate; eauto. Qed.

Lemma c1c2_edge_sound (R_ij : list (list route)) (f_R_vars : list (list pyval))
  (u v : node) (key : ekey) (data : dict) (s s' : solver) :
  c1c2_edge R_ij f_R_vars (u, v, key, data) s = Ok s' ->
  exists new,
    s' = with_assertions s new
    /\ forall rho, Forall (holds rho) new ->
         edge_bounded rho R_ij f_R_vars (u, v, key, data).
Proof.
  intros H. apply c1c2_edge_spec in H.
  destruct H as [f_e [price [definition [lower [upper [floor
                  [Hf [Hp [-> [Hdef [Hlow [Hup Hfloor]]]]]]]]]]]].
  exists (definition ++ lower :: upper :: floor). split; [reflexivity |].
  intros rho Hall. apply Forall_app in Hall. destruct Hall as [Hd Hrest].
  inversion Hrest as [| ? ? Hl Hrest']; subst.
  inversion Hrest' as [| ? ? Hu Hfl]; subst.
  pose proof (py_le_num_arith _ _ _ Hlow) as Harith.
  exists f_e. split; [exact Hf |]. split; [| split; [| split; [| split]]].
  - apply (py_le_holds rho _ _ _ Hlow) in Hl. exact Hl.
  - intros c Hc. rewrite Hc in Hup.
    apply (py_le_holds rho _ _ _ Hup) in Hu. exact Hu.
  - intros Hnil. rewrite Hnil in Hdef. destruct Hdef as [c [Hc ->]].
    inversion Hd as [| ? ? Hh _]; subst.
    apply (py_eq_holds rho _ _ _ Harith
             (or_intror (ex_intro _ 0%Q eq_refl)) Hc) in Hh.
    exact Hh.
  - intros Hex.
    destruct (flows_on_edge u v key R_ij f_R_vars) as [| x xs] eqn:Hflows;
      [discriminate |].
    cbv zeta in Hdef. rewrite Hex in Hdef.
    destruct Hdef as [total [c [Htotal [Hc ->]]]].
    inversion Hd as [| ? ? Hh _]; subst.
    apply (py_eq_holds rho _ _ _ Harith
             (z3_Sum_numeric_or_expr _ _ Htotal) Hc) in Hh.
    rewrite Hh. now apply z3_Sum_value.
  - intros p Hprice. rewrite Hp in Hprice. inversion Hprice; subst price.
    cbn [is_expr] in Hfloor. destruct Hfloor as [c [Hc ->]].
    inversion Hfl as [| ? ? Hh _]; subst.
    apply (py_ge_holds rho _ _ _ Hc) in Hh. exact Hh.
Qed.

Lemma c1c2_loop_sound (R_ij : list (list route)) (f_R_vars : list (list pyval))
  (view : list (node * node * ekey * dict)) :
  forall s s',
    c1c2_loop R_ij f_R_vars view s = Ok s' ->
    exists new,
      s' = with_assertions s new
      /\ forall rho, Forall (holds rho) new ->
           forall x, In x view -> edge_bounded rho R_ij f_R_vars x.
Proof.
  induction view as [| [[[u v] key] data] rest IH]; intros s s' H;
    cbn [c1c2_loop] in H.
  - inversion H; subst. exists []. rewrite with_assertions_nil.
    split; [reflexivity |]. intros rho _ x [].
  - inv_bind H as s1 Hs1. apply c1c2_edge_sound in Hs1.
    destruct Hs1 as [new1 [-> Hnew1]].
    apply IH in H. destruct H as [new2 [-> Hnew2]].
    exists (new1 ++ new2). rewrite with_assertions_app.
    split; [reflexivity |]. intros rho Hall x Hx.
    apply Forall_app in Hall. destruct Hall as [H1 H2].
    destruct Hx as [<- | Hx]; [now apply Hnew1 | now apply Hnew2].
Qed.

(** X5.  Whenever [addC1C2Constraints] returns it has only appended
    assertions, and every assignment that satisfies them gives, for each
    edge [(u, v, key, data)] the graph reports: a flow [f_e] that is not
    negative and not above the capacity the edge carries; [f_e = 0] when
    no route names the edge; [f_e] equal to the sum of the flows of the
    routes that name it when one of them is a z3 term; and a price of at
    least 5 when the price is a z3 term. *)
Theorem addC1C2Constraints_bounds (g : MultiGraph) (R_ij : list (list route))
  (f_R_vars : list (list pyval)) (s s' : solver) :
  addC1C2Constraints g R_ij f_R_vars s = Ok s' ->
  exists new,
    s' = mkSolver (can_minimize s) (assertions s ++ new) (objectives s)
                  (scopes s)
    /\ forall rho, Forall (holds rho) new ->
       forall u v key data,
         In (u, v, key, data) (edges_view g) ->
         exists f_e,
           dict_get data "f_e" = Some f_e
           /\ (0 <= value_of rho f_e)%Q
           /\ (forall c, dict_get data "capacity" = Some c ->
                 (value_of rho f_e <= value_of rho c)%Q)
           /\ (flows_on_edge u v key R_ij f_R_vars = [] ->
                 (value_of rho f_e == 0)%Q)
           /\ (existsb is_expr (flows_on_edge u v key R_ij f_R_vars) = true ->
                 (value_of rho f_e
                  == sum_values rho (flows_on_edge u v key R_ij f_R_vars))%Q)
           /\ (forall p, dict_get data "price" = Some (VExpr p) ->
                 (5 <= eval rho p)%Q).
Proof.
  unfold addC1C2Constraints. intros H. apply c1c2_loop_sound in H.
  destruct H as [new [-> Hnew]]. exists new. split; [reflexivity |].
  intros rho Hall u v key data Hin.
  exact (Hnew rho Hall (u, v, key, data) Hin).
Qed.

Lemma addC1C2Constraints_bounds_witness :
  exists s' new,
    addC1C2Constraints demo_graph demo_routes demo_flows fresh_optimize = Ok s'
    /\ s' = mkSolver true new [] []
    /\ forall rho, Forall (holds rho) new ->
         (0 <= rho (SymStr "f_A-C-red") <= 100)%Q
         /\ (rho (SymStr "f_A-C-red") == rho (SymStr "flow_0_0") + 0)%Q.
Proof.
  destruct (addC1C2Constraints demo_graph demo_routes demo_flows fresh_optimize)
    as [s' | e] eqn:H; [| vm_compute in H; discriminate].
  destruct (addC1C2Constraints_bounds demo_graph demo_routes demo_flows
              fresh_optimize s' H) as [new [Hs' Hnew]].
  exists s', new. split; [reflexivity |]. split; [exact Hs' |].
  intros rho Hall.
  destruct (Hnew rho Hall "A" "C" (KInt 0)
              [("color", VStr "red"); ("capacity", VNum 100);
               ("price", VNum 5); ("k", VNum 1);
               ("f_e", VExpr (Real "f_A-C-red"))]
              (or_introl eq_refl))
    as [f_e [Hf [Hlow [Hcap [_ [Hsum _]]]]]].
  inversion Hf; subst f_e. split; [split |].
  - exact Hlow.
  - exact (Hcap (VNum 100) eq_refl).
  - exact (Hsum eq_refl).
Defined.




(** *** The objective *)

Lemma sum_values_app (rho : valuation) (a b : list pyval) :
  (sum_values rho (a ++ b) == sum_values rho a + sum_values rho b)%Q.
Proof.
  unfold sum_values.
  induction a as [| x a IH]; cbn [app fold_right]; [ring |].
  rewrite IH. ring.
Qed.

Lemma fold_plus_app (a b : list Q) :
  (fold_right Qplus 0 (a ++ b) == fold_right Qplus 0 a + fold_right Qplus 0 b)%Q.
Proof.
  induction a as [| x a IH]; cbn [app fold_right]; [ring |].
  rewrite IH. ring.
Qed.

Lemma objective_routes_value (rho : valuation) (g : MultiGraph)
  (row : list pyval) (routes : list route) :
  forall j terms terms',
    objective_routes g row j routes terms = Ok terms' ->
    (sum_values rho terms'
     == sum_values rho terms
        + fold_right Qplus 0
            (map (fun rf : route * pyval =>
                    value_of rho (snd rf) * route_cost_value rho g (fst rf))
                 (combine routes (skipn j row))))%Q.
Proof.
  induction routes as [| r rest IH]; intros j terms terms' H;
    cbn [objective_routes] in H.
  - inversion H; subst. cbn [combine map fold_right]. ring.
  - inv_bind H as f_R Hf. inv_bind H as cost Hcost. inv_bind H as term Hterm.
    unfold list_getitem in Hf.
    destruct (nth_error row j) as [x |] eqn:Hj; inversion Hf; subst x.
    apply IH in H. rewrite H, sum_values_app.
    rewrite (nth_error_skipn row j f_R Hj).
    cbn [combine map fold_right fst snd sum_values].
    rewrite (py_mul_value rho _ _ _ Hterm).
    rewrite (compute_route_cost_value rho g r cost Hcost). ring.
Qed.

Lemma objective_demands_value (rho : valuation) (g : MultiGraph)
  (f_R_vars : list (list pyval)) (R_ij : list (list route)) :
  forall i terms terms',
    objective_demands g f_R_vars i R_ij terms = Ok terms' ->
    (sum_values rho terms'
     == sum_values rho terms + total_cost rho g R_ij (skipn i f_R_vars))%Q.
Proof.
  unfold total_cost.
  induction R_ij as [| routes rest IH]; intros i terms terms' H;
    cbn [objective_demands] in H.
  - inversion H; subst. cbn [combine map concat fold_right]. ring.
  - inv_bind H as row Hrow. inv_bind H as terms1 Hterms1.
    unfold list_getitem in Hrow.
    destruct (nth_error f_R_vars i) as [x |] eqn:Hi; inversion Hrow; subst x.
    apply IH in H. rewrite H.
    rewrite (objective_routes_value rho g row routes 0 terms terms1 Hterms1).
    rewrite (nth_error_skipn f_R_vars i row Hi).
    cbn [combine map concat fst snd skipn]. rewrite fold_plus_app. ring.
Qed.

(** X7.  Whenever [getObjectiveExpr] returns, the value of what it
    returns under any assignment is the total system cost: the sum, over
    the demands and their routes, of the flow of the route times the
    cost of the route, the cost being the sum over the edges of the
    route of [k * f_e + price]. *)
Theorem getObjectiveExpr_total_cost (g : MultiGraph)
  (R_ij : list (list route)) (f_R_vars : list (list pyval))
  (objective : pyval) :
  getObjectiveExpr g R_ij f_R_vars = Ok objective ->
  forall rho,
    (value_of rho objective
     == fold_right Qplus 0
          (concat
             (map (fun rr : list route * list pyval =>
                     map (fun rf : route * pyval =>
                            value_of rho (snd rf)
                            * fold_right
                                (fun e acc =>
                                   attr_value rho g e "k"
                                   * attr_value rho g e "f_e"
                                   + attr_value rho g e "price" + acc)
                                0 (fst rf))
                         (combine (fst rr) (snd rr)))
                  (combine R_ij f_R_vars))))%Q.
Proof.
  unfold getObjectiveExpr. intros H rho. inv_bind H as terms Hterms.
  rewrite (z3_Sum_value rho terms objective H).
  rewrite (objective_demands_value rho g f_R_vars R_ij 0 [] terms Hterms).
  cbn [skipn sum_values fold_right]. unfold total_cost, route_cost_value.
  ring.
Qed.

Lemma getObjectiveExpr_total_cost_witness :
  exists objective,
    getObjectiveExpr demo_graph demo_routes demo_flows = Ok objective
    /\ forall rho,
         (value_of rho objective
          == rho (SymStr "flow_0_0")
             * (1 * rho (SymStr "f_A-C-red") + 5 + 0)
             + (rho (SymStr "flow_0_1")
                * (2 * rho (SymStr "f_A-C-Bus") + 5 + 0) + 0))%Q.
Proof.
  destruct (getObjectiveExpr demo_graph demo_routes demo_flows)
    as [objective | e] eqn:H; [| vm_compute in H; discriminate].
  exists objective. split; [reflexivity |]. intros rho.
  exact (getObjectiveExpr_total_cost demo_graph demo_routes demo_flows
           objective H rho).
Defined.

(** *** The fallback builder *)








(* ================================================================== *)
(** ** The strategies: verdicts and what they leave in the graph *)

Section StrategyResults.

Variable z3_model : Type.
Variable z3_check : solver -> check_result z3_model.
Variable as_decimal : z3_model -> expr -> string.
Variable R_ij : list (list route).
Variable demands : list demand.

Lemma price_loop_paired (with_obj : bool) (g : MultiGraph)
  (f_R_vars : list (list pyval)) (fuel : nat) :
  forall p_current model last s model' last' s',
    (model = None <-> last = None) ->
    price_loop z3_model z3_check R_ij demands with_obj g f_R_vars fuel
               p_current model last s = Ok (model', last', s') ->
    (model' = None <-> last' = None).
Proof.
  induction fuel as [| fuel IH]; intros p model last s model' last' s' Hinv H;
    cbn [price_loop] in H; [discriminate |].
  destruct (P_MIN <=? p)%Z; [| inversion H; now subst].
  inv_bind H as graph_copy Hcopy. inv_bind H as s2 H2. inv_bind H as s3 H3.
  destruct (z3_check s3); inv_bind H as s4 H4.
  - apply IH in H; [exact H |]. split; discriminate.
  - inversion H; now subst.
  - inversion H; now subst.
Qed.

Lemma bs_loop_verdict (n : nat) :
  forall C_MIN C_MAX g f_R_vars model isSolved s model' isSolved' g' s',
    (isSolved = true <-> model <> None) ->
    bs_loop z3_model z3_check R_ij demands n C_MIN C_MAX g f_R_vars
            model isSolved s = Ok (model', isSolved', g', s') ->
    (isSolved' = true <-> model' <> None).
Proof.
  induction n as [| n IH];
    intros C_MIN C_MAX g F model isSolved s model' isSolved' g' s' Hinv H;
    cbn [bs_loop] in H; [inversion H; now subst |].
  inv_bind H as g1 Hg1. inv_bind H as r Hopt. destruct r as [[m b] s1].
  apply optimizeObjective_scoped in Hopt. destruct Hopt as [-> [Hf Ht]].
  assert (Hmb : b = true <-> m <> None).
  { destruct b; split; intros Hb; try discriminate; auto;
      exfalso; apply Hb; now apply Hf. }
  destruct b; exact (IH _ _ _ _ _ _ _ _ _ _ _ Hmb H).
Qed.

Lemma inc_loop_verdict (n : nat) :
  forall g f_R_vars model isSolved s model' isSolved' g' s',
    (isSolved = true <-> model <> None) ->
    inc_loop z3_model z3_check R_ij demands n g f_R_vars model isSolved s
    = Ok (model', isSolved', g', s') ->
    (isSolved' = true <-> model' <> None).
Proof.
  induction n as [| n IH];
    intros g F model isSolved s model' isSolved' g' s' Hinv H;
    cbn [inc_loop] in H; [inversion H; now subst |].
  inv_bind H as g1 Hg1. inv_bind H as r Hopt. destruct r as [[m b] s1].
  apply optimizeObjective_scoped in Hopt. destruct Hopt as [-> [Hf Ht]].
  assert (Hmb : b = true <-> m <> None).
  { destruct b; split; intros Hb; try discriminate; auto;
      exfalso; apply Hb; now apply Hf. }
  destruct b.
  - inversion H; subst. exact Hmb.
  - exact (IH _ _ _ _ _ _ _ _ _ Hmb H).
Qed.

Lemma setPricesHighToLow_verdict (with_obj : bool) (g g' : MultiGraph)
  (f_R_vars f_R_vars' : list (list pyval)) (s s' : solver)
  (model : option z3_model) (isSolved : bool) :
  setPricesHighToLow z3_model z3_check as_decimal R_ij demands with_obj
                     g f_R_vars s
  = Ok (model, isSolved, g', f_R_vars', s') ->
  (isSolved = true <-> model <> None).
Proof.
  unfold setPricesHighToLow. intros H.
  inv_bind H as F1 Hpre. inv_bind H as r Hloop. destruct r as [[m l] s1].
  apply price_loop_paired in Hloop; [| tauto].
  destruct m as [m |]; [destruct l as [p |] |].
  - inv_bind H as g1 Hg1. inversion H; subst. split; [discriminate | reflexivity].
  - exfalso. destruct Hloop as [_ Hl]. now specialize (Hl eq_refl).
  - inversion H; subst. split; [discriminate | congruence].
Qed.

Lemma optimizeObjective_no_routes (g : MultiGraph) (s : solver) :
  graph_ready g = true ->
  optimizeObjective z3_model z3_check [] [] g [] s = Raise AttributeError.
Proof.
  intros Hg. unfold optimizeObjective.
  destruct (addConstraints_total g [] [] [] (push s) Hg eq_refl)
    as [new ->]; try reflexivity.
  - intros [| n] routes Hn; discriminate.
  - cbn [bind getObjectiveExpr objective_demands z3_Sum existsb py_sum
             py_sum_from]. unfold minimize.
    now destruct (can_minimize (with_assertions (push s) new)).
Qed.

End StrategyResults.

(** X9.  With no demand at all (no routes, an empty flow matrix) the
    objective is the integer 0 of an empty [Sum], which [minimize] does
    not take: on a graph whose edges are ready every strategy that
    minimises raises [AttributeError]. *)
Theorem strategies_without_demands
  (z3_model : Type) (z3_check : solver -> check_result z3_model)
  (as_decimal : z3_model -> expr -> string)
  (strategy : Strategy) (g : MultiGraph) (s : solver) :
  strategy <> HIGHTOLOW ->
  graph_ready g = true ->
  (strategy = INCCAPACITY -> graph_capped g = true) ->
  getObjectiveExpr g [] [] = Ok (VNum 0)
  /\ trySolvingFeasibility z3_model z3_check as_decimal [] [] strategy g [] s
     = Raise AttributeError.
Proof.
  intros Hnot Hg Hcap. split; [reflexivity |].
  destruct strategy; cbn [trySolvingFeasibility].
  - now rewrite optimizeObjective_no_routes.
  - congruence.
  - unfold setPricesHighToLowWO, setPricesHighToLow.
    cbn [precommit bind price_loop].
    change (P_MIN <=? P_MAX)%Z with true. cbv iota.
    destruct (mutate_edges_total edge_ready
                (fun data => Ok (fix_price (inject_Z P_MAX) data))
                (fix_price_ready (inject_Z P_MAX)) (edges_view g) g
                (edges_view_all edge_ready g Hg) Hg)
      as [g1 [-> [Hready _]]].
    cbn [bind].
    destruct (addConstraints_total g1 [] [] [] (push s) Hready eq_refl)
      as [new ->]; try reflexivity.
    + intros [| n] routes Hn; discriminate.
    + cbn [bind getObjectiveExpr objective_demands z3_Sum existsb py_sum
               py_sum_from]. unfold minimize.
      now destruct (can_minimize (with_assertions (push s) new)).
  - unfold binarySearchCapacity. cbn [bs_loop].
    destruct (mutate_edges_total edge_ready
                (set_capacity ((500 + 5000) / 2))
                (set_capacity_ready ((500 + 5000) / 2)) (edges_view g) g
                (edges_view_all edge_ready g Hg) Hg)
      as [g1 [-> [Hready _]]].
    cbn [bind]. now rewrite optimizeObjective_no_routes.
  - specialize (Hcap eq_refl).
    assert (Hboth : forallb (fun e => edge_ready (e_data e)
                                      && edge_capped (e_data e))
                            (g_edges g) = true).
    { unfold graph_ready in Hg. unfold graph_capped in Hcap.
      rewrite forallb_forall in Hg, Hcap. apply forallb_forall.
      intros e He. now rewrite (Hg e He), (Hcap e He). }
    unfold increaseCapacity. cbn [inc_loop].
    destruct (mutate_edges_total
                (fun d => edge_ready d && edge_capped d)
                bump_capacity bump_capacity_ready (edges_view g) g
                (edges_view_all (fun d => edge_ready d && edge_capped d) g
                                Hboth)
                Hboth)
      as [g1 [-> [Hready _]]].
    cbn [bind].
    assert (Hg1 : graph_ready g1 = true).
    { unfold graph_ready.
      apply (forallb_weaken
               (fun e => edge_ready (e_data e) && edge_capped (e_data e)));
        [| exact Hready].
      intros x Hx. apply andb_true_iff in Hx. tauto. }
    now rewrite optimizeObjective_no_routes.
Qed.

Lemma strategies_without_demands_witness :
  BSCAPACITY <> HIGHTOLOW
  /\ graph_ready demo_graph = true
  /\ trySolvingFeasibility unit (fun _ => sat tt) (fun _ _ => "x") [] []
       BSCAPACITY demo_graph [] fresh_optimize
     = Raise AttributeError.
Proof.
  split; [discriminate |]. split; [reflexivity |].
  apply (strategies_without_demands unit (fun _ => sat tt) (fun _ _ => "x")
           BSCAPACITY demo_graph fresh_optimize);
    [discriminate | reflexivity | discriminate].
Defined.

(** X10.  Whenever a strategy returns, the flag it returns is [True]
    exactly when the model it returns is not [None]. *)
Theorem strategies_solved_iff_model
  (z3_model : Type) (z3_check : solver -> check_result z3_model)
  (as_decimal : z3_model -> expr -> string)
  (R_ij : list (list route)) (demands : list demand) (strategy : Strategy)
  (g g' : MultiGraph) (f_R_vars f_R_vars' : list (list pyval))
  (s s' : solver) (model : option z3_model) (isSolved : bool) :
  trySolvingFeasibility z3_model z3_check as_decimal R_ij demands strategy
                        g f_R_vars s
  = Ok (model, isSolved, g', f_R_vars', s') ->
  (isSolved = true <-> exists m, model = Some m).
Proof.
  intros H.
  assert (Hiff : isSolved = true <-> model <> None).
  { destruct strategy; cbn [trySolvingFeasibility] in H.
    - inv_bind H as r Hr. destruct r as [[m b] s1]. inversion H; subst.
      apply optimizeObjective_scoped in Hr. destruct Hr as [_ [Hf Ht]].
      destruct isSolved; split; intros Hb; try discriminate; auto;
        exfalso; apply Hb; now apply Hf.
    - exact (setPricesHighToLow_verdict _ _ _ _ _ _ _ _ _ _ _ _ _ _ H).
    - exact (setPricesHighToLow_verdict _ _ _ _ _ _ _ _ _ _ _ _ _ _ H).
    - inv_bind H as r Hr. destruct r as [[[m b] g1] s1]. inversion H; subst.
      apply bs_loop_verdict in Hr; [exact Hr |].
      split; [discriminate | congruence].
    - inv_bind H as r Hr. destruct r as [[[m b] g1] s1]. inversion H; subst.
      apply inc_loop_verdict in Hr; [exact Hr |].
      split; [discriminate | congruence]. }
  rewrite Hiff. destruct model as [m |]; split.
  - intros _. now exists m.
  - discriminate.
  - congruence.
  - intros [m Hm]. discriminate.
Qed.

Lemma strategies_solved_iff_model_witness :
  exists model isSolved g' f_R_vars' s',
    trySolvingFeasibility unit (fun _ => sat tt) (fun _ _ => "x")
      demo_routes demo_demands INCCAPACITY demo_graph demo_flows
      fresh_optimize
    = Ok (model, isSolved, g', f_R_vars', s')
    /\ (isSolved = true <-> exists m, model = Some m).
Proof.
  destruct (trySolvingFeasibility unit (fun _ => sat tt) (fun _ _ => "x")
              demo_routes demo_demands INCCAPACITY demo_graph demo_flows
              fresh_optimize) as [[[[[model isSolved] g'] F'] s'] | e] eqn:H;
    [| vm_compute in H; discriminate].
  exists model, isSolved, g', F', s'. split; [reflexivity |].
  exact (strategies_solved_iff_model unit (fun _ => sat tt) (fun _ _ => "x")
           demo_routes demo_demands INCCAPACITY demo_graph g' demo_flows F'
           fresh_optimize s' model isSolved H).
Defined.

(** *** The price scan of setPricesHighToLow *)

Section PriceScan.

Variable z3_model : Type.
Variable z3_check : solver -> check_result z3_model.
Variable as_decimal : z3_model -> expr -> string.
Variable R_ij : list (list route).
Variable demands : list demand.

Lemma price_loop_step (with_obj : bool) (g : MultiGraph)
  (f_R_vars : list (list pyval)) (fuel : nat) (p : Z)
  (model : option z3_model) (last : option Q) (s : solver) :
  price_loop z3_model z3_check R_ij demands with_obj g f_R_vars (S fuel) p
             model last s
  = if (P_MIN <=? p)%Z
    then s3 <- price_probe R_ij demands with_obj g f_R_vars s p ;;
         match z3_check s3 with
         | sat m =>
             s4 <- pop s3 ;;
             price_loop z3_model z3_check R_ij demands with_obj g f_R_vars
                        fuel (p - P_DELTA)%Z (Some m) (Some (inject_Z p)) s4
         | _ => s4 <- pop s3 ;; Ok (model, last, s4)
         end
    else Ok (model, last, s).
Proof.
  cbn [price_loop]. unfold price_probe.
  destruct (P_MIN <=? p)%Z; [| reflexivity].
  destruct (mutate_edges _ (edges_view g) g) as [gc | e]; [| reflexivity].
  cbn [bind].
  destruct (addConstraints gc R_ij f_R_vars demands (push s)) as [s2 | e];
    [| reflexivity].
  cbn [bind]. destruct with_obj; [| reflexivity].
  destruct (getObjectiveExpr gc R_ij f_R_vars) as [objective | e];
    reflexivity.
Qed.

Lemma price_probe_pop (with_obj : bool) (g : MultiGraph)
  (f_R_vars : list (list pyval)) (s s3 : solver) (p : Z) :
  price_probe R_ij demands with_obj g f_R_vars s p = Ok s3 -> pop s3 = Ok s.
Proof.
  unfold price_probe. intros H.
  inv_bind H as gc Hgc. inv_bind H as s2 H2.
  apply addConstraints_extends in H2. destruct H2 as [new ->].
  destruct with_obj.
  - inv_bind H as objective Hobj. apply minimize_shape in H.
    destruct H as [e [-> ->]]. apply (pop_after_push s new [e]).
  - inversion H; subst. apply pop_push_assertions.
Qed.

(** The loop scans the prices downwards in steps of 5 and stops at the
    first price whose probe is not satisfiable. *)
Lemma price_loop_scan (with_obj : bool) (g : MultiGraph)
  (f_R_vars : list (list pyval)) (s : solver) (fuel : nat) :
  forall k model last model' last' s',
    price_loop z3_model z3_check R_ij demands with_obj g f_R_vars fuel
               (5 * k)%Z model last s = Ok (model', last', s') ->
    s' = s
    /\ ((model' = model /\ last' = last
         /\ ((k <= 0)%Z
             \/ exists s3,
                  price_probe R_ij demands with_obj g f_R_vars s (5 * k)%Z
                  = Ok s3
                  /\ forall m, z3_check s3 <> sat m))
        \/ exists k' m s3,
             (1 <= k' <= k)%Z
             /\ model' = Some m /\ last' = Some (inject_Z (5 * k'))
             /\ price_probe R_ij demands with_obj g f_R_vars s (5 * k')%Z
                = Ok s3
             /\ z3_check s3 = sat m
             /\ (forall j, (k' <= j <= k)%Z ->
                   exists s3' m',
                     price_probe R_ij demands with_obj g f_R_vars s (5 * j)%Z
                     = Ok s3'
                     /\ z3_check s3' = sat m')
             /\ (k' = 1%Z
                 \/ exists s3',
                      price_probe R_ij demands with_obj g f_R_vars s
                                  (5 * (k' - 1))%Z = Ok s3'
                      /\ forall m', z3_check s3' <> sat m')).
Proof.
  induction fuel as [| fuel IH]; intros k model last model' last' s' H;
    [discriminate |].
  rewrite price_loop_step in H. unfold P_MIN in H.
  destruct (5 <=? 5 * k)%Z eqn:Hguard.
  - apply Z.leb_le in Hguard. inv_bind H as s3 Hprobe.
    pose proof (price_probe_pop _ _ _ _ _ _ Hprobe) as Hpop.
    rewrite Hpop in H. cbn [bind] in H.
    destruct (z3_check s3) as [m | |] eqn:Hcheck.
    + replace (5 * k - P_DELTA)%Z with (5 * (k - 1))%Z in H
        by (unfold P_DELTA; lia).
      apply IH in H. destruct H as [Hs [[Hm [Hl Hstop]] | Hfound]].
      * split; [exact Hs |]. right. exists k, m, s3.
        repeat split; try assumption; try lia.
        -- intros j Hj. assert (j = k) by lia. subst j. eauto.
        -- destruct Hstop as [Hk | Hunsat]; [left; lia | now right].
      * split; [exact Hs |]. right.
        destruct Hfound as [k' [m' [s3' [Hk' [Hm [Hl [Hp [Hc [Hrun Hstop]]]]]]]]].
        exists k', m', s3'. repeat split; try assumption; try lia.
        intros j Hj. destruct (Z.eq_dec j k) as [-> | Hne]; [eauto |].
        apply Hrun. lia.
    + inversion H; subst. split; [reflexivity |]. left.
      repeat split. right. exists s3. split; [assumption |].
      intros m Hm. congruence.
    + inversion H; subst. split; [reflexivity |]. left.
      repeat split. right. exists s3. split; [assumption |].
      intros m Hm. congruence.
  - apply Z.leb_gt in Hguard. inversion H; subst.
    split; [reflexivity |]. left. repeat split. left. lia.
Qed.

Lemma setPricesHighToLow_outcome (with_obj : bool) (g g' : MultiGraph)
  (f_R_vars f_R_vars' : list (list pyval)) (s s' : solver)
  (model : option z3_model) (isSolved : bool) :
  setPricesHighToLow z3_model z3_check as_decimal R_ij demands with_obj
                     g f_R_vars s
  = Ok (model, isSolved, g', f_R_vars', s') ->
  precommit g demands 0 R_ij f_R_vars = Ok f_R_vars'
  /\ ((isSolved = false /\ model = None /\ g' = g
       /\ exists s3,
            price_probe R_ij demands with_obj g f_R_vars' s 120 = Ok s3
            /\ forall m, z3_check s3 <> sat m)
      \/ exists k m s3,
           isSolved = true /\ model = Some m
           /\ (1 <= k <= 24)%Z
           /\ price_probe R_ij demands with_obj g f_R_vars' s (5 * k)%Z
              = Ok s3
           /\ z3_check s3 = sat m
           /\ (forall j, (k <= j <= 24)%Z ->
                 exists s3' m',
                   price_probe R_ij demands with_obj g f_R_vars' s (5 * j)%Z
                   = Ok s3'
                   /\ z3_check s3' = sat m')
           /\ (k = 1%Z
               \/ exists s3',
                    price_probe R_ij demands with_obj g f_R_vars' s
                                (5 * (k - 1))%Z = Ok s3'
                    /\ forall m', z3_check s3' <> sat m')
           /\ mutate_edges
                (fun data => Ok (write_back z3_model as_decimal m
                                            (inject_Z (5 * k)) data))
                (edges_view g) g = Ok g').
Proof.
  unfold setPricesHighToLow. intros H.
  inv_bind H as F1 Hpre. inv_bind H as r Hloop. destruct r as [[m l] s1].
  change P_MAX with (5 * 24)%Z in Hloop.
  apply price_loop_scan in Hloop.
  destruct Hloop as [-> [[-> [-> Hstop]] | Hfound]].
  - inversion H; subst. split; [exact Hpre |]. left.
    repeat split. destruct Hstop as [Hk | Hunsat]; [lia | exact Hunsat].
  - destruct Hfound as [k [m' [s3 [Hk [-> [-> [Hp [Hc [Hrun Hstop]]]]]]]]].
    inv_bind H as g1 Hg1. inversion H; subst.
    split; [exact Hpre |]. right. exists k, m', s3.
    repeat split; try assumption; lia.
Qed.

End PriceScan.

Lemma write_back_attrs (z3_model : Type)
  (as_decimal : z3_model -> expr -> string) (m : z3_model) (p : Q)
  (data : dict) :
  dict_get (write_back z3_model as_decimal m p data) "price"
  = match dict_get data "price" with
    | Some (VExpr _) => Some (VNum p)
    | other => other
    end
  /\ dict_get (write_back z3_model as_decimal m p data) "f_e"
     = match dict_get data "f_e" with
       | Some (VExpr f_e) => Some (VStr (as_decimal m f_e))
       | other => other
       end
  /\ forall name, name <> "price" -> name <> "f_e" ->
       dict_get (write_back z3_model as_decimal m p data) name
       = dict_get data name.
Proof.
  unfold write_back, fix_price.
  destruct (dict_get data "price") as [[| q | str | e] |] eqn:Hp;
    try (destruct (dict_get data "f_e") as [[| q' | str' | f] |] eqn:Hf;
         rewrite ?Hp, ?Hf, ?dict_get_set_same;
         repeat split; try assumption;
         try (rewrite dict_get_set_other by discriminate; assumption);
         intros name Hn1 Hn2; rewrite ?dict_get_set_other by congruence;
         reflexivity).
  rewrite (dict_get_set_other data "price" "f_e") by discriminate.
  destruct (dict_get data "f_e") as [[| q' | str' | f] |] eqn:Hf;
    rewrite ?dict_get_set_same;
    repeat split;
    try (rewrite dict_get_set_other by discriminate;
         now rewrite dict_get_set_same);
    try (rewrite dict_get_set_other by discriminate; assumption);
    intros name Hn1 Hn2; rewrite ?dict_get_set_other by congruence;
    reflexivity.
Qed.

(** X11.  What [setPricesHighToLow] leaves in a well-keyed graph.  When
    it returns [False] the graph is as it was.  When it returns [True]
    there is one price [p] between 5 and 120 such that the data of
    every edge is rewritten in place: a price that was a z3 term is now
    the number [p], an [f_e] that was a z3 term is now the decimal
    string the model gives for it, and every other entry is as it
    was. *)
Theorem setPricesHighToLow_graph_written
  (z3_model : Type) (z3_check : solver -> check_result z3_model)
  (as_decimal : z3_model -> expr -> string)
  (R_ij : list (list route)) (demands : list demand) (with_obj : bool)
  (g g' : MultiGraph) (f_R_vars f_R_vars' : list (list pyval))
  (s s' : solver) (model : option z3_model) (isSolved : bool) :
  well_keyed g = true ->
  setPricesHighToLow z3_model z3_check as_decimal R_ij demands with_obj
                     g f_R_vars s
  = Ok (model, isSolved, g', f_R_vars', s') ->
  (isSolved = false -> g' = g)
  /\ (isSolved = true ->
      exists m p,
        model = Some m /\ (5 <= p <= 120)%Z
        /\ g_nodes g' = g_nodes g
        /\ length (g_edges g') = length (g_edges g)
        /\ forall n e,
             nth_error (g_edges g) n = Some e ->
             exists data',
               nth_error (g_edges g') n
               = Some (mkEdge (e_u e) (e_v e) (e_key e) data')
               /\ dict_get data' "price"
                  = match dict_get (e_data e) "price" with
                    | Some (VExpr _) => Some (VNum (inject_Z p))
                    | other => other
                    end
               /\ dict_get data' "f_e"
                  = match dict_get (e_data e) "f_e" with
                    | Some (VExpr f_e) => Some (VStr (as_decimal m f_e))
                    | other => other
                    end
               /\ forall name, name <> "price" -> name <> "f_e" ->
                    dict_get data' name = dict_get (e_data e) name).
Proof.
  intros Hg H. apply setPricesHighToLow_outcome in H.
  destruct H as [_ [[-> [_ [-> _]]] | Hfound]].
  - split; [reflexivity | discriminate].
  - destruct Hfound as [k [m [s3 [-> [-> [Hk [_ [_ [_ [_ Hwrite]]]]]]]]]].
    split; [discriminate |]. intros _.
    apply mutate_edges_keyed in Hwrite; [| exact Hg]. subst g'.
    exists m, (5 * k)%Z. split; [reflexivity |]. split; [lia |].
    split; [reflexivity |]. split; [apply length_map |].
    intros n e Hn. unfold map_data. cbn [g_edges].
    rewrite nth_error_map, Hn. cbn [option_map].
    eexists. split; [reflexivity |]. apply write_back_attrs.
Qed.

Lemma setPricesHighToLow_graph_written_witness :
  well_keyed uncapped_graph = true
  /\ exists model isSolved g' f_R_vars' s',
       setPricesHighToLow unit (fun _ => sat tt) (fun _ _ => "10")
         uncapped_routes [mkDemand "A" "B" 10] true uncapped_graph
         uncapped_flows fresh_optimize
       = Ok (model, isSolved, g', f_R_vars', s')
       /\ (isSolved = false -> g' = uncapped_graph)
       /\ (isSolved = true ->
           exists data',
             nth_error (g_edges g') 0 = Some (mkEdge "A" "B" (KInt 0) data')
             /\ dict_get data' "f_e" = Some (VStr "10")
             /\ dict_get data' "k" = Some (VNum 1)).
Proof.
  split; [reflexivity |].
  destruct (setPricesHighToLow unit (fun _ => sat tt) (fun _ _ => "10")
              uncapped_routes [mkDemand "A" "B" 10] true uncapped_graph
              uncapped_flows fresh_optimize)
    as [[[[[model isSolved] g'] F'] s'] | e] eqn:H;
    [| vm_compute in H; discriminate].
  exists model, isSolved, g', F', s'. split; [reflexivity |].
  destruct (setPricesHighToLow_graph_written unit (fun _ => sat tt)
              (fun _ _ => "10") uncapped_routes [mkDemand "A" "B" 10] true
              uncapped_graph g' uncapped_flows F' fresh_optimize s' model
              isSolved eq_refl H) as [Hfalse Htrue].
  split; [exact Hfalse |]. intros Hsolved.
  destruct (Htrue Hsolved) as [m [p [_ [_ [_ [_ Hedges]]]]]].
  destruct (Hedges 0 (mkEdge "A" "B" (KInt 0)
                        [("color", VStr "red"); ("price", VNum 5);
                         ("k", VNum 1);
                         ("f_e", VExpr (Real "f_A-B-red"))]) eq_refl)
    as [data' [Hnth [_ [Hf Hother]]]].
  exists data'. split; [exact Hnth |]. split; [exact Hf |].
  apply (Hother "k"); discriminate.
Defined.

(** X12.  The price [setPricesHighToLow] settles on.  Every turn of its
    loop checks, from the solver as it was handed over, the constraints
    for one trial price.  The strategy returns [False] exactly when the
    probe at 120 is not satisfiable.  Otherwise it returns the model of
    the probe at a price [p], a multiple of 5 between 5 and 120, such
    that the probes at [p], [p + 5], ..., 120 are all satisfiable and
    [p] is 5 or the probe at [p - 5] is not satisfiable. *)
Theorem setPricesHighToLow_lowest_price
  (z3_model : Type) (z3_check : solver -> check_result z3_model)
  (as_decimal : z3_model -> expr -> string)
  (R_ij : list (list route)) (demands : list demand) (with_obj : bool)
  (g g' : MultiGraph) (f_R_vars f_R_vars' : list (list pyval))
  (s s' : solver) (model : option z3_model) (isSolved : bool) :
  setPricesHighToLow z3_model z3_check as_decimal R_ij demands with_obj
                     g f_R_vars s
  = Ok (model, isSolved, g', f_R_vars', s') ->
  (isSolved = false /\ model = None
   /\ exists s3,
        price_probe R_ij demands with_obj g f_R_vars' s 120 = Ok s3
        /\ forall m, z3_check s3 <> sat m)
  \/ exists p m s3,
       isSolved = true /\ model = Some m
       /\ (5 <= p <= 120)%Z /\ (p mod 5 = 0)%Z
       /\ price_probe R_ij demands with_obj g f_R_vars' s p = Ok s3
       /\ z3_check s3 = sat m
       /\ (forall q, (p <= q <= 120)%Z -> (q mod 5 = 0)%Z ->
             exists s3' m',
               price_probe R_ij demands with_obj g f_R_vars' s q = Ok s3'
               /\ z3_check s3' = sat m')
       /\ (p = 5%Z
           \/ exists s3',
                price_probe R_ij demands with_obj g f_R_vars' s (p - 5)%Z
                = Ok s3'
                /\ forall m', z3_check s3' <> sat m').
Proof.
  intros H. apply setPricesHighToLow_outcome in H.
  destruct H as [_ [[-> [-> [_ Hunsat]]] | Hfound]].
  - left. auto.
  - right.
    destruct Hfound as [k [m [s3 [-> [-> [Hk [Hp [Hc [Hrun [Hstop _]]]]]]]]]].
    exists (5 * k)%Z, m, s3.
    split; [reflexivity |]. split; [reflexivity |]. split; [lia |].
    split; [rewrite Z.mul_comm; now apply Z.mod_mul |].
    split; [exact Hp |]. split; [exact Hc |]. split.
    + intros q Hq Hmod.
      assert (Hdiv : q = (5 * (q / 5))%Z) by (apply Z.div_exact; [lia | exact Hmod]).
      rewrite Hdiv. apply Hrun. lia.
    + destruct Hstop as [-> | Hunsat]; [now left | right].
      replace (5 * k - 5)%Z with (5 * (k - 1))%Z by lia. exact Hunsat.
Qed.

Lemma setPricesHighToLow_lowest_price_witness :
  exists model isSolved g' f_R_vars' s',
    setPricesHighToLow unit (fun _ => sat tt) (fun _ _ => "10")
      demo_routes demo_demands false demo_graph demo_flows fresh_optimize
    = Ok (model, isSolved, g', f_R_vars', s')
    /\ (isSolved = true ->
        exists p s3,
          (5 <= p <= 120)%Z
          /\ price_probe demo_routes demo_demands false demo_graph f_R_vars'
                         fresh_optimize p = Ok s3
          /\ model = Some tt
          /\ (p = 5%Z
              \/ exists s3',
                   price_probe demo_routes demo_demands false demo_graph
                               f_R_vars' fresh_optimize (p - 5)%Z = Ok s3'
                   /\ forall m', sat tt <> sat m')).
Proof.
  destruct (setPricesHighToLow unit (fun _ => sat tt) (fun _ _ => "10")
              demo_routes demo_demands false demo_graph demo_flows
              fresh_optimize)
    as [[[[[model isSolved] g'] F'] s'] | e] eqn:H;
    [| vm_compute in H; discriminate].
  exists model, isSolved, g', F', s'. split; [reflexivity |].
  intros Hsolved.
  destruct (setPricesHighToLow_lowest_price unit (fun _ => sat tt)
              (fun _ _ => "10") demo_routes demo_demands false demo_graph g'
              demo_flows F' fresh_optimize s' model isSolved H)
    as [[Hfalse _] | [p [m [s3 [_ [Hm [Hp [_ [Hprobe [_ [_ Hstop]]]]]]]]]]].
  - congruence.
  - exists p, s3. split; [exact Hp |]. split; [exact Hprobe |].
    split; [destruct m; exact Hm | exact Hstop].
Defined.

(** *** The capacity strategies *)

Lemma dict_set_twice (dd : dict) (k : string) (v1 v2 : pyval) :
  dict_set (dict_set dd k v1) k v2 = dict_set dd k v2.
Proof.
  induction dd as [| [k' v'] rest IH]; cbn [dict_set].
  - now rewrite String.eqb_refl.
  - destruct (String.eqb k' k) eqn:Hk; cbn [dict_set]; rewrite Hk;
      [reflexivity | now rewrite IH].
Qed.

Lemma map_data_compose (h1 h2 : dict -> dict) (g : MultiGraph) :
  map_data h2 (map_data h1 g) = map_data (fun d => h2 (h1 d)) g.
Proof.
  unfold map_data. cbn [g_nodes g_edges]. now rewrite map_map.
Qed.

Lemma map_data_ext (h1 h2 : dict -> dict) (g : MultiGraph) :
  (forall d, h1 d = h2 d) -> map_data h1 g = map_data h2 g.
Proof.
  intros H. unfold map_data. f_equal. apply map_ext. intros e. now rewrite H.
Qed.

Lemma map_data_nth (h : dict -> dict) (g : MultiGraph) (n : nat) (e : edge) :
  nth_error (g_edges g) n = Some e ->
  nth_error (g_edges (map_data h g)) n
  = Some (mkEdge (e_u e) (e_v e) (e_key e) (h (e_data e))).
Proof.
  intros H. unfold map_data. cbn [g_edges].
  now rewrite nth_error_map, H.
Qed.

Section CapacityStrategies.

Variable z3_model : Type.
Variable z3_check : solver -> check_result z3_model.
Variable R_ij : list (list route).
Variable demands : list demand.

Lemma bs_loop_S (n : nat) (C_MIN C_MAX : Z) (g : MultiGraph)
  (f_R_vars : list (list pyval)) (model : option z3_model) (isSolved : bool)
  (s : solver) :
  bs_loop z3_model z3_check R_ij demands (S n) C_MIN C_MAX g f_R_vars
          model isSolved s
  = (g1 <- mutate_edges (set_capacity ((C_MIN + C_MAX) / 2))
                        (edges_view g) g ;;
     '(model', isSolved', s') <-
       optimizeObjective z3_model z3_check R_ij demands g1 f_R_vars s ;;
     if isSolved'
     then bs_loop z3_model z3_check R_ij demands n C_MIN
                  ((C_MIN + C_MAX) / 2) g1 f_R_vars model' isSolved' s'
     else bs_loop z3_model z3_check R_ij demands n ((C_MIN + C_MAX) / 2)
                  C_MAX g1 f_R_vars model' isSolved' s').
Proof. reflexivity. Qed.

Lemma inc_loop_S (n : nat) (g : MultiGraph) (f_R_vars : list (list pyval))
  (model : option z3_model) (isSolved : bool) (s : solver) :
  inc_loop z3_model z3_check R_ij demands (S n) g f_R_vars model isSolved s
  = (g1 <- mutate_edges bump_capacity (edges_view g) g ;;
     '(model', isSolved', s') <-
       optimizeObjective z3_model z3_check R_ij demands g1 f_R_vars s ;;
     if isSolved'
     then Ok (model', isSolved', g1, s')
     else inc_loop z3_model z3_check R_ij demands n g1 f_R_vars
                   model' isSolved' s').
Proof. reflexivity. Qed.

(** After at least one turn the binary search leaves every edge with the
    capacity of the last turn, and returns the verdict of that turn. *)
Lemma bs_loop_graph (f_R_vars : list (list pyval)) (s : solver) (n : nat) :
  forall C_MIN C_MAX g model isSolved model' isSolved' g' s',
    well_keyed g = true ->
    (500 <= C_MIN <= C_MAX)%Z -> (C_MAX <= 5000)%Z ->
    bs_loop z3_model z3_check R_ij demands (S n) C_MIN C_MAX g f_R_vars
            model isSolved s = Ok (model', isSolved', g', s') ->
    exists c,
      (500 <= c <= 5000)%Z
      /\ g' = map_data (fun d => dict_set d "capacity" (VNum (inject_Z c))) g
      /\ optimizeObjective z3_model z3_check R_ij demands g' f_R_vars s
         = Ok (model', isSolved', s').
Proof.
  induction n as [| n IH];
    intros C_MIN C_MAX g model isSolved model' isSolved' g' s' Hg Hb Hmax H;
    rewrite bs_loop_S in H;
    inv_bind H as g1 Hg1; inv_bind H as r Hopt; destruct r as [[m b] s1];
    apply mutate_edges_keyed in Hg1; try exact Hg;
    assert (Hc : (C_MIN <= (C_MIN + C_MAX) / 2 <= C_MAX)%Z)
      by (split; [apply Z.div_le_lower_bound | apply Z.div_le_upper_bound];
          lia);
    pose proof (optimizeObjective_scoped _ _ _ _ _ _ _ _ _ _ Hopt)
      as [Hs1 _]; subst s1.
  - exists ((C_MIN + C_MAX) / 2)%Z. split; [lia |].
    destruct b; cbn [bs_loop] in H; inversion H; subst;
      (split; [reflexivity | exact Hopt]).
  - assert (Hg1' : well_keyed g1 = true).
    { subst g1. now apply well_keyed_map_data. }
    assert (Hnext : exists lo hi,
               (500 <= lo <= hi)%Z /\ (hi <= 5000)%Z
               /\ bs_loop z3_model z3_check R_ij demands (S n) lo hi g1
                          f_R_vars m b s = Ok (model', isSolved', g', s')).
    { destruct b.
      - exists C_MIN, ((C_MIN + C_MAX) / 2)%Z.
        split; [lia |]. split; [lia | exact H].
      - exists ((C_MIN + C_MAX) / 2)%Z, C_MAX.
        split; [lia |]. split; [lia | exact H]. }
    destruct Hnext as [lo [hi [Hb' [Hmax' Hrun]]]].
    destruct (IH lo hi g1 m b model' isSolved' g' s' Hg1' Hb' Hmax' Hrun)
      as [c [Hcb [Hg' Hverdict]]].
    exists c. split; [exact Hcb |]. split; [| exact Hverdict].
    rewrite Hg', Hg1, map_data_compose. apply map_data_ext. intros d.
    unfold result_or_self, set_capacity. apply dict_set_twice.
Qed.

Lemma bump_capacity_number (d : dict) (c : Q) :
  dict_get d "capacity" = Some (VNum c) ->
  result_or_self bump_capacity d = dict_set d "capacity" (VNum (c + 50)).
Proof.
  intros H. unfold result_or_self, bump_capacity, dict_getitem.
  now rewrite H.
Qed.

Lemma bumps_capacity (k : nat) :
  forall (d : dict) (c : Q),
    dict_get d "capacity" = Some (VNum c) ->
    exists c',
      dict_get (Nat.iter k (result_or_self bump_capacity) d) "capacity"
      = Some (VNum c')
      /\ (c' == c + 50 * inject_Z (Z.of_nat k))%Q
      /\ forall name, name <> "capacity" ->
           dict_get (Nat.iter k (result_or_self bump_capacity) d) name
           = dict_get d name.
Proof.
  induction k as [| k IH]; intros d c Hc.
  - exists c. cbn [Nat.iter nat_rect]. split; [exact Hc |].
    split; [| reflexivity]. cbn. ring.
  - destruct (IH d c Hc) as [c1 [Hc1 [Heq Hother]]].
    exists (c1 + 50)%Q.
    change (Nat.iter (S k) (result_or_self bump_capacity) d)
      with (result_or_self bump_capacity
              (Nat.iter k (result_or_self bump_capacity) d)).
    rewrite (bump_capacity_number _ c1 Hc1), dict_get_set_same.
    split; [reflexivity |]. split.
    + rewrite Heq, Nat2Z.inj_succ, <- Z.add_1_r, inject_Z_plus. cbn. ring.
    + intros name Hname. rewrite dict_get_set_other by congruence.
      now apply Hother.
Qed.

Lemma iter_shift {A : Type} (f : A -> A) (k : nat) (x : A) :
  Nat.iter k f (f x) = Nat.iter (S k) f x.
Proof.
  induction k as [| k IH]; [reflexivity |].
  change (f (Nat.iter k f (f x)) = f (Nat.iter (S k) f x)). now rewrite IH.
Qed.

(** After [k] turns [increaseCapacity] has added [C_Delta] to every
    capacity [k] times, and it returns the verdict of the last turn. *)
Lemma inc_loop_graph (f_R_vars : list (list pyval)) (s : solver) (n : nat) :
  forall g model isSolved model' isSolved' g' s',
    well_keyed g = true ->
    inc_loop z3_model z3_check R_ij demands (S n) g f_R_vars model isSolved s
    = Ok (model', isSolved', g', s') ->
    exists k,
      1 <= k <= S n
      /\ (isSolved' = false -> k = S n)
      /\ g' = map_data (Nat.iter k (result_or_self bump_capacity)) g
      /\ optimizeObjective z3_model z3_check R_ij demands g' f_R_vars s
         = Ok (model', isSolved', s').
Proof.
  induction n as [| n IH];
    intros g model isSolved model' isSolved' g' s' Hg H;
    rewrite inc_loop_S in H;
    inv_bind H as g1 Hg1; inv_bind H as r Hopt; destruct r as [[m b] s1];
    apply mutate_edges_keyed in Hg1; try exact Hg;
    pose proof (optimizeObjective_scoped _ _ _ _ _ _ _ _ _ _ Hopt)
      as [Hs1 _]; subst s1.
  - exists 1. split; [lia |].
    destruct b; cbn [inc_loop] in H; inversion H; subst;
      (split; [reflexivity |]); (split; [reflexivity | exact Hopt]).
  - destruct b.
    + inversion H; subst. exists 1. split; [lia |].
      split; [discriminate |]. split; [reflexivity | exact Hopt].
    + assert (Hg1' : well_keyed g1 = true).
      { subst g1. now apply well_keyed_map_data. }
      destruct (IH g1 m false model' isSolved' g' s' Hg1' H)
        as [k [Hk [Hlast [Hg' Hverdict]]]].
      exists (S k). split; [lia |]. split; [intros Hf; rewrite Hlast; auto |].
      split; [| exact Hverdict].
      rewrite Hg', Hg1, map_data_compose. apply map_data_ext. intros d.
      apply iter_shift.
Qed.

End CapacityStrategies.

(** X13.  [binarySearchCapacity] on a well-keyed graph overwrites the
    capacity of every edge, whether it had one or not, with one integer
    between 500 and 5000, the midpoint tried in the sixth turn, and
    leaves every other entry alone.  What it returns is what
    [optimizeObjective] returns on the graph it leaves: the verdict of
    the sixth turn alone, whatever the earlier turns found. *)
Theorem binarySearchCapacity_last_probe
  (z3_model : Type) (z3_check : solver -> check_result z3_model)
  (R_ij : list (list route)) (demands : list demand)
  (g g' : MultiGraph) (f_R_vars : list (list pyval)) (s s' : solver)
  (model : option z3_model) (isSolved : bool) :
  well_keyed g = true ->
  binarySearchCapacity z3_model z3_check R_ij demands g f_R_vars s
  = Ok (model, isSolved, g', s') ->
  exists c,
    (500 <= c <= 5000)%Z
    /\ g_nodes g' = g_nodes g
    /\ length (g_edges g') = length (g_edges g)
    /\ (forall n e,
          nth_error (g_edges g) n = Some e ->
          exists data',
            nth_error (g_edges g') n
            = Some (mkEdge (e_u e) (e_v e) (e_key e) data')
            /\ dict_get data' "capacity" = Some (VNum (inject_Z c))
            /\ forall name, name <> "capacity" ->
                 dict_get data' name = dict_get (e_data e) name)
    /\ optimizeObjective z3_model z3_check R_ij demands g' f_R_vars s
       = Ok (model, isSolved, s').
Proof.
  intros Hg H. unfold binarySearchCapacity in H.
  apply bs_loop_graph in H; [| exact Hg | lia | lia].
  destruct H as [c [Hc [-> Hverdict]]].
  exists c. split; [exact Hc |]. split; [reflexivity |].
  split; [apply length_map |]. split; [| exact Hverdict].
  intros n e Hn. eexists. split; [now apply map_data_nth |].
  split; [apply dict_get_set_same |].
  intros name Hname. apply dict_get_set_other. congruence.
Qed.

Lemma binarySearchCapacity_last_probe_witness :
  well_keyed demo_graph = true
  /\ exists model isSolved g' s' c,
       binarySearchCapacity unit (fun _ => sat tt) demo_routes demo_demands
         demo_graph demo_flows fresh_optimize
       = Ok (model, isSolved, g', s')
       /\ (500 <= c <= 5000)%Z
       /\ optimizeObjective unit (fun _ => sat tt) demo_routes demo_demands
            g' demo_flows fresh_optimize
          = Ok (model, isSolved, s').
Proof.
  split; [reflexivity |].
  destruct (binarySearchCapacity unit (fun _ => sat tt) demo_routes
              demo_demands demo_graph demo_flows fresh_optimize)
    as [[[[model isSolved] g'] s'] | e] eqn:H;
    [| vm_compute in H; discriminate].
  destruct (binarySearchCapacity_last_probe unit (fun _ => sat tt)
              demo_routes demo_demands demo_graph g' demo_flows
              fresh_optimize s' model isSolved eq_refl H)
    as [c [Hc [_ [_ [_ Hverdict]]]]].
  exists model, isSolved, g', s', c. auto.
Defined.

(** X14.  [increaseCapacity] on a well-keyed graph runs between one and
    ten turns, ten when it returns [False].  After [k] turns every
    capacity that was a number has grown by [50 * k], also when the
    strategy fails, and every other entry is as it was.  What it returns
    is what [optimizeObjective] returns on the graph it leaves. *)
Theorem increaseCapacity_raised
  (z3_model : Type) (z3_check : solver -> check_result z3_model)
  (R_ij : list (list route)) (demands : list demand)
  (g g' : MultiGraph) (f_R_vars : list (list pyval)) (s s' : solver)
  (model : option z3_model) (isSolved : bool) :
  well_keyed g = true ->
  increaseCapacity z3_model z3_check R_ij demands g f_R_vars s
  = Ok (model, isSolved, g', s') ->
  exists k,
    1 <= k <= 10
    /\ (isSolved = false -> k = 10)
    /\ g_nodes g' = g_nodes g
    /\ length (g_edges g') = length (g_edges g)
    /\ (forall n e c,
          nth_error (g_edges g) n = Some e ->
          dict_get (e_data e) "capacity" = Some (VNum c) ->
          exists data' c',
            nth_error (g_edges g') n
            = Some (mkEdge (e_u e) (e_v e) (e_key e) data')
            /\ dict_get data' "capacity" = Some (VNum c')
            /\ (c' == c + 50 * inject_Z (Z.of_nat k))%Q
            /\ forall name, name <> "capacity" ->
                 dict_get data' name = dict_get (e_data e) name)
    /\ optimizeObjective z3_model z3_check R_ij demands g' f_R_vars s
       = Ok (model, isSolved, s').
Proof.
  intros Hg H. unfold increaseCapacity in H.
  apply inc_loop_graph in H; [| exact Hg].
  destruct H as [k [Hk [Hlast [-> Hverdict]]]].
  exists k. split; [exact Hk |]. split; [exact Hlast |].
  split; [reflexivity |]. split; [apply length_map |].
  split; [| exact Hverdict].
  intros n e c Hn Hc.
  destruct (bumps_capacity k (e_data e) c Hc) as [c' [Hc' [Heq Hother]]].
  exists (Nat.iter k (result_or_self bump_capacity) (e_data e)), c'.
  split; [now apply map_data_nth |]. auto.
Qed.

Lemma increaseCapacity_raised_witness :
  well_keyed demo_graph = true
  /\ exists model isSolved g' s' data' c',
       increaseCapacity unit (fun _ => unsat) demo_routes demo_demands
         demo_graph demo_flows fresh_optimize
       = Ok (model, isSolved, g', s')
       /\ isSolved = false
       /\ nth_error (g_edges g') 0 = Some (mkEdge "A" "C" (KInt 0) data')
       /\ dict_get data' "capacity" = Some (VNum c')
       /\ (c' == 600)%Q.
Proof.
  split; [reflexivity |].
  destruct (increaseCapacity unit (fun _ => unsat) demo_routes demo_demands
              demo_graph demo_flows fresh_optimize)
    as [[[[model isSolved] g'] s'] | e] eqn:H;
    [| vm_compute in H; discriminate].
  destruct (increaseCapacity_raised unit (fun _ => unsat) demo_routes
              demo_demands demo_graph g' demo_flows fresh_optimize s' model
              isSolved eq_refl H)
    as [k [Hk [Hlast [_ [_ [Hedges Hverdict]]]]]].
  assert (Hfalse : isSolved = false).
  { unfold optimizeObjective in Hverdict.
    destruct (addConstraints g' demo_routes demo_flows demo_demands
                (push fresh_optimize)) as [s2 |]; [| discriminate].
    cbn [bind] in Hverdict.
    destruct (getObjectiveExpr g' demo_routes demo_flows) as [o |];
      [| discriminate].
    cbn [bind] in Hverdict.
    destruct (minimize s2 o) as [s3 |]; [| discriminate].
    cbn [bind] in Hverdict.
    destruct (pop s3); [| discriminate]. cbn [bind] in Hverdict.
    now inversion Hverdict. }
  destruct (Hedges 0 (mkEdge "A" "C" (KInt 0)
                        [("color", VStr "red"); ("capacity", VNum 100);
                         ("price", VNum 5); ("k", VNum 1);
                         ("f_e", VExpr (Real "f_A-C-red"))])
                   100%Q eq_refl eq_refl)
    as [data' [c' [Hnth [Hcap [Heq _]]]]].
  exists model, isSolved, g', s', data', c'.
  split; [reflexivity |]. split; [exact Hfalse |].
  split; [exact Hnth |]. split; [exact Hcap |].
  rewrite Heq, (Hlast Hfalse). reflexivity.
Defined.

(* ================================================================== *)
(** ** UpdateGraphAndGetSolution *)

Lemma mutate_edges_raise (f : dict -> result dict)
  (view : list (node * node * ekey * dict)) :
  forall g e,
    mutate_edges f view g = Raise e ->
    exists x, In x view /\ f (snd x) = Raise e.
Proof.
  induction view as [| [[[u v] k] d] rest IH]; intros g e H;
    cbn [mutate_edges] in H; [discriminate |].
  destruct (f d) as [d' | e'] eqn:Hd; cbn [bind] in H.
  - destruct (IH _ _ H) as [x [Hx Hf]]. exists x. split; [now right | exact Hf].
  - inversion H; subst. exists (u, v, k, d). split; [now left | exact Hd].
Qed.

Lemma mutate_edges_each (f : dict -> result dict)
  (view : list (node * node * ekey * dict)) :
  forall g g',
    mutate_edges f view g = Ok g' ->
    forall x, In x view -> exists d', f (snd x) = Ok d'.
Proof.
  induction view as [| [[[u v] k] d] rest IH]; intros g g' H x Hx;
    cbn [mutate_edges] in H; [contradiction |].
  inv_bind H as d' Hd. destruct Hx as [<- | Hx]; [eauto |].
  exact (IH _ _ H x Hx).
Qed.

Section SolutionFacts.

Variable z3_model : Type.
Variable as_decimal : z3_model -> expr -> string.

Lemma solved_plain (m : z3_model) (x : pyval) :
  is_expr (solved z3_model as_decimal m x) = false.
Proof. now destruct x. Qed.

Lemma store_solved_cases (m : z3_model) (data : dict) :
  match dict_get data "f_e", dict_get data "price" with
  | Some f_e, Some price =>
      exists data',
        store_solved z3_model as_decimal m data = Ok data'
        /\ dict_get data' "f_e" = Some (solved z3_model as_decimal m f_e)
        /\ dict_get data' "price" = Some (solved z3_model as_decimal m price)
        /\ forall name, name <> "f_e" -> name <> "price" ->
             dict_get data' name = dict_get data name
  | _, _ => store_solved z3_model as_decimal m data = Raise KeyError
  end.
Proof.
  unfold store_solved, dict_getitem.
  destruct (dict_get data "f_e") as [f_e |] eqn:Hf; [| reflexivity].
  cbn [bind].
  assert (Hp1 : dict_get (if is_expr f_e
                          then dict_set data "f_e"
                                        (solved z3_model as_decimal m f_e)
                          else data) "price" = dict_get data "price").
  { destruct (is_expr f_e); [| reflexivity].
    apply dict_get_set_other. discriminate. }
  rewrite Hp1.
  destruct (dict_get data "price") as [price |] eqn:Hp; [| reflexivity].
  cbn [bind]. eexists. split; [reflexivity |].
  destruct f_e as [| qf | sf | ef], price as [| qp | sp | ep];
    cbn [is_expr solved];
    rewrite ?dict_get_set_same;
    repeat split; try assumption;
    try (rewrite dict_get_set_other by discriminate;
         first [assumption | apply dict_get_set_same]);
    intros name Hn1 Hn2; rewrite ?dict_get_set_other by congruence;
    reflexivity.
Qed.

End SolutionFacts.

(** X15.  What [UpdateGraphAndGetSolution] returns and leaves, whenever
    it returns on a well-keyed graph.  The solution has the one entry
    ["f_R_vals"], a matrix of the shape of the flow matrix in which
    every z3 term is replaced by the decimal string of its value in the
    model and every other entry is kept; no z3 term is left in it.  In
    the graph the [f_e] and the price of every edge are replaced in the
    same way, and every other entry of the edge is as it was. *)
Theorem UpdateGraphAndGetSolution_values
  (z3_model : Type) (as_decimal : z3_model -> expr -> string)
  (g g' : MultiGraph) (m : z3_model) (f_R_vars : list (list pyval))
  (solution : list (string * list (list pyval))) :
  well_keyed g = true ->
  UpdateGraphAndGetSolution z3_model as_decimal g m f_R_vars
  = Ok (solution, g') ->
  (exists f_R_vals,
     solution = [("f_R_vals", f_R_vals)]
     /\ length f_R_vals = length f_R_vars
     /\ (forall i row,
           nth_error f_R_vars i = Some row ->
           exists vals,
             nth_error f_R_vals i = Some vals
             /\ length vals = length row
             /\ forall j x,
                  nth_error row j = Some x ->
                  nth_error vals j
                  = Some match x with
                         | VExpr e => VStr (as_decimal m e)
                         | _ => x
                         end)
     /\ forallb (forallb (fun x => negb (is_expr x))) f_R_vals = true)
  /\ g_nodes g' = g_nodes g
  /\ length (g_edges g') = length (g_edges g)
  /\ forall n e,
       nth_error (g_edges g) n = Some e ->
       exists f_e price data',
         dict_get (e_data e) "f_e" = Some f_e
         /\ dict_get (e_data e) "price" = Some price
         /\ nth_error (g_edges g') n
            = Some (mkEdge (e_u e) (e_v e) (e_key e) data')
         /\ dict_get data' "f_e"
            = Some match f_e with
                   | VExpr e => VStr (as_decimal m e)
                   | _ => f_e
                   end
         /\ dict_get data' "price"
            = Some match price with
                   | VExpr e => VStr (as_decimal m e)
                   | _ => price
                   end
         /\ forall name, name <> "f_e" -> name <> "price" ->
              dict_get data' name = dict_get (e_data e) name.
Proof.
  intros Hg H. unfold UpdateGraphAndGetSolution in H.
  inv_bind H as g1 Hg1. inversion H; subst solution g1; clear H.
  split.
  - exists (map (map (solved z3_model as_decimal m)) f_R_vars).
    split; [reflexivity |]. split; [apply length_map |]. split.
    + intros i row Hrow. exists (map (solved z3_model as_decimal m) row).
      rewrite nth_error_map, Hrow. split; [reflexivity |].
      split; [apply length_map |].
      intros j x Hx. now rewrite nth_error_map, Hx.
    + apply forallb_forall. intros row Hrow. apply in_map_iff in Hrow.
      destruct Hrow as [row0 [<- _]]. apply forallb_forall.
      intros x Hx. apply in_map_iff in Hx. destruct Hx as [x0 [<- _]].
      now rewrite solved_plain.
  - pose proof (mutate_edges_each _ _ _ _ Hg1) as Heach.
    apply mutate_edges_keyed in Hg1; [| exact Hg]. subst g'.
    split; [reflexivity |]. split; [apply length_map |].
    intros n e Hn.
    destruct (view_reports_edge g e Hg (nth_error_In _ _ Hn))
      as [u [v [Hin _]]].
    destruct (Heach _ Hin) as [d' Hd']. cbn [snd] in Hd'.
    pose proof (store_solved_cases z3_model as_decimal m (e_data e)) as Hc.
    destruct (dict_get (e_data e) "f_e") as [f_e |];
      [| rewrite Hc in Hd'; discriminate].
    destruct (dict_get (e_data e) "price") as [price |];
      [| rewrite Hc in Hd'; discriminate].
    destruct Hc as [data' [Hrun [Hf [Hp Hother]]]].
    exists f_e, price, data'. split; [reflexivity |]. split; [reflexivity |].
    split.
    + rewrite (map_data_nth _ g n e Hn). unfold result_or_self.
      now rewrite Hrun.
    + auto.
Qed.

Lemma UpdateGraphAndGetSolution_values_witness :
  well_keyed demo_graph = true
  /\ exists solution g',
       UpdateGraphAndGetSolution unit (fun _ _ => "60") demo_graph tt
         [[VExpr (Real "flow_0_0"); VNum 60]] = Ok (solution, g')
       /\ solution = [("f_R_vals", [[VStr "60"; VNum 60]])]
       /\ exists data',
            nth_error (g_edges g') 1 = Some (mkEdge "A" "C" (KInt 1) data')
            /\ dict_get data' "f_e" = Some (VStr "60")
            /\ dict_get data' "price" = Some (VNum 5).
Proof.
  split; [reflexivity |].
  destruct (UpdateGraphAndGetSolution unit (fun _ _ => "60") demo_graph tt
              [[VExpr (Real "flow_0_0"); VNum 60]])
    as [[solution g'] | e] eqn:H; [| vm_compute in H; discriminate].
  exists solution, g'. split; [reflexivity |].
  destruct (UpdateGraphAndGetSolution_values unit (fun _ _ => "60")
              demo_graph g' tt [[VExpr (Real "flow_0_0"); VNum 60]] solution
              eq_refl H) as [_ [_ [_ Hedges]]].
  split.
  - unfold UpdateGraphAndGetSolution in H.
    destruct (mutate_edges (store_solved unit (fun _ _ => "60") tt)
                (edges_view demo_graph) demo_graph); [| discriminate].
    cbn [bind] in H. now inversion H.
  - destruct (Hedges 1 (mkEdge "A" "C" (KInt 1)
                          [("color", VStr "Bus"); ("capacity", VNum 500);
                           ("price", VNum 5); ("k", VNum 2);
                           ("f_e", VExpr (Real "f_A-C-Bus"))]) eq_refl)
      as [f_e [price [data' [Hf [Hp [Hnth [Hf' [Hp' _]]]]]]]].
    inversion Hf; subst f_e. inversion Hp; subst price.
    exists data'. auto.
Defined.



(* ================================================================== *)
(** ** Reading and writing the edge-list files *)

Lemma parse_edgelist_nodes (lines : list edge_line) (n : node) :
  In n (g_nodes (parse_edgelist lines))
  <-> exists l, In l lines /\ (l_u l = n \/ l_v l = n).
Proof.
  induction lines as [| l lines IH] using rev_ind.
  - split; [intros [] | intros [l [[] _]]].
  - rewrite parse_edgelist_snoc, add_edge_nodes, !add_node_In, IH. split.
    + intros [[[l' [Hl' Hends]] | Hu] | Hv].
      * exists l'. split; [apply in_or_app; now left | exact Hends].
      * exists l. split; [apply in_or_app; right; now left | now left].
      * exists l. split; [apply in_or_app; right; now left | now right].
    + intros [l' [Hl' Hends]]. apply in_app_or in Hl'.
      destruct Hl' as [Hl' | [<- | []]].
      * left. left. now exists l'.
      * destruct Hends as [Hu | Hv]; [left; now right | now right].
Qed.

(** Edge [n] of the parsed graph is line [n] of the list. *)
Lemma parse_edgelist_edges (lines : list edge_line) :
  length (g_edges (parse_edgelist lines)) = length lines
  /\ forall n l,
       nth_error lines n = Some l ->
       exists key,
         nth_error (g_edges (parse_edgelist lines)) n
         = Some (mkEdge (l_u l) (l_v l) key (dict_update [] (l_attrs l))).
Proof.
  induction lines as [| l lines [IHlen IHnth]] using rev_ind.
  - split; [reflexivity | intros [| n] l H; discriminate].
  - rewrite parse_edgelist_snoc.
    rewrite (add_edge_auto (parse_edgelist lines) (l_u l) (l_v l) (l_attrs l))
      by apply (shape_keys _ (parse_edgelist_shape lines)).
    cbn [g_edges]. rewrite !length_app, IHlen. split; [reflexivity |].
    intros n l' Hn.
    destruct (Nat.lt_ge_cases n (length lines)) as [Hlt | Hge].
    + rewrite nth_error_app1 in Hn by exact Hlt.
      rewrite nth_error_app1 by (rewrite IHlen; exact Hlt).
      now apply IHnth.
    + rewrite nth_error_app2 in Hn by exact Hge.
      rewrite nth_error_app2 by (rewrite IHlen; exact Hge).
      rewrite IHlen.
      destruct (n - length lines) as [| k]; cbn [nth_error] in *.
      * inversion Hn; subst l'. eauto.
      * destruct k; discriminate.
Qed.

Lemma collect_edge_list_concat (networks : list network) :
  forall acc lines,
    collect_edge_list networks acc = Ok lines ->
    exists lists,
      map net_edge_list networks = map Some lists
      /\ lines = acc ++ concat lists.
Proof.
  induction networks as [| net rest IH]; intros acc lines H;
    cbn [collect_edge_list] in H.
  - inversion H; subst. exists []. now rewrite app_nil_r.
  - destruct (net_edge_list net) as [l |] eqn:Hnet; [| discriminate].
    apply IH in H. destruct H as [lists [Hmap ->]].
    exists (l :: lists). cbn [map concat]. rewrite Hnet, Hmap.
    now rewrite app_assoc.
Qed.

Lemma collect_edge_list_total (networks : list network)
  (lists : list (list edge_line)) :
  map net_edge_list networks = map Some lists ->
  forall acc, collect_edge_list networks acc = Ok (acc ++ concat lists).
Proof.
  revert lists.
  induction networks as [| net rest IH]; intros [| l lists] H acc;
    try discriminate; cbn [collect_edge_list concat].
  - now rewrite app_nil_r.
  - cbn [map] in H. inversion H as [[Hnet Hrest]]. rewrite Hnet.
    rewrite (IH lists Hrest). now rewrite app_assoc.
Qed.

(** X17.  [parseRoutes] raises [TypeError] on a file without an
    ["edge_list"].  Otherwise it returns a graph with one edge per line,
    in line order, whose nodes are the node tokens of the lines; between
    two nodes the parallel edges are the lines that join them in either
    orientation, keyed 0, 1, 2, ... in line order, each with the
    attributes of its line.  No [k] is filled in. *)
Theorem parseRoutes_graph (f : routes_file) :
  match r_edge_list f with
  | None => parseRoutes f = Raise TypeError
  | Some lines =>
      exists g,
        parseRoutes f = Ok g
        /\ length (g_edges g) = length lines
        /\ (forall n l,
              nth_error lines n = Some l ->
              exists key,
                nth_error (g_edges g) n
                = Some (mkEdge (l_u l) (l_v l) key
                               (dict_update [] (l_attrs l))))
        /\ (forall n,
              has_node g n = true
              <-> exists l, In l lines /\ (l_u l = n \/ l_v l = n))
        /\ forall a b,
             keydict g a b
             = combine
                 (map KInt (seq 0 (length (filter (line_joins a b) lines))))
                 (map (fun l => dict_update [] (l_attrs l))
                      (filter (line_joins a b) lines))
  end.
Proof.
  unfold parseRoutes. destruct (r_edge_list f) as [lines |]; [| reflexivity].
  exists (parse_edgelist lines). split; [reflexivity |].
  destruct (parse_edgelist_edges lines) as [Hlen Hnth].
  split; [exact Hlen |]. split; [exact Hnth |]. split.
  - intros n. unfold has_node. rewrite mem_In. apply parse_edgelist_nodes.
  - intros a b. rewrite parse_edgelist_keydict. unfold numbered.
    now rewrite length_map.
Qed.

Lemma resolve_k_spec (k_map : option dict) (data data' : dict) :
  resolve_k k_map data = Ok data' ->
  (exists k, dict_get data "k" = Some k /\ truthy k = true /\ data' = data)
  \/ ((dict_get data "k" = None
       \/ exists k, dict_get data "k" = Some k /\ truthy k = false)
      /\ exists table color k',
           k_map = Some table
           /\ dict_get data "color" = Some (VStr color)
           /\ dict_get table color = Some k'
           /\ data' = dict_set data "k" k').
Proof.
  unfold resolve_k. intros H.
  assert (Hcase : forall present : bool,
             (if present then Ok data
              else match k_map with
                   | None => Raise TypeError
                   | Some table =>
                       match dict_get data "color" with
                       | Some (VStr color) =>
                           match dict_get table color with
                           | Some k => Ok (dict_set data "k" k)
                           | None => Raise KeyError
                           end
                       | _ => Raise KeyError
                       end
                   end) = Ok data' ->
             (present = true /\ data' = data)
             \/ (present = false
                 /\ exists table color k',
                      k_map = Some table
                      /\ dict_get data "color" = Some (VStr color)
                      /\ dict_get table color = Some k'
                      /\ data' = dict_set data "k" k')).
  { intros [|] Hp; [left; now inversion Hp |]. right. split; [reflexivity |].
    destruct k_map as [table |]; [| discriminate].
    destruct (dict_get data "color") as [[| | color |] |]; try discriminate.
    destruct (dict_get table color) as [k' |] eqn:Hk; [| discriminate].
    inversion Hp; subst. eauto 8. }
  destruct (dict_get data "k") as [k |] eqn:Hk.
  - assert (H' : Ok (truthy k) = Ok (truthy k) /\ is_expr k = false).
    { destruct k; cbn [bind] in H; try discriminate; now split. }
    destruct H' as [_ Hplain].
    destruct (Hcase (truthy k)) as [[Ht ->] | [Hf Htable]].
    + destruct k; try discriminate; exact H.
    + left. exists k. auto.
    + right. split; [right; exists k; auto | exact Htable].
  - cbn [bind] in H. destruct (Hcase false H) as [[Ht _] | [_ Htable]];
      [discriminate |]. right. split; [now left | exact Htable].
Qed.

(** X18.  Whenever [parseGraph] returns, the demands are those of the
    file, edge [n] of the graph is line [n] of the edge lists of the
    networks taken together, and its data is the attributes of the line
    with [k] settled: kept when the line has a [k] that is truthy, and
    otherwise looked up under the colour of the line in the table of
    the file.  So every edge of a parsed graph has a [k]. *)
Theorem parseGraph_resolves_k (f : json_data) (g : MultiGraph)
  (dem : option (list demand)) :
  parseGraph f = Ok (g, dem) ->
  dem = j_demands f
  /\ exists networks lists,
       j_networks f = Some networks
       /\ map net_edge_list networks = map Some lists
       /\ length (g_edges g) = length (concat lists)
       /\ forall n l,
            nth_error (concat lists) n = Some l ->
            exists key data',
              nth_error (g_edges g) n
              = Some (mkEdge (l_u l) (l_v l) key data')
              /\ dict_get data' "k" <> None
              /\ ((exists k,
                     dict_get (dict_update [] (l_attrs l)) "k" = Some k
                     /\ truthy k = true
                     /\ data' = dict_update [] (l_attrs l))
                  \/ ((dict_get (dict_update [] (l_attrs l)) "k" = None
                       \/ exists k,
                            dict_get (dict_update [] (l_attrs l)) "k" = Some k
                            /\ truthy k = false)
                      /\ exists table color k',
                           j_k f = Some table
                           /\ dict_get (dict_update [] (l_attrs l)) "color"
                              = Some (VStr color)
                           /\ dict_get table color = Some k'
                           /\ data' = dict_set (dict_update [] (l_attrs l))
                                               "k" k')).
Proof.
  unfold parseGraph. intros H.
  inv_bind H as networks Hnets. inv_bind H as lines Hlines.
  inv_bind H as g1 Hg1. inversion H; subst g1 dem; clear H.
  split; [reflexivity |].
  destruct (j_networks f) as [nets |]; inversion Hnets; subst nets.
  apply collect_edge_list_concat in Hlines.
  destruct Hlines as [lists [Hmap Hlines]]. cbn [app] in Hlines. subst lines.
  exists networks, lists. split; [reflexivity |]. split; [exact Hmap |].
  pose proof (mutate_edges_each _ _ _ _ Hg1) as Heach.
  pose proof (parsed_shape_keyed _ (parse_edgelist_shape (concat lists)))
    as Hkeyed.
  apply mutate_edges_keyed in Hg1; [| exact Hkeyed]. subst g.
  destruct (parse_edgelist_edges (concat lists)) as [Hlen Hnth].
  split; [unfold map_data; cbn [g_edges]; now rewrite length_map |].
  intros n l Hn. destruct (Hnth n l Hn) as [key Hedge].
  exists key. rewrite (map_data_nth _ _ n _ Hedge). cbn [e_u e_v e_key e_data].
  destruct (view_reports_edge _ _ Hkeyed (nth_error_In _ _ Hedge))
    as [u [v [Hin _]]].
  destruct (Heach _ Hin) as [d' Hd']. cbn [snd e_data] in Hd'.
  unfold result_or_self. rewrite Hd'.
  exists d'. split; [reflexivity |].
  pose proof (resolve_k_spec _ _ _ Hd') as Hspec. split; [| exact Hspec].
  destruct Hspec as [[k [Hk [_ ->]]] | [_ [table [color [k' [_ [_ [_ ->]]]]]]]].
  - congruence.
  - rewrite dict_get_set_same. discriminate.
Qed.

Lemma parseGraph_resolves_k_witness :
  exists g dem,
    parseGraph example_file = Ok (g, dem)
    /\ dem = Some [mkDemand "A" "C" 120]
    /\ exists key data',
         nth_error (g_edges g) 1 = Some (mkEdge "A" "C" key data')
         /\ dict_get data' "k" <> None.
Proof.
  destruct (parseGraph example_file) as [[g dem] | e] eqn:H;
    [| vm_compute in H; discriminate].
  exists g, dem. split; [reflexivity |].
  destruct (parseGraph_resolves_k example_file g dem H)
    as [Hdem [networks [lists [Hnets [Hmap [_ Hedges]]]]]].
  split; [exact Hdem |].
  inversion Hnets; subst networks.
  destruct lists as [| l1 [| l2 lists]]; try discriminate.
  inversion Hmap; subst l1.
  destruct (Hedges 1 (mkLine "A" "C" [("color", VStr "Bus");
                                      ("capacity", VNum 500);
                                      ("price", VNum 5)]) eq_refl)
    as [key [data' [Hnth [Hk _]]]].
  exists key, data'. split; assumption.
Defined.

Lemma k_resolved_keeps (k_map : option dict) (d : dict) :
  k_resolved d = true -> resolve_k k_map d = Ok d.
Proof.
  unfold k_resolved, resolve_k.
  destruct (dict_get d "k") as [[| q | str | e] |]; cbn [truthy is_expr negb];
    intros H; try discriminate; cbn [bind];
    try (rewrite andb_true_r in H; now rewrite H).
Qed.

Lemma resolve_k_alone (d d' : dict) :
  resolve_k None d = Ok d' -> k_resolved d = true.
Proof.
  unfold k_resolved, resolve_k.
  destruct (dict_get d "k") as [[| q | str | e] |]; cbn [bind truthy is_expr];
    intros H; try discriminate;
    match goal with
    | |- ?b && _ = true => destruct b; [reflexivity | discriminate]
    end.
Qed.

Lemma resolve_k_alone_raise (d : dict) (e : exn) :
  resolve_k None d = Raise e ->
  e = TypeError \/ exists x, dict_get d "k" = Some (VExpr x).
Proof.
  unfold resolve_k.
  destruct (dict_get d "k") as [[| q | str | x] |]; cbn [bind];
    intros H;
    try (right; eexists; reflexivity);
    match type of H with
    | (if ?b then _ else _) = _ => destruct b; [discriminate |]
    | _ => idtac
    end;
    left; congruence.
Qed.

Lemma map_data_id_on (h : dict -> dict) (g : MultiGraph) :
  (forall e, In e (g_edges g) -> h (e_data e) = e_data e) -> map_data h g = g.
Proof.
  intros H. unfold map_data. destruct g as [ns es]. cbn [g_nodes g_edges] in *.
  f_equal. rewrite <- (map_id es) at 2. apply map_ext_in.
  intros e He. rewrite (H e He). now destruct e.
Qed.

Lemma parse_edgelist_edge_line (lines : list edge_line) (e : edge) :
  In e (g_edges (parse_edgelist lines)) ->
  exists l, In l lines /\ e_data e = dict_update [] (l_attrs l).
Proof.
  intros He. apply In_nth_error in He. destruct He as [n Hn].
  destruct (parse_edgelist_edges lines) as [Hlen Hnth].
  assert (Hlt : n < length lines).
  { rewrite <- Hlen. apply nth_error_Some. congruence. }
  destruct (nth_error lines n) as [l |] eqn:Hl;
    [| apply nth_error_None in Hl; lia].
  destruct (Hnth n l Hl) as [key Hedge]. rewrite Hedge in Hn.
  inversion Hn; subst e. exists l. split; [| reflexivity].
  now apply nth_error_In in Hl.
Qed.

Lemma parse_edgelist_line_edge (lines : list edge_line) (l : edge_line) :
  In l lines ->
  exists e, In e (g_edges (parse_edgelist lines))
            /\ e_data e = dict_update [] (l_attrs l).
Proof.
  intros Hl. apply In_nth_error in Hl. destruct Hl as [n Hn].
  destruct (parse_edgelist_edges lines) as [_ Hnth].
  destruct (Hnth n l Hn) as [key Hedge]. eexists.
  split; [exact (nth_error_In _ _ Hedge) | reflexivity].
Qed.

(** X19.  The colour table is consulted only for lines without a truthy
    [k].  When every line of the networks has one, [parseGraph] returns
    the graph of the lines untouched, the graph [parseRoutes] returns
    for the same lines, whatever the table.  When the file has no table
    and holds no z3 term, [parseGraph] raises [TypeError] as soon as one
    line is without a truthy [k]. *)
Theorem parseGraph_own_k (k_table : option dict) (networks : list network)
  (lists : list (list edge_line)) (demands : option (list demand)) :
  map net_edge_list networks = map Some lists ->
  (forallb (fun l => k_resolved (dict_update [] (l_attrs l))) (concat lists)
   = true ->
   parseGraph (mkJson k_table (Some networks) demands)
   = Ok (parse_edgelist (concat lists), demands)
   /\ parseRoutes (mkRoutes (Some (concat lists)))
      = Ok (parse_edgelist (concat lists)))
  /\ (forallb (fun l =>
                 match dict_get (dict_update [] (l_attrs l)) "k" with
                 | Some (VExpr _) => false
                 | _ => true
                 end) (concat lists) = true ->
      forallb (fun l => k_resolved (dict_update [] (l_attrs l))) (concat lists)
      = false ->
      parseGraph (mkJson None (Some networks) demands) = Raise TypeError).
Proof.
  intros Hmap. split.
  - intros Hall. split; [| reflexivity].
    unfold parseGraph. cbn [j_networks j_k j_demands bind].
    rewrite (collect_edge_list_total networks lists Hmap []). cbn [app bind].
    assert (Hkeep : forall e,
               In e (g_edges (parse_edgelist (concat lists))) ->
               resolve_k k_table (e_data e) = Ok (e_data e)).
    { intros e He. apply parse_edgelist_edge_line in He.
      destruct He as [l [Hl ->]]. apply k_resolved_keeps.
      rewrite forallb_forall in Hall. now apply Hall. }
    destruct (mutate_edges_view_succeeds (resolve_k k_table)
                (parse_edgelist (concat lists))) as [g' Hg'].
    { intros e He. rewrite (Hkeep e He). eauto. }
    rewrite Hg'. cbn [bind].
    apply mutate_edges_keyed in Hg';
      [| apply parsed_shape_keyed, parse_edgelist_shape].
    rewrite Hg', map_data_id_on; [reflexivity |].
    intros e He. unfold result_or_self. now rewrite (Hkeep e He).
  - intros Hplain Hsome.
    unfold parseGraph. cbn [j_networks j_k j_demands bind].
    rewrite (collect_edge_list_total networks lists Hmap []). cbn [app bind].
    pose proof (parsed_shape_keyed _ (parse_edgelist_shape (concat lists)))
      as Hkeyed.
    destruct (mutate_edges (resolve_k None)
                (edges_view (parse_edgelist (concat lists)))
                (parse_edgelist (concat lists))) as [g' | e] eqn:Hrun.
    + exfalso.
      pose proof (mutate_edges_each _ _ _ _ Hrun) as Heach.
      assert (Hall : forallb (fun l => k_resolved (dict_update [] (l_attrs l)))
                             (concat lists) = true); [| congruence].
      apply forallb_forall. intros l Hl.
      destruct (parse_edgelist_line_edge _ l Hl) as [e [He Hd]].
      destruct (view_reports_edge _ e Hkeyed He) as [u [v [Hin _]]].
      destruct (Heach _ Hin) as [d' Hd']. cbn [snd] in Hd'.
      rewrite <- Hd. exact (resolve_k_alone _ _ Hd').
    + cbn [bind]. apply mutate_edges_raise in Hrun.
      destruct Hrun as [[[[u v] k] d] [Hin Hraise]]. cbn [snd] in Hraise.
      apply resolve_k_alone_raise in Hraise.
      destruct Hraise as [-> | [x Hx]]; [reflexivity |].
      exfalso. apply edges_from_data in Hin. destruct Hin as [e0 [He0 Hd0]].
      apply parse_edgelist_edge_line in He0. destruct He0 as [l [Hl Hdl]].
      rewrite forallb_forall in Hplain. specialize (Hplain l Hl).
      rewrite <- Hdl, Hd0, Hx in Hplain. discriminate.
Qed.

Lemma parseGraph_own_k_witness :
  parseGraph
    (mkJson None
       (Some [mkNetwork "Combined"
                (Some [mkLine "A" "C" [("color", VStr "red"); ("k", VNum 1)]])])
       None)
  = Ok (parse_edgelist [mkLine "A" "C" [("color", VStr "red"); ("k", VNum 1)]],
        None)
  /\ parseGraph
       (mkJson None
          (Some [mkNetwork "Combined"
                   (Some [mkLine "A" "C" [("color", VStr "red");
                                          ("k", VNum 0)]])])
          None)
     = Raise TypeError.
Proof.
  split.
  - apply (parseGraph_own_k None
             [mkNetwork "Combined"
                (Some [mkLine "A" "C" [("color", VStr "red"); ("k", VNum 1)]])]
             [[mkLine "A" "C" [("color", VStr "red"); ("k", VNum 1)]]] None);
      reflexivity.
  - apply (parseGraph_own_k None
             [mkNetwork "Combined"
                (Some [mkLine "A" "C" [("color", VStr "red"); ("k", VNum 0)]])]
             [[mkLine "A" "C" [("color", VStr "red"); ("k", VNum 0)]]] None);
      reflexivity.
Defined.

(** X20.  [writeGraphToJSON] on a well-keyed graph returns.  The
    document has the one network ["Combined"], no colour table and no
    demands.  Its edge list has one line per reported edge, in the order
    of [graph.edges], with the two nodes as reported and the attributes
    of the edge in their order, every z3 term replaced by [None] and
    every other value as it is; so no z3 term is written. *)
Theorem writeGraphToJSON_document (g : MultiGraph) :
  well_keyed g = true ->
  exists lines,
    writeGraphToJSON g
    = Ok (mkJson None (Some [mkNetwork "Combined" (Some lines)]) None)
    /\ lines
       = map (fun x : node * node * ekey * dict =>
                let '(u, v, _, data) := x in
                mkLine u v
                  (map (fun kv => if is_expr (snd kv) then (fst kv, VNone)
                                  else kv) data))
             (edges_view g)
    /\ forall l name value,
         In l lines -> dict_get (l_attrs l) name = Some value ->
         is_expr value = false.
Proof.
  intros Hg. unfold writeGraphToJSON.
  destruct (mutate_edges_infallible clean_attributes (edges_view g) g)
    as [g1 Hg1].
  rewrite Hg1. cbn [bind].
  apply mutate_edges_keyed in Hg1; [| exact Hg]. subst g1.
  assert (Hsame : map_data (result_or_self (fun data => Ok (clean_attributes data))) g
                  = map_data clean_attributes g).
  { apply map_data_ext. intros d. reflexivity. }
  rewrite Hsame, edges_view_map_data, map_map.
  eexists. split; [reflexivity |]. split.
  - apply map_ext. intros [[[u v] k] d]. reflexivity.
  - intros l name value Hl Hget. apply in_map_iff in Hl.
    destruct Hl as [[[[u v] k] d] [<- _]]. cbn [l_attrs] in Hget.
    rewrite clean_attributes_get in Hget.
    destruct (dict_get d name) as [x |]; [| discriminate].
    inversion Hget. now destruct x.
Qed.

Lemma writeGraphToJSON_document_witness :
  well_keyed demo_graph = true
  /\ exists lines,
       writeGraphToJSON demo_graph
       = Ok (mkJson None (Some [mkNetwork "Combined" (Some lines)]) None)
       /\ nth_error lines 0
          = Some (mkLine "A" "C"
                    [("color", VStr "red"); ("capacity", VNum 100);
                     ("price", VNum 5); ("k", VNum 1); ("f_e", VNone)]).
Proof.
  split; [reflexivity |].
  destruct (writeGraphToJSON_document demo_graph eq_refl)
    as [lines [Hrun [Hlines _]]].
  exists lines. split; [exact Hrun |]. now rewrite Hlines.
Defined.

(* ================================================================== *)
(** ** From the file to the solver *)










Section Pipeline.

Variable set_iter : list (list node) -> list (list node).
Variable max_hops : nat.
Hypothesis set_iter_order : set_order set_iter.



End Pipeline.



(* ================================================================== *)
(** ** Running the enumerator again *)

Lemma keydict_add_edge (g : MultiGraph) (u v : node) (key : ekey)
  (attr : dict) (a b : node) :
  keydict g a b <> [] -> keydict (add_edge g u v (Some key) attr) a b <> [].
Proof.
  intros H. destruct (keydict g a b) as [| kd rest] eqn:Hkd; [contradiction |].
  assert (Hknown : edge_known g (a, b, fst kd) = true).
  { apply keydict_item_known. rewrite Hkd. now left. }
  apply (add_edge_known g u v key attr) in Hknown.
  apply edge_known_lookup in Hknown. destruct Hknown as [dd Hdd].
  unfold edge_data, adj_getitem in Hdd. intros Hnil.
  rewrite Hnil in Hdd. discriminate.
Qed.

Lemma chain_add_edge (g : MultiGraph) (u v : node) (key : ekey) (attr : dict)
  (p : list node) :
  chain g p -> chain (add_edge g u v (Some key) attr) p.
Proof.
  induction p as [| a rest IH]; [trivial |].
  destruct rest as [| b rest']; [trivial |].
  cbn [chain]. intros [Hab Hrest]. split.
  - now apply keydict_add_edge.
  - now apply IH.
Qed.

Lemma has_node_found (max_hops : nat) (g : MultiGraph) (dem : demand) :
  found_paths max_hops g dem <> [] ->
  has_node g (dem_s dem) = true /\ has_node g (dem_t dem) = true.
Proof.
  intros H.
  destruct (has_node g (dem_s dem)) eqn:Hs;
    [| exfalso; apply H, found_paths_absent; now left].
  destruct (has_node g (dem_t dem)) eqn:Ht;
    [| exfalso; apply H, found_paths_absent; now right].
  now split.
Qed.

Lemma found_paths_add_edge (max_hops : nat) (g : MultiGraph) (u v : node)
  (key : ekey) (attr : dict) (dem : demand) :
  found_paths max_hops g dem <> [] ->
  found_paths max_hops (add_edge g u v (Some key) attr) dem <> [].
Proof.
  intros H. destruct (has_node_found max_hops g dem H) as [Hs Ht].
  apply found_paths_reachable in H; try assumption.
  apply found_paths_reachable.
  - apply add_edge_has_node. now left.
  - apply add_edge_has_node. now left.
  - destruct H as [p [[Hchain Hrest] Hlen]]. exists p.
    split; [| exact Hlen]. split; [| exact Hrest]. now apply chain_add_edge.
Qed.

Lemma found_paths_personal (max_hops : nat) (g : MultiGraph) (dem : demand)
  (attr : dict) :
  1 <= max_hops ->
  found_paths max_hops
    (add_edge g (dem_s dem) (dem_t dem)
              (Some (default_key (dem_s dem) (dem_t dem))) attr) dem <> [].
Proof.
  intros Hhops. apply found_paths_reachable.
  - apply add_edge_has_node. right. now left.
  - apply add_edge_has_node. right. now right.
  - destruct (string_dec (dem_s dem) (dem_t dem)) as [Heq | Hne].
    + exists [dem_s dem]. split; [| simpl; lia].
      repeat split; try exact I; try (simpl; congruence).
      constructor; [intros [] | constructor].
    + exists [dem_s dem; dem_t dem]. split; [| simpl; lia].
      repeat split; try exact I; try discriminate.
      * pose proof (add_edge_new_known g (dem_s dem) (dem_t dem)
                      (default_key (dem_s dem) (dem_t dem)) attr) as Hknown.
        apply edge_known_lookup in Hknown. destruct Hknown as [dd Hdd].
        unfold edge_data, adj_getitem in Hdd. intros Hnil.
        rewrite Hnil in Hdd. discriminate.
      * constructor; [| constructor; [intros [] | constructor]].
        intros [Heq | []]. congruence.
Qed.

Section SecondRun.

Variable set_iter : list (list node) -> list (list node).
Variable max_hops : nat.
Hypothesis set_iter_order : set_order set_iter.
Hypothesis one_hop : 1 <= max_hops.

Lemma routes_for_demand_found (g g' : MultiGraph) (dem : demand)
  (routes : list route) :
  routes_for_demand set_iter max_hops g dem = Ok (routes, g') ->
  found_paths max_hops g' dem <> []
  /\ forall dem', found_paths max_hops g dem' <> [] ->
                  found_paths max_hops g' dem' <> [].
Proof.
  intros H. destruct (found_paths max_hops g dem) as [| p ps] eqn:Hfound.
  - rewrite (routes_for_demand_none set_iter max_hops g dem Hfound) in H.
    inversion H; subst. split.
    + now apply found_paths_personal.
    + intros dem'. apply found_paths_add_edge.
  - assert (Hsome : found_paths max_hops g dem <> [])
      by (rewrite Hfound; discriminate).
    rewrite (routes_for_demand_some set_iter max_hops set_iter_order g dem
               Hsome) in H.
    inversion H; subst. split; [exact Hsome | tauto].
Qed.

Lemma routes_loop_found (demands : list demand) :
  forall g acc R g',
    routes_loop set_iter max_hops g acc demands = Ok (R, g') ->
    (forall dem, In dem demands -> found_paths max_hops g' dem <> [])
    /\ forall dem, found_paths max_hops g dem <> [] ->
                   found_paths max_hops g' dem <> [].
Proof.
  induction demands as [| dem rest IH]; intros g acc R g' H;
    cbn [routes_loop] in H.
  - inversion H; subst. split; [intros dem [] | tauto].
  - inv_bind H as step Hstep. destruct step as [routes g1].
    destruct (routes_for_demand_found g g1 dem routes Hstep) as [Hdem Hmono].
    apply IH in H. destruct H as [Hrest Hmono']. split.
    + intros d [<- | Hd]; [now apply Hmono' | now apply Hrest].
    + intros d Hd. now apply Hmono', Hmono.
Qed.

Lemma routes_loop_fixed (demands : list demand) (g : MultiGraph) :
  (forall dem, In dem demands -> found_paths max_hops g dem <> []) ->
  forall acc, exists R, routes_loop set_iter max_hops g acc demands = Ok (R, g).
Proof.
  induction demands as [| dem rest IH]; intros Hfound acc;
    cbn [routes_loop]; [eauto |].
  rewrite (routes_for_demand_some set_iter max_hops set_iter_order g dem
             (Hfound dem (or_introl eq_refl))).
  cbn [bind]. apply IH. intros d Hd. apply Hfound. now right.
Qed.

End SecondRun.

(** X22.  The personal edges are added once.  With [max_hops] at least 1,
    a second run of the enumerator over the same demands, on the graph
    the first run left, returns and leaves that graph as it is. *)
Theorem getAllPossibleRoutes_second_run
  (set_iter : list (list node) -> list (list node)) (max_hops : nat)
  (g g' : MultiGraph) (demands : list demand) (R : list (list route)) :
  set_order set_iter ->
  1 <= max_hops ->
  getAllPossibleRoutes set_iter max_hops g demands = Ok (R, g') ->
  exists R', getAllPossibleRoutes set_iter max_hops g' demands = Ok (R', g').
Proof.
  intros Horder Hhops H. unfold getAllPossibleRoutes in *.
  apply (routes_loop_found set_iter max_hops Horder Hhops) in H.
  destruct H as [Hfound _].
  exact (routes_loop_fixed set_iter max_hops Horder demands g' Hfound []).
Qed.

Lemma getAllPossibleRoutes_second_run_witness :
  set_order set_iter_first
  /\ 1 <= 4
  /\ exists R g' R',
       getAllPossibleRoutes set_iter_first 4 two_parallel
         [mkDemand "A" "C" 120; mkDemand "C" "X" 7; mkDemand "X" "A" 3]
       = Ok (R, g')
       /\ g' <> two_parallel
       /\ getAllPossibleRoutes set_iter_first 4 g'
            [mkDemand "A" "C" 120; mkDemand "C" "X" 7; mkDemand "X" "A" 3]
          = Ok (R', g').
Proof.
  split; [exact set_iter_first_order |]. split; [lia |].
  destruct (getAllPossibleRoutes set_iter_first 4 two_parallel
              [mkDemand "A" "C" 120; mkDemand "C" "X" 7; mkDemand "X" "A" 3])
    as [[R g'] | e] eqn:H; [| vm_compute in H; discriminate].
  destruct (getAllPossibleRoutes_second_run set_iter_first 4 two_parallel g'
              [mkDemand "A" "C" 120; mkDemand "C" "X" 7; mkDemand "X" "A" 3]
              R set_iter_first_order (le_S _ _ (le_S _ _ (le_S _ _ (le_n 1))))
              H) as [R' Hagain].
  exists R, g', R'. split; [reflexivity |]. split; [| exact Hagain].
  intros Heq. rewrite Heq in H. vm_compute in H. discriminate.
Defined.
